(** * MockGen AI: the capture-to-normalized-endpoint pipeline

    A shallow embedding of [src/modules/browserController.ts] (the exchange
    filter, the exchange classifier and the capture session) and of the
    [DataProcessor] class of [src/modules/aiGenerator.ts] (endpoint identity,
    grouping, merging, prioritising, serialisation), with the properties the
    specification states about them.  It is followed by the utility
    functions of the two modules, the retry loop of [AiGenerator], the
    environment overrides, the file loader and the display function of
    [src/config/index.ts] and the text helpers and statistics of
    [src/modules/documentGenerator.ts], with properties read off the code.

    Conventions.
    - A JavaScript string is a [string]: a sequence of code units, of which
      the examples use the ASCII range.  [String.length] is [.length].
    - A [try { ... } catch] block is a computation in [Thrown + A]; the
      handler is the [inl] branch of a [match].
    - [new URL(s)] belongs to the platform, not to the repository.  The
      pipeline is parameterised by it: [newURL s = None] stands for the
      [TypeError] the constructor throws.  The theorems hold for every such
      parser; [referenceURL] below is a concrete one used to run examples.
    - [Date.now()] is an explicit argument [now] of the functions that read
      the clock.
    - The messages of the errors the engine throws belong to the platform
      too: the serializer is parameterised by [messageOf], and
      [ReferenceEngine.v8Message] is a concrete one used to run
      examples. *)

From Stdlib Require Import List String Ascii Bool ZArith Arith Lia.
From Stdlib Require Import DecimalString DecimalZ DecimalPos.
From Stdlib Require Import Permutation Sorted.
Import ListNotations.
Local Open Scope list_scope.
Local Open Scope string_scope.

Set Implicit Arguments.

(** ** Strings of the platform *)

Module Js.

(** [s.startsWith(p)] *)
Fixpoint startsWith (p s : string) : bool :=
  match p, s with
  | EmptyString, _ => true
  | String _ _, EmptyString => false
  | String a p', String b s' => Ascii.eqb a b && startsWith p' s'
  end.

(** [s.includes(sub)]: [sub] occurs in [s] as a contiguous substring. *)
Fixpoint includes (sub s : string) : bool :=
  startsWith sub s ||
  match s with
  | EmptyString => false
  | String _ s' => includes sub s'
  end.

(** [s.endsWith(suf)] *)
Fixpoint endsWith (suf s : string) : bool :=
  String.eqb suf s ||
  match s with
  | EmptyString => false
  | String _ s' => endsWith suf s'
  end.

Definition upperChar (c : ascii) : ascii :=
  let n := nat_of_ascii c in
  if ((97 <=? n) && (n <=? 122))%nat then ascii_of_nat (n - 32) else c.

(** [s.toUpperCase()] on ASCII text (HTTP methods are ASCII tokens). *)
Fixpoint toUpperCase (s : string) : string :=
  match s with
  | EmptyString => EmptyString
  | String c s' => String (upperChar c) (toUpperCase s')
  end.

(** A plain object used as [Record<string, string>]: its own properties,
    listed in the order the engine enumerates them (array-index keys in
    ascending order first, then the other keys in creation order). *)
Definition Record_ := list (string * string).

Definition isDigit (c : ascii) : bool :=
  let n := nat_of_ascii c in ((48 <=? n) && (n <=? 57))%nat.

Fixpoint digitsValue (acc : N) (s : string) : option N :=
  match s with
  | EmptyString => Some acc
  | String c s' =>
      if isDigit c
      then digitsValue (acc * 10 + N.of_nat (nat_of_ascii c - 48))%N s'
      else None
  end.

(** The array index a property key denotes, if it is one: a canonical
    decimal numeral below 2^32 - 1. *)
Definition arrayIndex (k : string) : option N :=
  match k with
  | EmptyString => None
  | String c rest =>
      if Ascii.eqb c "0"
      then match rest with EmptyString => Some 0%N | _ => None end
      else match digitsValue 0 k with
           | Some n => if (n <? 4294967295)%N then Some n else None
           | None => None
           end
  end.

Fixpoint hasOwn (k : string) (o : Record_) : bool :=
  match o with
  | [] => false
  | (k', _) :: o' => String.eqb k k' || hasOwn k o'
  end.

Fixpoint overwrite (k v : string) (o : Record_) : Record_ :=
  match o with
  | [] => []
  | (k', v') :: o' =>
      if String.eqb k k' then (k', v) :: o' else (k', v') :: overwrite k v o'
  end.

(** Place a new array-index key [i] among the index keys already there. *)
Fixpoint insertIndex (i : N) (k v : string) (o : Record_) : Record_ :=
  match o with
  | [] => [(k, v)]
  | (k', v') :: o' =>
      match arrayIndex k' with
      | Some j => if (i <? j)%N then (k, v) :: o
                  else (k', v') :: insertIndex i k v o'
      | None => (k, v) :: o
      end
  end.

(** [o[k] = v] on a plain object whose values are strings.  Assigning a
    string to [__proto__] reaches the accessor inherited from
    [Object.prototype], which ignores it. *)
Definition set (k v : string) (o : Record_) : Record_ :=
  if String.eqb k "__proto__" then o
  else if hasOwn k o then overwrite k v o
  else match arrayIndex k with
       | Some i => insertIndex i k v o
       | None => (o ++ [(k, v)])%list
       end.

(** [o[k]]: the value of an own property, [undefined] when absent. *)
Fixpoint lookup (k : string) (o : Record_) : option string :=
  match o with
  | [] => None
  | (k', v) :: o' => if String.eqb k k' then Some v else lookup k o'
  end.

(** [x || ''] for [x] a string or [undefined]. *)
Definition orEmpty (x : option string) : string :=
  match x with
  | Some v => v
  | None => ""
  end.

(** [`${n}`] for an integer-valued number. *)
Definition ofNumber (n : Z) : string := NilZero.string_of_int (Z.to_int n).

End Js.

(** ** The part of a parsed URL the pipeline reads *)

Module URL.
Record t := mk {
  hostname : string;
  pathname : string;
  (** [searchParams]: the name/value pairs of the query string, in order *)
  searchParams : list (string * string);
  (** [hash]: the fragment *)
  hash : string
}.

(** [url.searchParams.has(name)] *)
Definition has (name : string) (u : t) : bool :=
  existsb (fun kv => String.eqb (fst kv) name) (searchParams u).
End URL.

(** ** Errors *)

Inductive ErrorCategory :=
  CONFIG | NETWORK | AI_API | FILE_SYSTEM | VALIDATION | BROWSER | USER_INPUT.

Module AppError.
Record t := mk {
  category : ErrorCategory;
  code : string;
  message : string;
  details : option string;
  (** [originalError]: the message of the wrapped [Error], if any *)
  originalError : option string;
  timestamp : Z
}.
End AppError.

(** What a [throw] carries: an instance of [Error] with its message, or one
    of the repository's [AppError] object literals (which is not an
    [Error]). *)
Inductive Thrown :=
| ThrownError (message : string)
| ThrownApp (e : AppError.t).

(** [error instanceof Error ? error.message : String(error)] *)
Definition errorMessage (t : Thrown) : string :=
  match t with
  | ThrownError m => m
  | ThrownApp _ => "[object Object]"
  end.

(** [error instanceof Error ? error : undefined], the [originalError] of an
    [AppError] that wraps [error]. *)
Definition originalOf (t : Thrown) : option string :=
  match t with
  | ThrownError m => Some m
  | ThrownApp _ => None
  end.

Definition Try (A : Type) : Type := (Thrown + A)%type.

Definition ret {A} (a : A) : Try A := inr a.
Definition throw {A} (t : Thrown) : Try A := inl t.
Definition bind {A B} (c : Try A) (k : A -> Try B) : Try B :=
  match c with
  | inl t => inl t
  | inr a => k a
  end.

Notation "x <- c ;; k" := (bind c (fun x => k))
  (at level 61, c at next level, right associativity).

(** [xs.map(f)] / [xs.forEach(f)] where [f] may throw: stops at the first
    exception. *)
Fixpoint mapTry {A B} (f : A -> Try B) (l : list A) : Try (list B) :=
  match l with
  | [] => ret []
  | a :: l' => b <- f a ;; bs <- mapTry f l' ;; ret (b :: bs)
  end.

(** [new URL(s)] inside a [try] block: the constructor throws a [TypeError]
    on input it cannot parse. *)
Definition tryURL (newURL : string -> option URL.t) (s : string) : Try URL.t :=
  match newURL s with
  | Some u => ret u
  | None => throw (ThrownError "Invalid URL")
  end.

(** ** Network log data ([types/index.ts]) *)

Module NetworkRequest.
Record t := mk {
  method : string;
  url : string;
  headers : Js.Record_;
  body : option string;
  timestamp : Z
}.
End NetworkRequest.

Module NetworkResponse.
Record t := mk {
  status : Z;
  statusText : string;
  headers : Js.Record_;
  body : string;
  contentType : string;
  timestamp : Z
}.
End NetworkResponse.

Module NetworkLogEntry.
Record t := mk {
  id : string;
  request : NetworkRequest.t;
  response : NetworkResponse.t;
  resourceType : string;
  isBffBlockApi : bool
}.
End NetworkLogEntry.

Definition NetworkLogCollection := list NetworkLogEntry.t.

Module ProcessedApiData.
Record t := mk {
  method : string;
  url : string;
  responseBody : string;
  queryParams : Js.Record_;
  pathParams : Js.Record_
}.
End ProcessedApiData.

Definition ProcessedApiCollection := list ProcessedApiData.t.

(** ** Arrays and maps of the platform *)

Module JsArray.

(** [xs.sort(compare)].  The language requires the sort to be stable; for a
    comparator that is a consistent ordering this fixes the result, which
    stable insertion computes. *)
Fixpoint insertSorted {A} (compare : A -> A -> Z) (x : A) (l : list A) : list A :=
  match l with
  | [] => [x]
  | y :: l' =>
      if (compare x y <=? 0)%Z then x :: l
      else y :: insertSorted compare x l'
  end.

Definition sort {A} (compare : A -> A -> Z) (l : list A) : list A :=
  fold_right (insertSorted compare) [] l.

(** [xs.slice(0, n)] for an integer [n > 0]. *)
Definition slice0 {A} (n : Z) (l : list A) : list A := firstn (Z.to_nat n) l.

(** A loop over an array whose body updates local state and may throw. *)
Fixpoint forEachTry {A S} (f : S -> A -> Try S) (l : list A) (s : S) : Try S :=
  match l with
  | [] => ret s
  | a :: l' => s' <- f s a ;; forEachTry f l' s'
  end.

End JsArray.

(** [Map<string, V>]: entries in insertion order. *)
Module JsMap.

Definition t (V : Type) := list (string * V).

Fixpoint has {V} (k : string) (m : t V) : bool :=
  match m with
  | [] => false
  | (k', _) :: m' => String.eqb k k' || has k m'
  end.

Fixpoint get {V} (k : string) (m : t V) : option V :=
  match m with
  | [] => None
  | (k', v) :: m' => if String.eqb k k' then Some v else get k m'
  end.

(** [m.set(k, v)] for a key not yet present. *)
Definition setNew {V} (k : string) (v : V) (m : t V) : t V := (m ++ [(k, v)])%list.

(** Mutating, in place, the object stored under [k]. *)
Fixpoint update {V} (k : string) (f : V -> V) (m : t V) : t V :=
  match m with
  | [] => []
  | (k', v) :: m' =>
      if String.eqb k k' then (k', f v) :: m' else (k', v) :: update k f m'
  end.

(** The values in the order [m.forEach] visits them. *)
Definition values {V} (m : t V) : list V := map snd m.

End JsMap.

(** ** The browsing surface (Playwright), as the controller observes it *)

Module Request.
Record t := mk {
  method : string;
  headers : Js.Record_;
  postData : option string;
  resourceType : string
}.
End Request.

Module Response.
Record t := mk {
  url : string;
  headers : Js.Record_;
  status : Z;
  statusText : string;
  (** the outcome of [await response.text()] *)
  text : Try string;
  request : Request.t
}.
End Response.

(** What happens on the page while the controller awaits. *)
Inductive SurfaceEvent :=
| ResponseArrives (r : Response.t)
    (** the page emits ['response']; the listener runs up to its
        [await response.text()] *)
| BodyResolves (k : nat)
    (** [response.text()] of the [k]-th suspended listener settles (0 is the
        oldest); the listener runs to its end *).

(** One capture session seen from outside: the outcome of every call into
    the browser, the events of the page, and the readings of the clock. *)
Module Surface.
Record t := mk {
  launch : Try unit;
  newContext : Try unit;
  newPage : Try unit;
  goto : Try unit;
  (** events while [page.goto] is awaited *)
  duringNavigation : list SurfaceEvent;
  (** events while the user interacts, until Enter is pressed *)
  duringCapture : list SurfaceEvent;
  pageClose : Try unit;
  contextClose : Try unit;
  browserClose : Try unit;
  (** [clock n]: what the [n]-th call of [Date.now()] returns *)
  clock : nat -> Z
}.
End Surface.

Module NetworkCaptureResult.
Record t := mk {
  success : bool;
  logs : NetworkLogCollection;
  totalRequests : nat;
  filteredRequests : nat;
  error : option string
}.
End NetworkCaptureResult.

(** ** Exchange filter and classifier ([browserController.ts]) *)

Module BrowserController.
Section Platform.

Variable newURL : string -> option URL.t.

(** [isHostAllowed(url)], with [this.options.config.filter.allowed_hosts]
    passed as [allowedHosts]. *)
Definition isHostAllowed (allowedHosts : list string) (url : string) : bool :=
  if (List.length allowedHosts =? 0)%nat then true
  else
    match
      urlObj <- tryURL newURL url ;;
      let hostname := URL.hostname urlObj in
      ret (existsb
             (fun allowedHost =>
                String.eqb hostname allowedHost
                || Js.endsWith ("." ++ allowedHost) hostname)
             allowedHosts)
    with
    | inr b => b
    | inl _ => false
    end.

(** [isBffBlockApiPattern(url)] *)
Definition isBffBlockApiPattern (url : string) : bool :=
  match
    urlObj <- tryURL newURL url ;;
    let pathname := URL.pathname urlObj in
    ret (Js.includes "/blocks" pathname && URL.has "keys" urlObj)
  with
  | inr b => b
  | inl _ => false
  end.

(** *** The capture session *)

Variable surface : Surface.t.

(** The fields of a [BrowserController], and the listeners of the page that
    are suspended at [await response.text()]. *)
Record State := mkState {
  browser : bool;
  context : bool;
  page : bool;
  capturedLogs : list NetworkLogEntry.t;
  isCapturing : bool;
  logCounter : Z;
  ticks : nat;
  pending : list (Response.t * NetworkRequest.t)
}.

Definition initialState : State :=
  mkState false false false [] false 0 0 [].

(** A method body: it reads and writes the fields and returns or throws. *)
Definition M (A : Type) : Type := State -> Try A * State.

Definition mret {A} (a : A) : M A := fun s => (inr a, s).
Definition mthrow {A} (t : Thrown) : M A := fun s => (inl t, s).
Definition mbind {A B} (c : M A) (k : A -> M B) : M B :=
  fun s => match c s with
           | (inl t, s') => (inl t, s')
           | (inr a, s') => k a s'
           end.
Definition get : M State := fun s => (inr s, s).
Definition modify (f : State -> State) : M unit := fun s => (inr tt, f s).
Definition await {A} (outcome : Try A) : M A := fun s => (outcome, s).

(** [try { c } catch (error) { handler error }] *)
Definition tryCatch {A} (c : M A) (handler : Thrown -> M A) : M A :=
  fun s => match c s with
           | (inl t, s') => handler t s'
           | (inr a, s') => (inr a, s')
           end.

(** [try { c } finally { f }], for an [f] that does not itself return. *)
Definition tryFinally {A} (c : M A) (f : M unit) : M A :=
  fun s => match c s with
           | (r, s') =>
               match f s' with
               | (inl t, s'') => (inl t, s'')
               | (inr _, s'') => (r, s'')
               end
           end.

Local Notation "x <~ c ;; k" := (mbind c (fun x => k))
  (at level 61, c at next level, right associativity).
Local Notation "c ;;; k" := (mbind c (fun _ => k))
  (at level 61, right associativity).

Definition setBrowser (b : bool) : M unit :=
  modify (fun s => mkState b (context s) (page s) (capturedLogs s)
                     (isCapturing s) (logCounter s) (ticks s) (pending s)).
Definition setContext (b : bool) : M unit :=
  modify (fun s => mkState (browser s) b (page s) (capturedLogs s)
                     (isCapturing s) (logCounter s) (ticks s) (pending s)).
Definition setPage (b : bool) : M unit :=
  modify (fun s => mkState (browser s) (context s) b (capturedLogs s)
                     (isCapturing s) (logCounter s) (ticks s) (pending s)).
Definition setCapturedLogs (l : list NetworkLogEntry.t) : M unit :=
  modify (fun s => mkState (browser s) (context s) (page s) l
                     (isCapturing s) (logCounter s) (ticks s) (pending s)).
Definition setIsCapturing (b : bool) : M unit :=
  modify (fun s => mkState (browser s) (context s) (page s) (capturedLogs s)
                     b (logCounter s) (ticks s) (pending s)).
Definition setLogCounter (n : Z) : M unit :=
  modify (fun s => mkState (browser s) (context s) (page s) (capturedLogs s)
                     (isCapturing s) n (ticks s) (pending s)).
Definition setPending (l : list (Response.t * NetworkRequest.t)) : M unit :=
  modify (fun s => mkState (browser s) (context s) (page s) (capturedLogs s)
                     (isCapturing s) (logCounter s) (ticks s) l).

(** [Date.now()] *)
Definition dateNow : M Z :=
  fun s => (inr (Surface.clock surface (ticks s)),
            mkState (browser s) (context s) (page s) (capturedLogs s)
              (isCapturing s) (logCounter s) (S (ticks s)) (pending s)).

Definition createBrowserError (code message : string)
    (details originalError : option string) : M AppError.t :=
  now <~ dateNow ;;
  mret (AppError.mk BROWSER code message details originalError now).

Definition initializeBrowser : M unit :=
  tryCatch
    (await (Surface.launch surface) ;;;
     setBrowser true ;;;
     await (Surface.newContext surface) ;;;
     setContext true ;;;
     await (Surface.newPage surface) ;;;
     setPage true)
    (fun error =>
       e <~ createBrowserError "BROWSER_INIT_ERROR"
              "Failed to initialize browser"
              (Some (errorMessage error)) (originalOf error) ;;
       mthrow (ThrownApp e)).

Definition allowedMethods : list string :=
  ["GET"; "POST"; "PUT"; "PATCH"; "DELETE"].

(** [shouldCaptureResponse(response)] *)
Definition shouldCaptureResponse (allowedHosts : list string)
    (response : Response.t) : bool :=
  match
    (if negb (isHostAllowed allowedHosts (Response.url response))
     then ret false
     else
       let contentType :=
         Js.orEmpty (Js.lookup "content-type" (Response.headers response)) in
       if negb (Js.includes "application/json" contentType) then ret false
       else
         let request := Response.request response in
         let resourceType := Request.resourceType request in
         if negb (String.eqb resourceType "fetch")
            && negb (String.eqb resourceType "xhr")
         then ret false
         else
           let method := Js.toUpperCase (Request.method request) in
           if negb (existsb (String.eqb method) allowedMethods) then ret false
           else ret true) : Try bool
  with
  | inr b => b
  | inl _ => false
  end.

(** [processNetworkResponse(response)] up to its [await response.text()]:
    [None] is the [null] it returns for a response it does not capture. *)
Definition processNetworkResponse_request (allowedHosts : list string)
    (response : Response.t) : M (option NetworkRequest.t) :=
  if negb (shouldCaptureResponse allowedHosts response) then mret None
  else
    let request := Response.request response in
    let url := Response.url response in
    let postData := Request.postData request in
    now <~ dateNow ;;
    mret (Some (NetworkRequest.mk (Request.method request) url
                  (Request.headers request)
                  (match postData with
                   | Some EmptyString => None
                   | other => other
                   end)
                  now)).

(** [processNetworkResponse(response)] from the point where
    [response.text()] has settled. *)
Definition processNetworkResponse_body (response : Response.t)
    (networkRequest : NetworkRequest.t) : M NetworkLogEntry.t :=
  let url := Response.url response in
  let responseBody :=
    match Response.text response with
    | inr body => body
    | inl _ => ""
    end in
  now <~ dateNow ;;
  let networkResponse :=
    NetworkResponse.mk (Response.status response)
      (Response.statusText response) (Response.headers response)
      responseBody
      (Js.orEmpty (Js.lookup "content-type" (Response.headers response)))
      now in
  let isBffBlockApi := isBffBlockApiPattern url in
  s <~ get ;;
  setLogCounter (logCounter s + 1) ;;;
  now' <~ dateNow ;;
  mret (NetworkLogEntry.mk
          ("log_" ++ Js.ofNumber (logCounter s + 1) ++ "_" ++ Js.ofNumber now')
          networkRequest networkResponse
          (Request.resourceType (Response.request response))
          isBffBlockApi).

Fixpoint removeNth {A} (k : nat) (l : list A) : list A :=
  match k, l with
  | _, [] => []
  | O, _ :: l' => l'
  | S k', a :: l' => a :: removeNth k' l'
  end.

(** The listener [setupNetworkCapture] registers, run on one event. *)
Definition onSurfaceEvent (allowedHosts : list string) (ev : SurfaceEvent)
    : M unit :=
  match ev with
  | ResponseArrives response =>
      s <~ get ;;
      if negb (isCapturing s) then mret tt
      else
        r <~ processNetworkResponse_request allowedHosts response ;;
        match r with
        | None => mret tt
        | Some networkRequest =>
            s' <~ get ;;
            setPending (pending s' ++ [(response, networkRequest)])%list
        end
  | BodyResolves k =>
      s <~ get ;;
      match nth_error (pending s) k with
      | None => mret tt
      | Some (response, networkRequest) =>
          setPending (removeNth k (pending s)) ;;;
          logEntry <~ processNetworkResponse_body response networkRequest ;;
          s' <~ get ;;
          setCapturedLogs (capturedLogs s' ++ [logEntry])%list
      end
  end.

Fixpoint runEvents (allowedHosts : list string) (evs : list SurfaceEvent)
    : M unit :=
  match evs with
  | [] => mret tt
  | ev :: evs' =>
      onSurfaceEvent allowedHosts ev ;;; runEvents allowedHosts evs'
  end.

Definition setupNetworkCapture : M unit :=
  s <~ get ;;
  if negb (page s)
  then e <~ createBrowserError "PAGE_NOT_INITIALIZED" "Page not initialized"
              None None ;;
       mthrow (ThrownApp e)
  else mret tt.

Definition navigateToUrl (allowedHosts : list string) (url : string) : M unit :=
  s <~ get ;;
  if negb (page s)
  then e <~ createBrowserError "PAGE_NOT_INITIALIZED" "Page not initialized"
              None None ;;
       mthrow (ThrownApp e)
  else
    tryCatch
      (await (tryURL newURL url) ;;;
       runEvents allowedHosts (Surface.duringNavigation surface) ;;;
       await (Surface.goto surface))
      (fun error =>
         e <~ createBrowserError "NAVIGATION_ERROR"
                ("Failed to navigate to URL: " ++ url)
                (Some (errorMessage error)) (originalOf error) ;;
         mthrow (ThrownApp e)).

(** [waitForUserInput()]: the page goes on emitting events until the user
    presses Enter; the promise never rejects. *)
Definition waitForUserInput (allowedHosts : list string) : M unit :=
  runEvents allowedHosts (Surface.duringCapture surface).

Definition cleanup : M unit :=
  tryCatch
    (setIsCapturing false ;;;
     s <~ get ;;
     (if page s
      then await (Surface.pageClose surface) ;;; setPage false
      else mret tt) ;;;
     s1 <~ get ;;
     (if context s1
      then await (Surface.contextClose surface) ;;; setContext false
      else mret tt) ;;;
     s2 <~ get ;;
     (if browser s2
      then await (Surface.browserClose surface) ;;; setBrowser false
      else mret tt))
    (fun _ => mret tt).

(** The [try] block of [captureNetworkLogs]. *)
Definition captureNetworkLogs_try (allowedHosts : list string) (url : string)
    : M NetworkCaptureResult.t :=
  setCapturedLogs [] ;;;
  setLogCounter 0 ;;;
  setIsCapturing false ;;;
  initializeBrowser ;;;
  setupNetworkCapture ;;;
  navigateToUrl allowedHosts url ;;;
  setIsCapturing true ;;;
  waitForUserInput allowedHosts ;;;
  setIsCapturing false ;;;
  s <~ get ;;
  mret (NetworkCaptureResult.mk true
          (capturedLogs s)
          (List.length (capturedLogs s))
          (List.length (filter NetworkLogEntry.isBffBlockApi (capturedLogs s)))
          None).

(** The [catch] block of [captureNetworkLogs]. *)
Definition captureNetworkLogs_catch (error : Thrown) : M NetworkCaptureResult.t :=
  let errorMessage := errorMessage error in
  mret (NetworkCaptureResult.mk false [] 0 0 (Some errorMessage)).

(** [captureNetworkLogs(url)] *)
Definition captureNetworkLogs (allowedHosts : list string) (url : string)
    : M NetworkCaptureResult.t :=
  tryFinally
    (tryCatch (captureNetworkLogs_try allowedHosts url) captureNetworkLogs_catch)
    cleanup.

End Platform.
End BrowserController.

(** ** Values at run time, and [JSON.stringify]

    The declared type of a [ProcessedApiData] allows strings and
    string-to-string records only, and such data is a finite tree.  The
    serializer guards against data that breaks this promise, so its
    argument is modelled as it exists at run time.  A value is [undefined],
    [null], a boolean, a number, a string, a BigInt or a reference to an
    object of the store; an object is a plain object or an array, and
    references may form cycles.  A number is named by the text the
    platform prints for it ([String(n)]), which is all the serializer asks
    of a number.  Objects hold data in enumerable properties: functions,
    symbols, accessors, [toJSON] methods, wrapper objects and proxies are
    left out, and so are the limits of the engine on the depth of nesting
    and on the length of a string. *)

Inductive JsValue :=
| JsUndefined
| JsNull
| JsBoolean (b : bool)
| JsNumber (text : string)
| JsString (s : string)
| JsBigInt (n : Z)
| JsRef (address : nat).

(** An object: the own properties of a plain object in enumeration order
    (the keys are distinct), or the elements of an array. *)
Inductive JsObject :=
| PlainObject (properties : list (string * JsValue))
| ArrayObject (elements : list JsValue).

(** The objects allocated so far; an address is a position, and an address
    past the end stands for an object without properties. *)
Definition Store := list JsObject.

(** [object[key]] on the own properties of a plain object. *)
Fixpoint ownValue (key : string) (properties : list (string * JsValue))
    : JsValue :=
  match properties with
  | [] => JsUndefined
  | (k, v) :: rest => if String.eqb key k then v else ownValue key rest
  end.

(** What the platform refuses to do in the functions below: to read a
    property of [undefined] or [null], to serialize an object that is
    being serialized already, to serialize a BigInt, and to nest deeper
    than it is given fuel for.  Each refusal is an [Error] whose message is
    worded by the engine; [stack] lists the objects being serialized when
    the object at [address] is met again, innermost first. *)
Inductive Refusal :=
| ReadOfNullish (value : JsValue) (key : string)
| CircularStructure (stack : list nat) (address : nat)
| BigIntValue (n : Z)
| NestingTooDeep.

Module Json.

Definition dquote : string := String (ascii_of_nat 34) EmptyString.
Definition backslash : string := String (ascii_of_nat 92) EmptyString.
Definition newline : string := String (ascii_of_nat 10) EmptyString.

Definition hexDigit (n : nat) : string :=
  String (ascii_of_nat (if (n <? 10)%nat then 48 + n else 87 + n)) EmptyString.

(** One code unit inside a JSON string literal ([QuoteJSONString]). *)
Definition escapeChar (c : ascii) : string :=
  let n := nat_of_ascii c in
  if (n =? 8)%nat then backslash ++ "b"
  else if (n =? 9)%nat then backslash ++ "t"
  else if (n =? 10)%nat then backslash ++ "n"
  else if (n =? 12)%nat then backslash ++ "f"
  else if (n =? 13)%nat then backslash ++ "r"
  else if (n =? 34)%nat then backslash ++ dquote
  else if (n =? 92)%nat then backslash ++ backslash
  else if (n <? 32)%nat
       then backslash ++ "u00" ++ hexDigit (n / 16) ++ hexDigit (n mod 16)
  else String c EmptyString.

Fixpoint escape (s : string) : string :=
  match s with
  | EmptyString => EmptyString
  | String c s' => escapeChar c ++ escape s'
  end.

Definition quoteJSONString (s : string) : string :=
  dquote ++ escape s ++ dquote.

Fixpoint join (separator : string) (l : list string) : string :=
  match l with
  | [] => EmptyString
  | [x] => x
  | x :: l' => x ++ separator ++ join separator l'
  end.

(** The indentation unit of [JSON.stringify(value, null, 2)]. *)
Definition gap : string := "  ".

(** The text of an object or array whose parts are already serialized;
    [stepback] is the indentation of the enclosing level. *)
Definition bracket (opening closing stepback : string) (partial : list string)
    : string :=
  match partial with
  | [] => opening ++ closing
  | _ =>
      let indent := stepback ++ gap in
      opening ++ newline ++ indent
      ++ join ("," ++ newline ++ indent) partial
      ++ newline ++ stepback ++ closing
  end.

Definition member (key text : string) : string :=
  quoteJSONString key ++ ": " ++ text.

Definition objectText (stepback : string) (members : list (string * string))
    : string :=
  bracket "{" "}" stepback (map (fun kt => member (fst kt) (snd kt)) members).

Definition arrayText (stepback : string) (items : list string) : string :=
  bracket "[" "]" stepback items.

(** The JSON text of a number whose [String(n)] is [text]: the numbers that
    are not finite are written [null]. *)
Definition numberText (text : string) : string :=
  if String.eqb text "NaN" || String.eqb text "Infinity"
     || String.eqb text "-Infinity"
  then "null"
  else text.

(** The members whose value has a JSON text: a property whose value is
    [undefined] is left out of its object. *)
Fixpoint present (members : list (string * option string))
    : list (string * string) :=
  match members with
  | [] => []
  | (key, Some text) :: rest => (key, text) :: present rest
  | (_, None) :: rest => present rest
  end.

(** An element of an array that is [undefined] is written [null]. *)
Definition orNull (text : option string) : string :=
  match text with
  | Some t => t
  | None => "null"
  end.

Definition onStack (a : nat) (stack : list nat) : bool :=
  existsb (Nat.eqb a) stack.

Section Engine.

(** [messageOf store refusal]: the message of the error the engine throws
    for [refusal]. *)
Variable messageOf : Store -> Refusal -> string.

(** [SerializeJSONProperty]: [stack] holds the objects being serialized,
    [indent] the current indentation, and the result is [None] for
    [undefined].  A BigInt is a [TypeError], and so is an object met again
    while it is on the stack, a cycle.  [fuel] bounds the nesting depth;
    [stringify] supplies more than any acyclic nesting can use. *)
Fixpoint serializeJSONProperty (store : Store) (fuel : nat) (stack : list nat)
    (indent : string) (value : JsValue) : Try (option string) :=
  match value with
  | JsUndefined => ret None
  | JsNull => ret (Some "null")
  | JsBoolean b => ret (Some (if b then "true" else "false"))
  | JsNumber text => ret (Some (numberText text))
  | JsString s => ret (Some (quoteJSONString s))
  | JsBigInt n => throw (ThrownError (messageOf store (BigIntValue n)))
  | JsRef a =>
      if onStack a stack
      then throw (ThrownError (messageOf store (CircularStructure stack a)))
      else
        match nth_error store a with
        | None => ret (Some "{}")
        | Some object =>
            match fuel with
            | O => throw (ThrownError (messageOf store NestingTooDeep))
            | S fuel' =>
                match object with
                | PlainObject properties =>
                    partial <-
                      mapTry
                        (fun kv =>
                           text <- serializeJSONProperty store fuel'
                                     (a :: stack) (indent ++ gap) (snd kv) ;;
                           ret (fst kv, text))
                        properties ;;
                    ret (Some (objectText indent (present partial)))
                | ArrayObject elements =>
                    partial <-
                      mapTry
                        (fun element =>
                           text <- serializeJSONProperty store fuel'
                                     (a :: stack) (indent ++ gap) element ;;
                           ret (orNull text))
                        elements ;;
                    ret (Some (arrayText indent partial))
                end
            end
        end
  end.

(** A property value of a fresh object literal at indentation [indent]. *)
Definition stringify (store : Store) (indent : string) (value : JsValue)
    : Try (option string) :=
  serializeJSONProperty store (S (List.length store)) [] indent value.

End Engine.

End Json.

(** ** The endpoint normalizer ([DataProcessor] in [aiGenerator.ts]) *)

(** [DataProcessingOptions]: every field may be left out. *)
Module DataProcessingOptions.
Record t := mk {
  mergeDuplicates : option bool;
  prioritizeBffApis : option bool;
  maxApis : option Z;
  includeHeaders : option bool
}.
End DataProcessingOptions.

(** [Required<DataProcessingOptions>] *)
Module Options.
Record t := mk {
  mergeDuplicates : bool;
  prioritizeBffApis : bool;
  maxApis : Z;
  includeHeaders : bool
}.
End Options.

Module DataProcessingResult.
Record t := mk {
  success : bool;
  processedData : ProcessedApiCollection;
  totalLogs : nat;
  bffApiCount : nat;
  uniqueEndpoints : nat;
  error : option string
}.
End DataProcessingResult.

Module EndpointMergeInfo.
Record t := mk {
  endpointKey : string;
  logs : list NetworkLogEntry.t;
  isBffBlockApi : bool
}.
End EndpointMergeInfo.

Module DataProcessor.

Definition orDefault {A} (d : A) (o : option A) : A :=
  match o with
  | Some a => a
  | None => d
  end.

(** [constructor(options = {})]: the defaults, overridden by the fields
    given. *)
Definition constructor (options : DataProcessingOptions.t) : Options.t :=
  Options.mk
    (orDefault true (DataProcessingOptions.mergeDuplicates options))
    (orDefault true (DataProcessingOptions.prioritizeBffApis options))
    (orDefault 50%Z (DataProcessingOptions.maxApis options))
    (orDefault false (DataProcessingOptions.includeHeaders options)).

Definition createProcessingError (now : Z) (code message : string)
    (details originalError : option string) : AppError.t :=
  AppError.mk VALIDATION code message details originalError now.

Section Platform.

Variable newURL : string -> option URL.t.

Definition requestUrl (logEntry : NetworkLogEntry.t) : string :=
  NetworkRequest.url (NetworkLogEntry.request logEntry).
Definition requestMethod (logEntry : NetworkLogEntry.t) : string :=
  NetworkRequest.method (NetworkLogEntry.request logEntry).
Definition responseBody (logEntry : NetworkLogEntry.t) : string :=
  NetworkResponse.body (NetworkLogEntry.response logEntry).

(** [isBffBlockApiPattern(logEntry)] *)
Definition isBffBlockApiPattern (logEntry : NetworkLogEntry.t) : bool :=
  match
    let url := requestUrl logEntry in
    urlObj <- tryURL newURL url ;;
    let pathname := URL.pathname urlObj in
    ret (Js.includes "/blocks" pathname && URL.has "keys" urlObj)
  with
  | inr b => b
  | inl _ => false
  end.

(** [extractQueryParams(url)] *)
Definition extractQueryParams (url : string) : Js.Record_ :=
  match
    urlObj <- tryURL newURL url ;;
    ret (fold_left (fun params kv => Js.set (fst kv) (snd kv) params)
           (URL.searchParams urlObj) [])
  with
  | inr params => params
  | inl _ => []
  end.

(** [extractPathParams(_url)] *)
Definition extractPathParams (_url : string) : Js.Record_ := [].

(** [createEndpointKey(logEntry)] *)
Definition createEndpointKey (logEntry : NetworkLogEntry.t) : string :=
  match
    let url := requestUrl logEntry in
    urlObj <- tryURL newURL url ;;
    let method := Js.toUpperCase (requestMethod logEntry) in
    ret (method ++ " " ++ URL.hostname urlObj ++ URL.pathname urlObj)
  with
  | inr key => key
  | inl _ => requestMethod logEntry ++ " " ++ requestUrl logEntry
  end.

(** The body of the loop of [groupLogsByEndpoint]. *)
Definition addToGroups (endpointGroups : JsMap.t EndpointMergeInfo.t)
    (log : NetworkLogEntry.t) : JsMap.t EndpointMergeInfo.t :=
  let endpointKey := createEndpointKey log in
  let isBffBlockApi := isBffBlockApiPattern log in
  if JsMap.has endpointKey endpointGroups
  then JsMap.update endpointKey
         (fun existing =>
            EndpointMergeInfo.mk
              (EndpointMergeInfo.endpointKey existing)
              (EndpointMergeInfo.logs existing ++ [log])%list
              (EndpointMergeInfo.isBffBlockApi existing || isBffBlockApi))
         endpointGroups
  else JsMap.setNew endpointKey
         (EndpointMergeInfo.mk endpointKey [log] isBffBlockApi)
         endpointGroups.

(** [groupLogsByEndpoint(logs)] *)
Definition groupLogsByEndpoint (logs : NetworkLogCollection)
    : JsMap.t EndpointMergeInfo.t :=
  fold_left addToGroups logs [].

(** The body of the loop of [mergeEndpointLogs]: the pair is
    [(bestResponseBody, bestLog)]. *)
Definition keepLonger (best : string * NetworkLogEntry.t)
    (log : NetworkLogEntry.t) : string * NetworkLogEntry.t :=
  if (String.length (fst best) <? String.length (responseBody log))%nat
  then (responseBody log, log)
  else best.

(** [mergeEndpointLogs(mergeInfo)] *)
Definition mergeEndpointLogs (now : Z) (mergeInfo : EndpointMergeInfo.t)
    : Try ProcessedApiData.t :=
  let logs := EndpointMergeInfo.logs mergeInfo in
  match logs with
  | [] =>
      throw (ThrownApp (createProcessingError now "EMPTY_LOGS"
                          "Cannot merge empty logs array" None None))
  | baseLog :: _ =>
      let '(bestResponseBody, bestLog) :=
        fold_left keepLonger logs (responseBody baseLog, baseLog) in
      ret (ProcessedApiData.mk
             (Js.toUpperCase (requestMethod bestLog))
             (requestUrl bestLog)
             bestResponseBody
             (extractQueryParams (requestUrl bestLog))
             (extractPathParams (requestUrl bestLog)))
  end.

(** [processLogEntry(logEntry)] *)
Definition processLogEntry (logEntry : NetworkLogEntry.t) : ProcessedApiData.t :=
  ProcessedApiData.mk
    (Js.toUpperCase (requestMethod logEntry))
    (requestUrl logEntry)
    (responseBody logEntry)
    (extractQueryParams (requestUrl logEntry))
    (extractPathParams (requestUrl logEntry)).

(** The comparator [filterAndPrioritizeLogs] sorts with. *)
Definition bffFirst (a b : NetworkLogEntry.t) : Z :=
  let aIsBff := isBffBlockApiPattern a in
  let bIsBff := isBffBlockApiPattern b in
  if aIsBff && negb bIsBff then (-1)%Z
  else if negb aIsBff && bIsBff then 1%Z
  else 0%Z.

(** [filterAndPrioritizeLogs(logs)] *)
Definition filterAndPrioritizeLogs (options : Options.t)
    (logs : NetworkLogCollection) : NetworkLogCollection :=
  let filteredLogs := logs in
  let filteredLogs :=
    if Options.prioritizeBffApis options
    then JsArray.sort bffFirst filteredLogs
    else filteredLogs in
  let filteredLogs :=
    if (Options.maxApis options >? 0)%Z
    then JsArray.slice0 (Options.maxApis options) filteredLogs
    else filteredLogs in
  filteredLogs.

(** The [try] block of [processNetworkLogs].  The loop state is
    [(processedData, bffApiCount)]. *)
Definition processNetworkLogs_try (now : Z) (options : Options.t)
    (logs : NetworkLogCollection) : Try DataProcessingResult.t :=
  if (List.length logs =? 0)%nat
  then ret (DataProcessingResult.mk true [] 0 0 0 None)
  else
    let filteredLogs := filterAndPrioritizeLogs options logs in
    st <-
      (if Options.mergeDuplicates options
       then
         let endpointGroups := groupLogsByEndpoint filteredLogs in
         JsArray.forEachTry
           (fun (st : ProcessedApiCollection * nat) mergeInfo =>
              processed <- mergeEndpointLogs now mergeInfo ;;
              ret ((fst st ++ [processed])%list,
                   if EndpointMergeInfo.isBffBlockApi mergeInfo
                   then S (snd st) else snd st))
           (JsMap.values endpointGroups) ([], 0)
       else
         JsArray.forEachTry
           (fun (st : ProcessedApiCollection * nat) log =>
              let processed := processLogEntry log in
              ret ((fst st ++ [processed])%list,
                   if isBffBlockApiPattern log then S (snd st) else snd st))
           filteredLogs ([], 0)) ;;
    let processedData := fst st in
    let bffApiCount := snd st in
    ret (DataProcessingResult.mk true processedData (List.length logs)
           bffApiCount (List.length processedData) None).

(** The [catch] block of [processNetworkLogs]. *)
Definition processNetworkLogs_catch (logs : NetworkLogCollection)
    (error : Thrown) : DataProcessingResult.t :=
  let errorMessage := errorMessage error in
  DataProcessingResult.mk false [] (List.length logs) 0 0 (Some errorMessage).

(** [processNetworkLogs(logs)] *)
Definition processNetworkLogs (now : Z) (options : Options.t)
    (logs : NetworkLogCollection) : DataProcessingResult.t :=
  match processNetworkLogs_try now options logs with
  | inr result => result
  | inl error => processNetworkLogs_catch logs error
  end.

End Platform.

Section Serializer.

Variable messageOf : Store -> Refusal -> string.

(** The properties [serializeForAI] copies, in the order of its object
    literal. *)
Definition copiedKeys : list string :=
  ["method"; "url"; "responseBody"; "queryParams"; "pathParams"].

(** [api.key] for one of the copied keys.  Reading a property of
    [undefined] or [null] is a [TypeError]; a plain object gives its own
    property, or [undefined], since no prototype of the platform has a
    property of one of these names; for the same reason an array, which
    holds elements only, and a primitive value give [undefined]. *)
Definition readProperty (store : Store) (api : JsValue) (key : string)
    : Try JsValue :=
  match api with
  | JsUndefined | JsNull =>
      throw (ThrownError (messageOf store (ReadOfNullish api key)))
  | JsRef a =>
      match nth_error store a with
      | Some (PlainObject properties) => ret (ownValue key properties)
      | _ => ret JsUndefined
      end
  | _ => ret JsUndefined
  end.

(** The object literal [serializeForAI] builds for one [api]: its
    properties in order. *)
Definition copyProperties (store : Store) (api : JsValue)
    : Try (list (string * JsValue)) :=
  mapTry (fun key => value <- readProperty store api key ;; ret (key, value))
    copiedKeys.

(** An object literal of [aiData] as [JSON.stringify] serializes it, an
    element of the array.  The literal and the array are fresh: nothing
    refers to them, so they cannot be met again while they are on the
    stack, and each property value starts from an empty one. *)
Definition serializeLiteral (store : Store)
    (properties : list (string * JsValue)) : Try string :=
  let indent := (Json.gap ++ Json.gap)%string in
  partial <-
    mapTry
      (fun kv =>
         text <- Json.stringify messageOf store indent (snd kv) ;;
         ret (fst kv, text))
      properties ;;
  ret (Json.objectText Json.gap (Json.present partial)).

(** [processedData.map(api => ({ ... }))] followed by
    [JSON.stringify(aiData, null, 2)] *)
Definition stringifyAiData (store : Store) (processedData : list JsValue)
    : Try string :=
  aiData <- mapTry (copyProperties store) processedData ;;
  items <- mapTry (serializeLiteral store) aiData ;;
  ret (Json.arrayText "" items).

(** [serializeForAI(processedData)] *)
Definition serializeForAI (now : Z) (store : Store)
    (processedData : list JsValue) : Try string :=
  match stringifyAiData store processedData with
  | inr text => ret text
  | inl error =>
      throw (ThrownApp
               (createProcessingError now "SERIALIZATION_ERROR"
                  "Failed to serialize processed data for AI consumption"
                  (Some (errorMessage error)) (originalOf error)))
  end.

(** Well-typed data at run time: each [ProcessedApiData] is a plain object
    that owns two fresh records of strings, the three allocated one after
    the other. *)
Definition recordObject (r : Js.Record_) : JsObject :=
  PlainObject (map (fun kv => (fst kv, JsString (snd kv))) r).

Definition apiObject (base : nat) (api : ProcessedApiData.t) : JsObject :=
  PlainObject
    [("method", JsString (ProcessedApiData.method api));
     ("url", JsString (ProcessedApiData.url api));
     ("responseBody", JsString (ProcessedApiData.responseBody api));
     ("queryParams", JsRef (S base));
     ("pathParams", JsRef (S (S base)))].

Fixpoint allocate (base : nat) (processedData : ProcessedApiCollection)
    : Store * list JsValue :=
  match processedData with
  | [] => ([], [])
  | api :: rest =>
      let '(store, apis) := allocate (S (S (S base))) rest in
      (apiObject base api
         :: recordObject (ProcessedApiData.queryParams api)
         :: recordObject (ProcessedApiData.pathParams api) :: store,
       JsRef base :: apis)
  end.

(** [serializeForAI] applied to the output of [processNetworkLogs]. *)
Definition serializeProcessed (now : Z) (processedData : ProcessedApiCollection)
    : Try string :=
  let '(store, apis) := allocate 0 processedData in
  serializeForAI now store apis.

End Serializer.

End DataProcessor.

(** ** A reference URL parser

    [referenceURL] instantiates [newURL] for the examples.  It accepts the
    absolute URLs of the shape
    [http(s)://host/path?query#fragment] in which the URL Standard has
    nothing to normalise: a lower-case host name without encoded labels
    whose last label starts with a letter, no credentials or port, a path
    without dot segments, and only unreserved characters.  On these it returns what the platform's
    [URL] returns.  On everything else it answers [None]; among these are
    the strings without a scheme, which the platform rejects as well. *)

Module ReferenceURL.

(** Cut [s] at the first occurrence of [c]. *)
Fixpoint cut (c : ascii) (s : string) : string * option string :=
  match s with
  | EmptyString => (EmptyString, None)
  | String a s' =>
      if Ascii.eqb a c then (EmptyString, Some s')
      else let '(before, after) := cut c s' in (String a before, after)
  end.

Fixpoint split (fuel : nat) (c : ascii) (s : string) : list string :=
  match fuel with
  | O => [s]
  | S fuel' =>
      match cut c s with
      | (before, None) => [before]
      | (before, Some after) => before :: split fuel' c after
      end
  end.

Fixpoint forallb_string (p : ascii -> bool) (s : string) : bool :=
  match s with
  | EmptyString => true
  | String a s' => p a && forallb_string p s'
  end.

Definition between (lo hi : nat) (c : ascii) : bool :=
  let n := nat_of_ascii c in ((lo <=? n) && (n <=? hi))%nat.

Definition isLower := between 97 122.
Definition isUpper := between 65 90.
Definition isDigit := between 48 57.
Definition isOneOf (chars : string) (c : ascii) : bool :=
  Js.includes (String c EmptyString) chars.

Definition hostChar (c : ascii) : bool := isLower c || isDigit c || isOneOf "-" c.
Definition unreserved (c : ascii) : bool :=
  isLower c || isUpper c || isDigit c || isOneOf "-._~" c.
Definition pathChar (c : ascii) : bool := unreserved c || isOneOf "/" c.
Definition queryChar (c : ascii) : bool := unreserved c || isOneOf "=&" c.

Definition validLabel (label : string) : bool :=
  negb (String.eqb label EmptyString) && forallb_string hostChar label
  && negb (Js.startsWith "xn--" label).

Definition startsWithLetter (label : string) : bool :=
  match label with
  | String c _ => isLower c
  | EmptyString => false
  end.

Definition validHost (host : string) : bool :=
  let labels := split (String.length host) "." host in
  forallb validLabel labels && startsWithLetter (last labels EmptyString).

Definition validPath (path : string) : bool :=
  forallb_string pathChar path && negb (Js.includes "/." path)
  && negb (Js.startsWith "." path).

Definition pair (piece : string) : string * string :=
  match cut "=" piece with
  | (name, Some value) => (name, value)
  | (name, None) => (name, EmptyString)
  end.

Definition parseQuery (query : string) : list (string * string) :=
  map pair
    (filter (fun piece => negb (String.eqb piece EmptyString))
       (split (String.length query) "&" query)).

Fixpoint drop (n : nat) (s : string) : string :=
  match n, s with
  | O, _ => s
  | S n', String _ s' => drop n' s'
  | S _, EmptyString => EmptyString
  end.

Definition afterScheme (s : string) : option string :=
  if Js.startsWith "https://" s then Some (drop 8 s)
  else if Js.startsWith "http://" s then Some (drop 7 s)
  else None.

Definition referenceURL (s : string) : option URL.t :=
  let '(beforeHash, fragment) := cut "#" s in
  let '(beforeQuery, query) := cut "?" beforeHash in
  match afterScheme beforeQuery with
  | None => None
  | Some rest =>
      let '(host, path) := cut "/" rest in
      let path := Js.orEmpty path in
      let query := Js.orEmpty query in
      let fragment := Js.orEmpty fragment in
      if validHost host && validPath path
         && forallb_string queryChar query
         && forallb_string unreserved fragment
      then Some (URL.mk host (String "/" path) (parseQuery query)
                   (if String.eqb fragment EmptyString then EmptyString
                    else String "#" fragment))
      else None
  end.

End ReferenceURL.

(** ** The messages of a reference engine

    [v8Message] instantiates [messageOf] for the examples, with the
    messages of V8, the engine of Node.js. *)

Module ReferenceEngine.

Definition constructorName (store : Store) (a : nat) : string :=
  match nth_error store a with
  | Some (ArrayObject _) => "Array"
  | _ => "Object"
  end.

Definition isRefTo (child : nat) (value : JsValue) : bool :=
  match value with
  | JsRef b => Nat.eqb b child
  | _ => false
  end.

Definition propertyName (key : string) : string :=
  if String.eqb key "" then "<anonymous>" else "property '" ++ key ++ "'".

(** The first property, or the first element, that refers to [child]. *)
Fixpoint propertyTo (child : nat) (properties : list (string * JsValue))
    : string :=
  match properties with
  | [] => ""
  | (key, value) :: rest =>
      if isRefTo child value then propertyName key else propertyTo child rest
  end.

Fixpoint indexTo (child : nat) (i : nat) (elements : list JsValue) : string :=
  match elements with
  | [] => ""
  | value :: rest =>
      if isRefTo child value then "index " ++ Js.ofNumber (Z.of_nat i)
      else indexTo child (S i) rest
  end.

Definition keyTo (store : Store) (parent child : nat) : string :=
  match nth_error store parent with
  | Some (PlainObject properties) => propertyTo child properties
  | Some (ArrayObject elements) => indexTo child 0 elements
  | None => ""
  end.

(** The objects of the stack from the innermost one to [a]. *)
Fixpoint downTo (a : nat) (stack : list nat) : list nat :=
  match stack with
  | [] => []
  | b :: rest => if Nat.eqb b a then [b] else b :: downTo a rest
  end.

(** One line for each object of the circle after the first. *)
Fixpoint normalLines (store : Store) (previous : nat) (circle : list nat)
    : list string :=
  match circle with
  | [] => []
  | b :: rest =>
      (Json.newline ++ "    |     " ++ keyTo store previous b
       ++ " -> object with constructor '" ++ constructorName store b ++ "'")
      :: normalLines store b rest
  end.

(** At most the first two lines and the last one are kept. *)
Definition abridge (lines : list string) : list string :=
  if (List.length lines <=? 3)%nat then lines
  else (firstn 2 lines
        ++ (Json.newline ++ "    |     ...")%string
        :: skipn (List.length lines - 1) lines)%list.

Definition circularMessage (store : Store) (stack : list nat) (a : nat)
    : string :=
  let circle := rev (downTo a stack) in
  "Converting circular structure to JSON"
  ++ Json.newline ++ "    --> starting at object with constructor '"
  ++ constructorName store a ++ "'"
  ++ String.concat "" (abridge (normalLines store a (tl circle)))
  ++ Json.newline ++ "    --- " ++ keyTo store (hd a stack) a
  ++ " closes the circle".

Definition v8Message (store : Store) (refusal : Refusal) : string :=
  match refusal with
  | ReadOfNullish value key =>
      "Cannot read properties of "
      ++ match value with JsNull => "null" | _ => "undefined" end
      ++ " (reading '" ++ key ++ "')"
  | CircularStructure stack a => circularMessage store stack a
  | BigIntValue _ => "Do not know how to serialize a BigInt"
  | NestingTooDeep => "Maximum call stack size exceeded"
  end.

End ReferenceEngine.

(** ** Vocabulary of the specification *)

Section Vocabulary.

Variable newURL : string -> option URL.t.

(** The exchanges of [logs] whose endpoint identity is [key], in order. *)
Definition membersOf (key : string) (logs : NetworkLogCollection)
    : list NetworkLogEntry.t :=
  filter (fun log => String.eqb (DataProcessor.createEndpointKey newURL log) key)
    logs.

(** The group of [key]: its members, and the disjunction of their
    classifications. *)
Definition groupOf (logs : NetworkLogCollection) (key : string)
    : EndpointMergeInfo.t :=
  EndpointMergeInfo.mk key (membersOf key logs)
    (existsb (DataProcessor.isBffBlockApiPattern newURL) (membersOf key logs)).

(** The distinct elements of [keys], each at its first occurrence. *)
Definition firstSeen (keys : list string) : list string :=
  fold_left
    (fun seen key =>
       if existsb (String.eqb key) seen then seen else (seen ++ [key])%list)
    keys [].

(** The endpoint identities of [logs] in first-seen order. *)
Definition identities (logs : NetworkLogCollection) : list string :=
  firstSeen (map (DataProcessor.createEndpointKey newURL) logs).

(** The stable partition: the block-API exchanges, then the others. *)
Definition blockFirst (logs : NetworkLogCollection) : NetworkLogCollection :=
  (filter (DataProcessor.isBffBlockApiPattern newURL) logs
   ++ filter (fun log => negb (DataProcessor.isBffBlockApiPattern newURL log))
        logs)%list.

(** [r] is the first exchange of [logs] whose response body has the
    greatest length: every exchange before it has a strictly shorter body,
    none after it has a longer one. *)
Definition IsRepresentative (logs : list NetworkLogEntry.t)
    (r : NetworkLogEntry.t) : Prop :=
  exists earlier later,
    logs = (earlier ++ r :: later)%list
    /\ (forall x, In x earlier ->
          String.length (DataProcessor.responseBody x)
          < String.length (DataProcessor.responseBody r))
    /\ (forall x, In x later ->
          String.length (DataProcessor.responseBody x)
          <= String.length (DataProcessor.responseBody r)).

(** The responses the listener accepts during the capture window, in the
    order their log entries are appended: those that pass the filter on
    arrival and whose body settles before the user presses Enter.
    [waiting] holds the accepted responses whose body is still awaited. *)
Fixpoint acceptedResponses (allowedHosts : list string)
    (waiting : list Response.t) (events : list SurfaceEvent)
    : list Response.t :=
  match events with
  | [] => []
  | ResponseArrives r :: events' =>
      if BrowserController.shouldCaptureResponse newURL allowedHosts r
      then acceptedResponses allowedHosts (waiting ++ [r])%list events'
      else acceptedResponses allowedHosts waiting events'
  | BodyResolves k :: events' =>
      match nth_error waiting k with
      | Some r =>
          r :: acceptedResponses allowedHosts
                 (BrowserController.removeNth k waiting) events'
      | None => acceptedResponses allowedHosts waiting events'
      end
  end.

(** The log entry [entry] records the response [r]. *)
Definition IsEntryOf (r : Response.t) (entry : NetworkLogEntry.t) : Prop :=
  NetworkRequest.url (NetworkLogEntry.request entry) = Response.url r
  /\ NetworkRequest.method (NetworkLogEntry.request entry)
     = Request.method (Response.request r)
  /\ NetworkResponse.body (NetworkLogEntry.response entry)
     = match Response.text r with
       | inr body => body
       | inl _ => EmptyString
       end
  /\ NetworkLogEntry.isBffBlockApi entry
     = BrowserController.isBffBlockApiPattern newURL (Response.url r).

(** The browser starts and reaches the page: every call of
    [initializeBrowser] and [navigateToUrl] returns. *)
Definition Starts (surface : Surface.t) (url : string) : Prop :=
  Surface.launch surface = inr tt
  /\ Surface.newContext surface = inr tt
  /\ Surface.newPage surface = inr tt
  /\ newURL url <> None
  /\ Surface.goto surface = inr tt.

End Vocabulary.

(** ** Vocabulary of the serializer *)

(** The values an object holds: of its properties, or its elements. *)
Definition valuesOf (object : JsObject) : list JsValue :=
  match object with
  | PlainObject properties => map snd properties
  | ArrayObject elements => elements
  end.

(** The object at [a] holds [value] in a property or as an element. *)
Definition Holds (store : Store) (a : nat) (value : JsValue) : Prop :=
  exists object, nth_error store a = Some object /\ In value (valuesOf object).

(** [inner] is [value] itself or is found inside it, along properties and
    elements. *)
Inductive Contains (store : Store) : JsValue -> JsValue -> Prop :=
| contains_itself (value : JsValue) : Contains store value value
| contains_inside (a : nat) (value inner : JsValue) :
    Holds store a value -> Contains store value inner ->
    Contains store (JsRef a) inner.

(** The object at [a] lies on a cycle of references. *)
Definition OnCycle (store : Store) (a : nat) : Prop :=
  exists value, Holds store a value /\ Contains store value (JsRef a).

(** The value is, or contains, a cyclic structure. *)
Definition Cyclic (store : Store) (value : JsValue) : Prop :=
  exists a, Contains store value (JsRef a) /\ OnCycle store a.

(** The value is, or contains, a BigInt. *)
Definition HasBigInt (store : Store) (value : JsValue) : Prop :=
  exists n, Contains store value (JsBigInt n).

(** The value has no JSON form. *)
Definition Unserializable (store : Store) (value : JsValue) : Prop :=
  Cyclic store value \/ HasBigInt store value.

(** An endpoint is an object. *)
Definition IsObject (value : JsValue) : Prop := exists a, value = JsRef a.

(** [value] is what one of the properties the serializer copies holds. *)
Definition CopiedProperty (store : Store) (api value : JsValue) : Prop :=
  exists a properties key,
    api = JsRef a
    /\ nth_error store a = Some (PlainObject properties)
    /\ In key DataProcessor.copiedKeys
    /\ ownValue key properties = value.

(** The serialization fails below [value]: it meets a BigInt, or an object
    that is already being serialized.  [stack] lists the objects entered
    and not yet left. *)
Inductive Refused (store : Store) : list nat -> JsValue -> Prop :=
| refused_bigint (stack : list nat) (n : Z) :
    Refused store stack (JsBigInt n)
| refused_again (stack : list nat) (a : nat) :
    In a stack -> Refused store stack (JsRef a)
| refused_below (stack : list nat) (a : nat) (value : JsValue) :
    ~ In a stack ->
    Holds store a value ->
    Refused store (a :: stack) value ->
    Refused store stack (JsRef a).

(** What the encoder refuses: a cycle or a BigInt. *)
Definition EncoderRefusal (refusal : Refusal) : Prop :=
  (exists stack a, refusal = CircularStructure stack a)
  \/ exists n, refusal = BigIntValue n.

(** [t] is the error the engine throws when the encoder refuses. *)
Definition EncoderError (messageOf : Store -> Refusal -> string)
    (store : Store) (t : Thrown) : Prop :=
  exists refusal,
    t = ThrownError (messageOf store refusal) /\ EncoderRefusal refusal.

(** The members of the text of one endpoint: for each copied key whose
    value has a JSON text, in the order [method], [url], [responseBody],
    [queryParams], [pathParams], the key and that text. *)
Definition Serializes (messageOf : Store -> Refusal -> string)
    (store : Store) (api : JsValue) (members : list (string * string))
    : Prop :=
  exists texts : list (option string),
    Forall2
      (fun key text =>
         exists value,
           DataProcessor.readProperty messageOf store api key = inr value
           /\ Json.stringify messageOf store (Json.gap ++ Json.gap) value
              = inr text)
      DataProcessor.copiedKeys texts
    /\ members = Json.present (combine DataProcessor.copiedKeys texts).

(** The text of one endpoint inside the array. *)
Definition endpointText (members : list (string * string)) : string :=
  Json.objectText Json.gap members.

(** The JSON text of a record of strings at indentation [stepback]. *)
Definition recordText (stepback : string) (r : Js.Record_) : string :=
  Json.objectText stepback
    (map (fun kv => (fst kv, Json.quoteJSONString (snd kv))) r).

(** The members of a well-typed endpoint. *)
Definition typedMembers (api : ProcessedApiData.t) : list (string * string) :=
  let indent := (Json.gap ++ Json.gap)%string in
  [("method", Json.quoteJSONString (ProcessedApiData.method api));
   ("url", Json.quoteJSONString (ProcessedApiData.url api));
   ("responseBody", Json.quoteJSONString (ProcessedApiData.responseBody api));
   ("queryParams", recordText indent (ProcessedApiData.queryParams api));
   ("pathParams", recordText indent (ProcessedApiData.pathParams api))].

(** Every suspended listener holds the request it built from its own
    response. *)
Definition PendingOK (s : BrowserController.State) : Prop :=
  Forall (fun pr =>
            NetworkRequest.url (snd pr) = Response.url (fst pr)
            /\ NetworkRequest.method (snd pr)
               = Request.method (Response.request (fst pr)))
    (BrowserController.pending s).

(** The run-time image of well-typed data: an object with strings where
    strings are declared, and for each record a store object holding its
    strings. *)
Definition Represents (store : Store) (api : ProcessedApiData.t)
    (runtime : JsValue) : Prop :=
  exists base,
    runtime = JsRef base
    /\ nth_error store base = Some (DataProcessor.apiObject base api)
    /\ nth_error store (S base)
       = Some (DataProcessor.recordObject (ProcessedApiData.queryParams api))
    /\ nth_error store (S (S base))
       = Some (DataProcessor.recordObject (ProcessedApiData.pathParams api)).

(** ** Fixtures for the examples *)

Module Fixtures.

Definition newURL := ReferenceURL.referenceURL.

(** An exchange as the capture session records it. *)
Definition exchange (method url body : string) : NetworkLogEntry.t :=
  NetworkLogEntry.mk "log_1_0"
    (NetworkRequest.mk method url [] None 0)
    (NetworkResponse.mk 200 "OK" [("content-type", "application/json")]
       body "application/json" 0)
    "fetch"
    (BrowserController.isBffBlockApiPattern newURL url).

Definition banner : NetworkLogEntry.t :=
  exchange "GET" "https://api.example.com/v1/blocks?keys=home.banner" "[1]".

Definition hero : NetworkLogEntry.t :=
  exchange "GET" "https://api.example.com/v1/blocks?keys=home.hero" "[1,2]".

(** A request to the same path without the [keys] parameter. *)
Definition listing : NetworkLogEntry.t :=
  exchange "GET" "https://api.example.com/v1/blocks" "[1,2,3]".

Definition users : NetworkLogEntry.t :=
  exchange "GET" "https://api.example.com/v1/users" "[7]".

(** A recorded URL the platform cannot parse. *)
Definition broken : NetworkLogEntry.t :=
  exchange "GET" "not a url" "[]".

Definition defaults : Options.t :=
  DataProcessor.constructor (DataProcessingOptions.mk None None None None).

(** A captured list, and the group of its block requests. *)
Definition traffic : NetworkLogCollection := [banner; users; hero; listing].

Definition blocksGroup : EndpointMergeInfo.t :=
  EndpointMergeInfo.mk "GET api.example.com/v1/blocks"
    [banner; hero; listing] true.

(** A JSON response fetched from the allowed host; reading its body
    fails. *)
Definition unreadable : Response.t :=
  Response.mk "https://api.example.com/v1/users"
    [("content-type", "application/json")] 200 "OK"
    (inl (ThrownError "No resource with given identifier found"))
    (Request.mk "GET" [] None "fetch").

Definition readable : Response.t :=
  Response.mk "https://api.example.com/v1/blocks?keys=home.banner"
    [("content-type", "application/json; charset=utf-8")] 200 "OK"
    (inr "[1]")
    (Request.mk "get" [] None "xhr").

(** A session in which the browser starts, the page loads, and the page
    emits [events] before the user presses Enter. *)
Definition session (events : list SurfaceEvent) : Surface.t :=
  Surface.mk (inr tt) (inr tt) (inr tt) (inr tt) [] events
    (inr tt) (inr tt) (inr tt) (fun n => 1000 + Z.of_nat n)%Z.

(** A session in which the page cannot be reached. *)
Definition unreachable : Surface.t :=
  Surface.mk (inr tt) (inr tt) (inr tt)
    (inl (ThrownError "net::ERR_NAME_NOT_RESOLVED")) [] []
    (inr tt) (inr tt) (inr tt) (fun n => 1000 + Z.of_nat n)%Z.

Definition messageOf := ReferenceEngine.v8Message.

(** An endpoint whose [queryParams] refers to itself. *)
Definition selfReferential : Store :=
  [PlainObject
     [("method", JsString "GET");
      ("url", JsString "https://api.example.com/v1/users");
      ("responseBody", JsString "[7]");
      ("queryParams", JsRef 1);
      ("pathParams", JsRef 2)];
   PlainObject [("self", JsRef 1)];
   PlainObject []].

(** An endpoint whose [queryParams] holds a BigInt, and no cycle. *)
Definition withBigInt : Store :=
  [PlainObject
     [("method", JsString "GET");
      ("url", JsString "https://api.example.com/v1/users");
      ("responseBody", JsString "[7]");
      ("queryParams", JsRef 1);
      ("pathParams", JsRef 2)];
   PlainObject [("page", JsBigInt 2)];
   PlainObject []].

(** The endpoint of the repository's test of the serializer: it has a
    method and a URL, and refers to itself through a property of its
    own. *)
Definition circularData : Store :=
  [PlainObject
     [("method", JsString "GET"); ("url", JsString "test");
      ("self", JsRef 0)]].

End Fixtures.

(** ** Further functions of the modules

    The functions below are the rest of [browserController.ts] and of
    [aiGenerator.ts] that can be read without the page or the model, then
    the retry loop of [AiGenerator], the environment overrides, the file
    loader and the display function of [config/index.ts], and the text
    helpers and statistics of [documentGenerator.ts]. *)

(** [Set<string>]: the elements in insertion order. *)
Module JsSet.

Definition t := list string.

(** [s.add(x)] *)
Definition add (x : string) (s : t) : t :=
  if existsb (String.eqb x) s then s else (s ++ [x])%list.

(** The set a [forEach] loop fills from an array. *)
Definition ofList (xs : list string) : t :=
  fold_left (fun s x => add x s) xs [].

(** The comparator of [xs.sort()] without an argument, on strings: the
    order of the code units. *)
Definition compareCodeUnits (a b : string) : Z :=
  match String.compare a b with
  | Lt => (-1)%Z
  | Eq => 0%Z
  | Gt => 1%Z
  end.

(** [Array.from(s).sort()] *)
Definition toSortedArray (s : t) : list string :=
  JsArray.sort compareCodeUnits s.

End JsSet.

(** An object literal used as a dictionary, [Record<string, V>] with [V] an
    array type: the own properties in enumeration order.  A read [d[k]]
    also sees what the object inherits from [Object.prototype]. *)
Module JsDict.

Definition t (V : Type) := list (string * V).

(** The property names of [Object.prototype]. *)
Definition objectPrototype : list string :=
  ["constructor"; "__defineGetter__"; "__defineSetter__"; "hasOwnProperty";
   "__lookupGetter__"; "__lookupSetter__"; "isPrototypeOf";
   "propertyIsEnumerable"; "toString"; "valueOf"; "__proto__";
   "toLocaleString"].

Inductive Read (V : Type) :=
| Own (v : V)       (** an own property *)
| Inherited         (** a function, or the prototype object: truthy, and
                        without a method [push] *)
| Undefined.
Arguments Inherited {V}.
Arguments Undefined {V}.

Fixpoint lookupOwn {V} (k : string) (d : t V) : option V :=
  match d with
  | [] => None
  | (k', v) :: d' => if String.eqb k k' then Some v else lookupOwn k d'
  end.

(** [d[k]] *)
Definition read {V} (k : string) (d : t V) : Read V :=
  match lookupOwn k d with
  | Some v => Own v
  | None =>
      if existsb (String.eqb k) objectPrototype then Inherited else Undefined
  end.

Fixpoint overwrite {V} (k : string) (v : V) (d : t V) : t V :=
  match d with
  | [] => []
  | (k', v') :: d' =>
      if String.eqb k k' then (k', v) :: d' else (k', v') :: overwrite k v d'
  end.

Fixpoint insertIndex {V} (i : N) (k : string) (v : V) (d : t V) : t V :=
  match d with
  | [] => [(k, v)]
  | (k', v') :: d' =>
      match Js.arrayIndex k' with
      | Some j => if (i <? j)%N then (k, v) :: d
                  else (k', v') :: insertIndex i k v d'
      | None => (k, v) :: d
      end
  end.

(** [d[k] = v] for a name [k] that reads as [undefined]: a new own
    property, placed where the engine enumerates it. *)
Definition define {V} (k : string) (v : V) (d : t V) : t V :=
  match Js.arrayIndex k with
  | Some i => insertIndex i k v d
  | None => (d ++ [(k, v)])%list
  end.

(** [if (!d[k]) { d[k] = []; }  d[k].push(x);] *)
Definition pushTo {V} (k : string) (x : V) (d : t (list V))
    : Try (t (list V)) :=
  match read k d with
  | Own items => ret (overwrite k (items ++ [x])%list d)
  | Undefined => ret (define k [x] d)
  | Inherited => throw (ThrownError "groups[key].push is not a function")
  end.

End JsDict.

(** The rest of the [DataProcessor] class and the utility functions of
    [aiGenerator.ts]. *)
Module ProcessorUtilities.
Section Platform.

Variable newURL : string -> option URL.t.

(** [DataProcessor.filterBffBlockApis(logs)] *)
Definition filterBffBlockApis (logs : NetworkLogCollection)
    : NetworkLogCollection :=
  filter (DataProcessor.isBffBlockApiPattern newURL) logs.

(** The string one endpoint adds to the set in [extractUniqueEndpoints]. *)
Definition endpointOf (api : ProcessedApiData.t) : string :=
  match
    urlObj <- tryURL newURL (ProcessedApiData.url api) ;;
    ret (ProcessedApiData.method api ++ " " ++ URL.pathname urlObj)
  with
  | inr endpoint => endpoint
  | inl _ => ProcessedApiData.method api ++ " " ++ ProcessedApiData.url api
  end.

(** [extractUniqueEndpoints(processedData)] *)
Definition extractUniqueEndpoints (processedData : ProcessedApiCollection)
    : list string :=
  JsSet.toSortedArray (JsSet.ofList (map endpointOf processedData)).

End Platform.

(** [groupByMethod(processedData)] *)
Definition groupByMethod (processedData : ProcessedApiCollection)
    : Try (JsDict.t ProcessedApiCollection) :=
  JsArray.forEachTry
    (fun groups api =>
       let method := Js.toUpperCase (ProcessedApiData.method api) in
       JsDict.pushTo method api groups)
    processedData [].

End ProcessorUtilities.

(** [getStatus()] and the utility functions of [browserController.ts]. *)
Module ControllerStatus.
Record t := mk {
  isCapturing : bool;
  capturedCount : nat;
  browserInitialized : bool
}.
End ControllerStatus.

Module BrowserUtilities.

(** [getStatus()] *)
Definition getStatus (s : BrowserController.State) : ControllerStatus.t :=
  ControllerStatus.mk
    (BrowserController.isCapturing s)
    (List.length (BrowserController.capturedLogs s))
    (BrowserController.browser s).

(** [extractUniqueUrls(logs)] *)
Definition extractUniqueUrls (logs : NetworkLogCollection) : list string :=
  JsSet.toSortedArray
    (JsSet.ofList
       (map (fun log => NetworkRequest.url (NetworkLogEntry.request log)) logs)).

(** [filterBffBlockApis(logs)] *)
Definition filterBffBlockApis (logs : NetworkLogCollection)
    : NetworkLogCollection :=
  filter NetworkLogEntry.isBffBlockApi logs.

Section Platform.

Variable newURL : string -> option URL.t.

(** The body of the loop of [groupLogsByHostname], with its [try]/[catch]:
    an exception leaves [groups] as it was. *)
Definition addToHostname (groups : JsDict.t NetworkLogCollection)
    (log : NetworkLogEntry.t) : JsDict.t NetworkLogCollection :=
  match
    url <- tryURL newURL (NetworkRequest.url (NetworkLogEntry.request log)) ;;
    let hostname := URL.hostname url in
    JsDict.pushTo hostname log groups
  with
  | inr groups' => groups'
  | inl _ => groups
  end.

(** [groupLogsByHostname(logs)] *)
Definition groupLogsByHostname (logs : NetworkLogCollection)
    : JsDict.t NetworkLogCollection :=
  fold_left addToHostname logs [].

End Platform.
End BrowserUtilities.

(** ** More text operations of the platform *)

Module JsText.

(** White space and line terminators among the code units below 256. *)
Definition isWhiteSpace (c : ascii) : bool :=
  let n := nat_of_ascii c in
  ((9 <=? n) && (n <=? 13) || (n =? 32) || (n =? 160))%nat.

Fixpoint trimStart (s : string) : string :=
  match s with
  | EmptyString => EmptyString
  | String c s' => if isWhiteSpace c then trimStart s' else s
  end.

Fixpoint trimEnd (s : string) : string :=
  match s with
  | EmptyString => EmptyString
  | String c s' =>
      match trimEnd s' with
      | EmptyString => if isWhiteSpace c then EmptyString
                       else String c EmptyString
      | rest => String c rest
      end
  end.

(** [s.trim()] *)
Definition trim (s : string) : string := trimEnd (trimStart s).

(** [s.split(c)] for a separator of one character. *)
Fixpoint split (c : ascii) (s : string) : list string :=
  match s with
  | EmptyString => [EmptyString]
  | String a s' =>
      if Ascii.eqb a c then EmptyString :: split c s'
      else match split c s' with
           | piece :: rest => String a piece :: rest
           | [] => [String a EmptyString]
           end
  end.

(** [s.replace(/c/g, r)] for a pattern that is one literal character and a
    replacement without [$]. *)
Fixpoint replaceAll (c : ascii) (r : string) (s : string) : string :=
  match s with
  | EmptyString => EmptyString
  | String a s' =>
      if Ascii.eqb a c then r ++ replaceAll c r s'
      else String a (replaceAll c r s')
  end.

End JsText.

(** ** The retry loop of [AiGenerator] ([aiGenerator.ts]) *)

(** A [number] of the platform, a double: not a number, an infinity, or
    the finite number [mantissa * 2 ^ exponent].  The options of the
    generator are numbers nothing validates. *)
Module JsNumber.

Inductive t :=
| Finite (mantissa exponent : Z)
| NaN
| PosInfinity
| NegInfinity.

(** The double of an integer. *)
Definition ofInt (n : Z) : t := Finite n 0.

(** [n < x] for an integer [n]. *)
Definition intLt (n : Z) (x : t) : bool :=
  match x with
  | Finite mantissa exponent =>
      if (0 <=? exponent)%Z
      then (n <? mantissa * 2 ^ exponent)%Z
      else (n * 2 ^ (- exponent) <? mantissa)%Z
  | NaN => false
  | PosInfinity => true
  | NegInfinity => false
  end.

(** [n + 1] for an integer [n] from 0 to [2 ^ 53].  These integers are
    doubles and so are their successors, but for [2 ^ 53 + 1], which
    rounds back to [2 ^ 53]. *)
Definition succ (n : Z) : Z :=
  if (n <? 2 ^ 53)%Z then (n + 1)%Z else n.

End JsNumber.

Module AiGenerationOptions.
Record t := mk {
  maxRetries : JsNumber.t;
  retryDelay : JsNumber.t;
  timeout : JsNumber.t;
  strictValidation : bool
}.
End AiGenerationOptions.

Module AiGenerator.

Definition createAiError (now : Z) (code message : string)
    (details originalError : option string) : AppError.t :=
  AppError.mk AI_API code message details originalError now.

Section Platform.

(** [options]: [this.options]; [initialized]: [this.genAI] is not [null],
    which the constructor arranges when the configured API key is not
    empty. *)
Variable options : AiGenerationOptions.t.
Variable initialized : bool.

(** [generate retryCount]: what the attempt numbered [retryCount] obtains
    from the model, the text of the response or the exception of
    [getGenerativeModel], [generateContent] or [response.text()]. *)
Variable generate : Z -> Try string.

(** [clock n]: what the [n]-th call of [Date.now()] returns. *)
Variable clock : nat -> Z.

(** [plusOneText x]: the text of [`${x + 1}`], the platform's sum of two
    doubles in the platform's wording of a number. *)
Variable plusOneText : JsNumber.t -> string.

(** The [try] block of [callGeminiApi]; [ticks] counts the readings of the
    clock. *)
Definition callGeminiApi_try (retryCount : Z) (ticks : nat)
    : Try string * nat :=
  match generate retryCount with
  | inl error => (inl error, ticks)
  | inr text =>
      if String.eqb text ""
         || (String.length (JsText.trim text) =? 0)%nat
      then (throw (ThrownApp
                     (createAiError (clock ticks) "EMPTY_AI_RESPONSE"
                        "Gemini API returned empty response"
                        (Some "The AI model did not generate any content")
                        None)),
            S ticks)
      else (ret text, ticks)
  end.

(** [callGeminiApi(prompt, retryCount)], for a [retryCount] from 0 to
    [2 ^ 53].  The recursion of the source is on [retryCount]; [fuel]
    bounds the number of attempts, and [None] is the answer of a run that
    needs more. *)
Fixpoint callGeminiApi (fuel : nat) (retryCount : Z) (ticks : nat)
    : option (Try string * nat) :=
  match fuel with
  | O => None
  | S fuel' =>
      if negb initialized
      then Some (throw (ThrownApp
                          (createAiError (clock ticks) "GEMINI_NOT_INITIALIZED"
                             "Gemini AI is not initialized"
                             (Some "Please check that a valid API key is provided in the configuration")
                             None)),
                 S ticks)
      else
        match callGeminiApi_try retryCount ticks with
        | (inr text, ticks') => Some (ret text, ticks')
        | (inl error, ticks') =>
            let errorMessage := errorMessage error in
            if JsNumber.intLt retryCount (AiGenerationOptions.maxRetries options)
            then callGeminiApi fuel' (JsNumber.succ retryCount) ticks'
            else
              Some (throw (ThrownApp
                             (createAiError (clock ticks') "GEMINI_API_ERROR"
                                ("Gemini API call failed after "
                                 ++ plusOneText
                                      (AiGenerationOptions.maxRetries options)
                                 ++ " attempts")
                                (Some errorMessage) (originalOf error))),
                    S ticks')
        end
  end.

End Platform.
End AiGenerator.

(** ** Configuration ([config/index.ts]) *)

Module AiConfig.
Record t := mk {
  api_key : string;
  model_name : string;
  prompt_template_path : string
}.
End AiConfig.

Module OutputConfig.
Record t := mk { default_filename : string }.
End OutputConfig.

Module FilterConfig.
Record t := mk { allowed_hosts : list string }.
End FilterConfig.

Module AppConfig.
Record t := mk {
  ai : AiConfig.t;
  output : OutputConfig.t;
  filter : FilterConfig.t
}.
End AppConfig.

Module Config.

Definition createConfigError (now : Z) (code message : string)
    (details originalError : option string) : AppError.t :=
  AppError.mk CONFIG code message details originalError now.

(** [error instanceof Error && 'category' in error]: an [AppError] is an
    object literal, not an [Error]; an [Error] of the platform has no
    property [category]. *)
Definition isErrorWithCategory (error : Thrown) : bool :=
  match error with
  | ThrownError _ => false
  | ThrownApp _ => false
  end.

Section FileSystem.

(** What the file system and the YAML parser answer.  A parsed document is
    [Some] of an object or array, or [None] for [null] and for a scalar,
    which [!parsedConfig || typeof parsedConfig !== 'object'] rejects. *)
Variable Document : Type.
Variable existsSync : string -> bool.
Variable readFileSync : string -> Try string.
Variable yamlParse : string -> Try (option Document).

(** [clock n]: what the [n]-th call of [Date.now()] returns. *)
Variable clock : nat -> Z.

(** The [try] block of [loadYamlFile], with the number of readings of the
    clock it made. *)
Definition loadYamlFile_try (filePath : string) : Try Document * nat :=
  if negb (existsSync filePath)
  then (throw (ThrownApp
                 (createConfigError (clock 0) "FILE_NOT_FOUND"
                    ("Configuration file not found: " ++ filePath)
                    (Some "Please ensure the config.yaml file exists at the specified path.")
                    None)), 1)
  else
    match readFileSync filePath with
    | inl error => (inl error, 0)
    | inr fileContent =>
        if String.eqb (JsText.trim fileContent) ""
        then (throw (ThrownApp
                       (createConfigError (clock 0) "EMPTY_FILE"
                          ("Configuration file is empty: " ++ filePath)
                          (Some "The configuration file exists but contains no content.")
                          None)), 1)
        else
          match yamlParse fileContent with
          | inl error => (inl error, 0)
          | inr None =>
              (throw (ThrownApp
                        (createConfigError (clock 0) "INVALID_YAML"
                           ("Invalid YAML content in configuration file: "
                            ++ filePath)
                           (Some "The YAML file could not be parsed into a valid object structure.")
                           None)), 1)
          | inr (Some parsedConfig) => (ret parsedConfig, 0)
          end
    end.

(** [loadYamlFile(filePath)] *)
Definition loadYamlFile (filePath : string) : Try Document :=
  match loadYamlFile_try filePath with
  | (inr parsedConfig, _) => ret parsedConfig
  | (inl error, ticks) =>
      if isErrorWithCategory error then throw error
      else
        throw (ThrownApp
                 (createConfigError (clock ticks) "YAML_PARSE_ERROR"
                    ("Failed to parse YAML configuration file: " ++ filePath)
                    (Some (errorMessage error)) (originalOf error)))
  end.

End FileSystem.

(** [processEnvironmentVariables(config)], with the two variables of the
    environment it reads: [None] is an unset variable. *)
Definition processEnvironmentVariables
    (AI_API_KEY MOCKGEN_ALLOWED_HOSTS : option string) (config : AppConfig.t)
    : AppConfig.t :=
  let processedConfig := config in
  let processedConfig :=
    match AI_API_KEY with
    | Some envApiKey =>
        if negb (String.eqb envApiKey "")
           && negb (String.eqb (JsText.trim envApiKey) "")
        then AppConfig.mk
               (AiConfig.mk (JsText.trim envApiKey)
                  (AiConfig.model_name (AppConfig.ai processedConfig))
                  (AiConfig.prompt_template_path (AppConfig.ai processedConfig)))
               (AppConfig.output processedConfig)
               (AppConfig.filter processedConfig)
        else processedConfig
    | None => processedConfig
    end in
  match MOCKGEN_ALLOWED_HOSTS with
  | Some envAllowedHosts =>
      if negb (String.eqb envAllowedHosts "")
         && negb (String.eqb (JsText.trim envAllowedHosts) "")
      then
        let hosts :=
          filter (fun host => (0 <? String.length host)%nat)
            (map JsText.trim (JsText.split "," envAllowedHosts)) in
        if (0 <? List.length hosts)%nat
        then AppConfig.mk (AppConfig.ai processedConfig)
               (AppConfig.output processedConfig)
               (FilterConfig.mk hosts)
        else processedConfig
      else processedConfig
  | None => processedConfig
  end.

End Config.

(** ** Text helpers of [documentGenerator.ts] *)

Module DocumentGenerator.

Definition quote : ascii := ascii_of_nat 34.
Definition apostrophe : ascii := ascii_of_nat 39.

(** [escapeHtml(text)] *)
Definition escapeHtml (text : string) : string :=
  JsText.replaceAll apostrophe "&#39;"
    (JsText.replaceAll quote "&quot;"
       (JsText.replaceAll ">" "&gt;"
          (JsText.replaceAll "<" "&lt;"
             (JsText.replaceAll "&" "&amp;" text)))).

Section Platform.

Variable newURL : string -> option URL.t.

(** [isBffBlockApi(api)] *)
Definition isBffBlockApi (api : ProcessedApiData.t) : bool :=
  match
    url <- tryURL newURL (ProcessedApiData.url api) ;;
    let pathname := URL.pathname url in
    ret (Js.includes "/blocks" pathname && URL.has "keys" url)
  with
  | inr b => b
  | inl _ => false
  end.

End Platform.
End DocumentGenerator.

(** *** Statistics of a document *)

Module DocumentStats.
Record t := mk {
  totalEndpoints : nat;
  bffApiCount : nat;
  regularApiCount : nat;
  uniqueHosts : list string;
  httpMethods : list string;
  documentSize : nat
}.
End DocumentStats.

Module DocumentStatistics.

(** The longest prefix without a slash: what [[^\/]+] takes, when it is
    not empty. *)
Fixpoint untilSlash (s : string) : string :=
  match s with
  | EmptyString => EmptyString
  | String c s' => if Ascii.eqb c "/" then EmptyString
                   else String c (untilSlash s')
  end.

(** [/https?:\/\/([^\/]+)/] tried at the start of [s]: the first group
    of a match. *)
Definition matchHere (s : string) : option string :=
  let host :=
    if Js.startsWith "https://" s then untilSlash (ReferenceURL.drop 8 s)
    else if Js.startsWith "http://" s then untilSlash (ReferenceURL.drop 7 s)
    else EmptyString in
  if String.eqb host EmptyString then None else Some host.

(** [url.match(/https?:\/\/([^\/]+)/)]: the first group of the leftmost
    match. *)
Fixpoint matchHost (s : string) : option string :=
  match matchHere s with
  | Some host => Some host
  | None =>
      match s with
      | EmptyString => None
      | String _ s' => matchHost s'
      end
  end.

Section Platform.

Variable newURL : string -> option URL.t.

(** [extractHostFromUrl(url)] *)
Definition extractHostFromUrl (url : string) : string :=
  match tryURL newURL url with
  | inr urlObj => URL.hostname urlObj
  | inl _ =>
      match matchHost url with
      | Some host => host
      | None => "unknown"
      end
  end.

(** [generateStats(processedData, content)] *)
Definition generateStats (processedData : ProcessedApiCollection)
    (content : string) : DocumentStats.t :=
  let bffApis := filter (DocumentGenerator.isBffBlockApi newURL) processedData in
  let uniqueHosts :=
    JsSet.ofList
      (map (fun api => extractHostFromUrl (ProcessedApiData.url api))
         processedData) in
  let httpMethods := JsSet.ofList (map ProcessedApiData.method processedData) in
  DocumentStats.mk
    (List.length processedData)
    (List.length bffApis)
    (List.length processedData - List.length bffApis)
    uniqueHosts
    httpMethods
    (String.length content).

End Platform.
End DocumentStatistics.

(** *** [formatConfigForDisplay] and the object it shares with its caller

    An [AppConfig] at run time is an object whose property [ai] refers to
    a second object.  The copy [{ ...config }] is shallow: it has the same
    reference, so the assignment to [displayConfig.ai.api_key] writes into
    the object the caller's [config] refers to. *)
Module ConfigObject.
Record t := mk {
  ai : nat;   (** the address of the [ai] object *)
  output : OutputConfig.t;
  filter : FilterConfig.t
}.
End ConfigObject.

Definition ConfigHeap := list AiConfig.t.

Module ConfigDisplay.

Fixpoint store {A} (address : nat) (value : A) (heap : list A) : list A :=
  match address, heap with
  | _, [] => []
  | O, _ :: heap' => value :: heap'
  | S address', a :: heap' => a :: store address' value heap'
  end.

(** [config.ai.api_key], read through a reference to the configuration. *)
Definition apiKeyOf (heap : ConfigHeap) (config : ConfigObject.t)
    : option string :=
  option_map AiConfig.api_key (nth_error heap (ConfigObject.ai config)).

Section Platform.

(** [JSON.stringify(value, null, 2)] of the platform, on a configuration
    object and the heap it refers into. *)
Variable stringify : ConfigHeap -> ConfigObject.t -> string.

(** [formatConfigForDisplay(config, hideSecrets)]: the text returned and
    the heap afterwards.  [None] stands for the [TypeError] of reading
    [api_key] of a missing [ai] object. *)
Definition formatConfigForDisplay (heap : ConfigHeap)
    (config : ConfigObject.t) (hideSecrets : bool)
    : option (string * ConfigHeap) :=
  let displayConfig :=
    ConfigObject.mk (ConfigObject.ai config) (ConfigObject.output config)
      (ConfigObject.filter config) in
  if hideSecrets
  then
    match nth_error heap (ConfigObject.ai displayConfig) with
    | None => None
    | Some aiObject =>
        if negb (String.eqb (AiConfig.api_key aiObject) "")
        then
          let heap' :=
            store (ConfigObject.ai displayConfig)
              (AiConfig.mk
                 (String.substring 0 8 (AiConfig.api_key aiObject) ++ "...")
                 (AiConfig.model_name aiObject)
                 (AiConfig.prompt_template_path aiObject))
              heap in
          Some (stringify heap' displayConfig, heap')
        else Some (stringify heap displayConfig, heap)
    end
  else Some (stringify heap displayConfig, heap).

End Platform.
End ConfigDisplay.

(** ** Vocabulary of the further properties *)

(** The items stored under a name, none when the name is absent. *)
Definition itemsOf {V} (k : string) (d : JsDict.t (list V)) : list V :=
  match JsDict.lookupOwn k d with
  | Some items => items
  | None => []
  end.

(** A lower-case ASCII letter. *)
Definition isLowerCase (c : ascii) : bool :=
  let n := nat_of_ascii c in ((97 <=? n) && (n <=? 122))%nat.

(** A lower-case ASCII letter occurs in the text. *)
Fixpoint hasLowerCase (s : string) : bool :=
  match s with
  | EmptyString => false
  | String c s' => isLowerCase c || hasLowerCase s'
  end.

(** The elements of [l] filed under [name] by [keyOf], in order; an
    element without a key is filed nowhere. *)
Definition filedUnder {A} (keyOf : A -> option string) (name : string)
    (l : list A) : list A :=
  filter (fun x => match keyOf x with
                   | Some k => String.eqb k name
                   | None => false
                   end) l.

(** The dictionary [d] files the elements of [l] by [keyOf]: a name holds
    the elements filed under it, and is absent when there are none. *)
Definition Files {A} (keyOf : A -> option string) (d : JsDict.t (list A))
    (l : list A) : Prop :=
  forall name,
    JsDict.lookupOwn name d
    = match filedUnder keyOf name l with
      | [] => None
      | items => Some items
      end.

(** The name [groupLogsByHostname] files an exchange under: the host name
    of its URL, unless the URL does not parse or the host name is a
    property name of [Object.prototype]. *)
Definition hostKey (newURL : string -> option URL.t) (log : NetworkLogEntry.t)
    : option string :=
  match newURL (NetworkRequest.url (NetworkLogEntry.request log)) with
  | Some u =>
      if existsb (String.eqb (URL.hostname u)) JsDict.objectPrototype
      then None
      else Some (URL.hostname u)
  | None => None
  end.

(** A suspended listener holds a response that passed the filter and the
    request built from it. *)
Definition Accepted (newURL : string -> option URL.t)
    (allowedHosts : list string) (pr : Response.t * NetworkRequest.t) : Prop :=
  BrowserController.shouldCaptureResponse newURL allowedHosts (fst pr) = true
  /\ NetworkRequest.url (snd pr) = Response.url (fst pr)
  /\ NetworkRequest.method (snd pr) = Request.method (Response.request (fst pr))
  /\ NetworkRequest.body (snd pr) <> Some EmptyString.

(** What the filter promises, read off a log entry: an allowed host, a JSON
    content type, a [fetch] or [xhr] request with one of the five methods;
    the stored classification is that of the recorded URL, and an empty
    request body is recorded as absent. *)
Definition PassedFilter (newURL : string -> option URL.t)
    (allowedHosts : list string) (entry : NetworkLogEntry.t) : Prop :=
  let request := NetworkLogEntry.request entry in
  BrowserController.isHostAllowed newURL allowedHosts (NetworkRequest.url request)
  = true
  /\ Js.includes "application/json"
       (NetworkResponse.contentType (NetworkLogEntry.response entry)) = true
  /\ (NetworkLogEntry.resourceType entry = "fetch"
      \/ NetworkLogEntry.resourceType entry = "xhr")
  /\ In (Js.toUpperCase (NetworkRequest.method request))
       BrowserController.allowedMethods
  /\ NetworkLogEntry.isBffBlockApi entry
     = BrowserController.isBffBlockApiPattern newURL (NetworkRequest.url request)
  /\ NetworkRequest.body request <> Some EmptyString.

(** The id of the entry at position [i] (from 0) of a capture. *)
Definition Numbered (i : nat) (entry : NetworkLogEntry.t) : Prop :=
  exists t,
    NetworkLogEntry.id entry
    = "log_" ++ Js.ofNumber (Z.of_nat i + 1) ++ "_" ++ Js.ofNumber t.

(** What holds of the controller between two events of a capture. *)
Definition CaptureInvariant (newURL : string -> option URL.t)
    (allowedHosts : list string) (s : BrowserController.State) : Prop :=
  Forall (Accepted newURL allowedHosts) (BrowserController.pending s)
  /\ BrowserController.logCounter s
     = Z.of_nat (List.length (BrowserController.capturedLogs s))
  /\ Forall (PassedFilter newURL allowedHosts) (BrowserController.capturedLogs s)
  /\ (forall i entry,
        nth_error (BrowserController.capturedLogs s) i = Some entry ->
        Numbered i entry).

(** The number of events of each kind. *)
Definition bodiesResolved (events : list SurfaceEvent) : nat :=
  List.length (filter (fun ev => match ev with
                                 | BodyResolves _ => true
                                 | ResponseArrives _ => false
                                 end) events).

Definition responsesPassing (newURL : string -> option URL.t)
    (allowedHosts : list string) (events : list SurfaceEvent) : nat :=
  List.length
    (filter (fun ev =>
               match ev with
               | ResponseArrives r =>
                   BrowserController.shouldCaptureResponse newURL allowedHosts r
               | BodyResolves _ => false
               end) events).

(** The same session with other events while the page loads. *)
Definition withNavigationEvents (events : list SurfaceEvent)
    (surface : Surface.t) : Surface.t :=
  Surface.mk (Surface.launch surface) (Surface.newContext surface)
    (Surface.newPage surface) (Surface.goto surface) events
    (Surface.duringCapture surface) (Surface.pageClose surface)
    (Surface.contextClose surface) (Surface.browserClose surface)
    (Surface.clock surface).

(** The text starts, if it has a start, with a character that is not white
    space. *)
Definition startsBlack (s : string) : bool :=
  match s with
  | EmptyString => true
  | String c _ => negb (JsText.isWhiteSpace c)
  end.


(** What [escapeHtml] writes for one character. *)
Definition escapedChar (c : ascii) : string :=
  if Ascii.eqb c "&" then "&amp;"
  else if Ascii.eqb c "<" then "&lt;"
  else if Ascii.eqb c ">" then "&gt;"
  else if Ascii.eqb c DocumentGenerator.quote then "&quot;"
  else if Ascii.eqb c DocumentGenerator.apostrophe then "&#39;"
  else String c EmptyString.

(** The text with each character replaced by [f] of it. *)
Fixpoint flatMap (f : ascii -> string) (s : string) : string :=
  match s with
  | EmptyString => EmptyString
  | String c s' => f c ++ flatMap f s'
  end.

(** A response text the retry loop accepts: not empty, and not blank. *)
Definition usable (text : string) : bool :=
  negb (String.eqb text EmptyString)
  && negb (String.length (JsText.trim text) =? 0)%nat.

(** How the attempt numbered [k] fails, as the message the handler logs;
    [None] when the attempt obtains a usable text. *)
Definition failureOf (generate : Z -> Try string) (k : Z) : option string :=
  match generate k with
  | inl error => Some (errorMessage error)
  | inr text => if usable text then None else Some "[object Object]"
  end.

(** [last] is the number of the last attempt the retry loop can make: the
    first number from 0 that is not below [maxRetries]. *)
Definition IsLastAttempt (maxRetries : JsNumber.t) (last : Z) : Prop :=
  (0 <= last <= 2 ^ 53)%Z
  /\ JsNumber.intLt last maxRetries = false
  /\ forall j, (0 <= j < last)%Z -> JsNumber.intLt j maxRetries = true.

(** * Properties *)

(** ** Strings *)

Lemma startsWith_spec (p s : string) :
  Js.startsWith p s = true <-> exists r, s = p ++ r.
Proof.
  revert s; induction p as [|a p IH]; intros s; simpl.
  - split; [intros _; now exists s | reflexivity].
  - destruct s as [|b s]; simpl.
    + split; [discriminate | intros [r H]; discriminate].
    + rewrite andb_true_iff, Ascii.eqb_eq, IH. split.
      * intros [-> [r ->]]. now exists r.
      * intros [r H]. injection H as -> ->. split; [reflexivity | now exists r].
Qed.

Lemma includes_spec (sub s : string) :
  Js.includes sub s = true <-> exists a b, s = a ++ sub ++ b.
Proof.
  induction s as [|c s IH]; simpl.
  - rewrite orb_false_r, startsWith_spec. split.
    + intros [r H]. now exists EmptyString, r.
    + intros [a [b H]]. destruct a; [now exists b | discriminate].
  - rewrite orb_true_iff, startsWith_spec, IH. split.
    + intros [[r H] | [a [b H]]].
      * now exists EmptyString, r.
      * exists (String c a), b. simpl. now rewrite H.
    + intros [a [b H]]. destruct a as [|c' a]; simpl in H.
      * left. now exists b.
      * right. injection H as _ H. now exists a, b.
Qed.

Lemma endsWith_spec (suf s : string) :
  Js.endsWith suf s = true <-> exists a, s = a ++ suf.
Proof.
  induction s as [|c s IH]; simpl.
  - rewrite orb_false_r, String.eqb_eq. split.
    + intros ->. now exists EmptyString.
    + intros [a H]. destruct a; [now simpl in H | discriminate].
  - rewrite orb_true_iff, String.eqb_eq, IH. split.
    + intros [-> | [a ->]].
      * now exists EmptyString.
      * now exists (String c a).
    + intros [a H]. destruct a as [|c' a]; simpl in H.
      * now left.
      * right. injection H as _ H. now exists a.
Qed.

Lemma has_spec (name : string) (u : URL.t) :
  URL.has name u = true <-> exists value, In (name, value) (URL.searchParams u).
Proof.
  unfold URL.has. rewrite existsb_exists. split.
  - intros [[k v] [Hin Heq]]. simpl in Heq. apply String.eqb_eq in Heq.
    subst. now exists v.
  - intros [v Hin]. exists (name, v). split; [assumption | apply String.eqb_refl].
Qed.

(** ** The exchange classifier *)

(** The two copies of the classifier, the controller's on a URL and the
    processor's on a log entry, are the same function of the URL. *)
Lemma classifier_copies_agree (newURL : string -> option URL.t)
    (logEntry : NetworkLogEntry.t) :
  DataProcessor.isBffBlockApiPattern newURL logEntry
  = BrowserController.isBffBlockApiPattern newURL
      (DataProcessor.requestUrl logEntry).
Proof. reflexivity. Qed.

(** C4.  The block-API classifier is a total boolean function of the URL:
    it returns a value for every string, never an exception.  It answers
    [true] exactly when the URL parses, its path contains the literal text
    [/blocks] and its query string has a parameter named [keys]; a URL that
    fails to parse classifies as [false].  The copy in the data processor
    gives the same answer on the URL of the log entry. *)
Theorem isBffBlockApiPattern_spec (newURL : string -> option URL.t) (url : string) :
  (BrowserController.isBffBlockApiPattern newURL url = true <->
   exists u, newURL url = Some u
     /\ (exists before after, URL.pathname u = before ++ "/blocks" ++ after)
     /\ (exists value, In ("keys", value) (URL.searchParams u)))
  /\ (newURL url = None ->
      BrowserController.isBffBlockApiPattern newURL url = false)
  /\ (forall logEntry, DataProcessor.requestUrl logEntry = url ->
      DataProcessor.isBffBlockApiPattern newURL logEntry
      = BrowserController.isBffBlockApiPattern newURL url).
Proof.
  unfold BrowserController.isBffBlockApiPattern, tryURL.
  repeat split.
  - destruct (newURL url) as [u|]; simpl; [|discriminate].
    rewrite andb_true_iff, includes_spec, has_spec. intros [Hp Hq].
    exists u. auto.
  - intros [u [Hu [Hp Hq]]]. rewrite Hu. simpl.
    rewrite andb_true_iff, includes_spec, has_spec. auto.
  - intros ->. reflexivity.
  - intros logEntry <-. apply classifier_copies_agree.
Qed.

Lemma isBffBlockApiPattern_spec_witness :
  BrowserController.isBffBlockApiPattern Fixtures.newURL "not a url" = false.
Proof.
  apply (isBffBlockApiPattern_spec Fixtures.newURL "not a url").
  reflexivity.
Defined.

(** The classifier on the URLs of the specification's scenario, and on a
    path that merely contains the text [/blocks]. *)
Example classifier_examples :
  BrowserController.isBffBlockApiPattern Fixtures.newURL
    "https://api.example.com/v1/blocks?keys=home.banner" = true
  /\ BrowserController.isBffBlockApiPattern Fixtures.newURL
       "https://api.example.com/v1/blocks" = false
  /\ BrowserController.isBffBlockApiPattern Fixtures.newURL
       "https://api.example.com/v1/users?keys=a" = false
  /\ BrowserController.isBffBlockApiPattern Fixtures.newURL
       "https://api.example.com/v1/blocksets/7?keys=a" = true.
Proof. vm_compute. repeat split. Qed.

(** ** The host filter *)

Lemma length_zero_nil {A} (l : list A) :
  (List.length l =? 0)%nat = true <-> l = [].
Proof.
  destruct l; simpl; split; congruence.
Qed.

(** C5 (as the code has it).  The host filter is a total boolean function.
    It accepts a URL exactly when [allowedHosts] is empty, or the URL
    parses and its hostname equals an entry or ends with a dot followed by
    an entry.  With a non-empty [allowedHosts] a URL that fails to parse is
    rejected; with an empty one the filter answers before it parses, so
    every URL is accepted. *)
Theorem isHostAllowed_spec (newURL : string -> option URL.t)
    (allowedHosts : list string) (url : string) :
  (BrowserController.isHostAllowed newURL allowedHosts url = true <->
   allowedHosts = []
   \/ exists u host, newURL url = Some u /\ In host allowedHosts
        /\ (URL.hostname u = host
            \/ exists sub, URL.hostname u = sub ++ "." ++ host))
  /\ (newURL url = None -> allowedHosts <> [] ->
      BrowserController.isHostAllowed newURL allowedHosts url = false)
  /\ (allowedHosts = [] ->
      BrowserController.isHostAllowed newURL allowedHosts url = true).
Proof.
  unfold BrowserController.isHostAllowed, tryURL.
  destruct (List.length allowedHosts =? 0)%nat eqn:Hlen.
  - apply length_zero_nil in Hlen. repeat split; auto; congruence.
  - assert (Hne : allowedHosts <> []).
    { intros H. apply length_zero_nil in H. congruence. }
    repeat split.
    + destruct (newURL url) as [u|]; simpl; [|discriminate].
      rewrite existsb_exists. intros [host [Hin Hm]]. right.
      exists u, host. repeat split; auto.
      apply orb_true_iff in Hm as [Hm | Hm].
      * left. now apply String.eqb_eq.
      * right. now apply endsWith_spec.
    + intros [H | [u [host [Hu [Hin Hm]]]]]; [contradiction|].
      rewrite Hu. simpl. apply existsb_exists. exists host. split; auto.
      apply orb_true_iff. destruct Hm as [Hm | Hm].
      * left. now apply String.eqb_eq.
      * right. now apply endsWith_spec.
    + intros -> _. reflexivity.
    + intros H. contradiction.
Qed.

Lemma isHostAllowed_spec_witness :
  BrowserController.isHostAllowed Fixtures.newURL ["api.example.com"]
    "not a url" = false.
Proof.
  apply (isHostAllowed_spec Fixtures.newURL ["api.example.com"] "not a url").
  - reflexivity.
  - simpl. discriminate.
Defined.

(** C5 as stated fails: with an empty [allowedHosts] a string that does not
    parse as a URL is accepted, not rejected. *)
Lemma isHostAllowed_accepts_unparseable :
  Fixtures.newURL "not a url" = None
  /\ BrowserController.isHostAllowed Fixtures.newURL [] "not a url" = true.
Proof. split; reflexivity. Qed.

(** The host-scoping examples of the specification. *)
Example host_scoping :
  BrowserController.isHostAllowed Fixtures.newURL ["api.example.com"]
    "https://sub.api.example.com/x" = true
  /\ BrowserController.isHostAllowed Fixtures.newURL ["api.example.com"]
       "https://api.example.com.evil.com/x" = false
  /\ BrowserController.isHostAllowed Fixtures.newURL ["api.example.com"]
       "https://otherhost.com/x" = false
  /\ BrowserController.isHostAllowed Fixtures.newURL ["api.example.com"]
       "https://api.example.com/x" = true.
Proof. vm_compute. repeat split. Qed.

(** ** Endpoint identity *)

Lemma includes_char_cons (c a : ascii) (s : string) :
  Js.includes (String c EmptyString) (String a s) = false ->
  a <> c /\ Js.includes (String c EmptyString) s = false.
Proof.
  simpl. intros H. apply orb_false_iff in H as [H1 H2].
  split; [|assumption].
  intros ->. rewrite Ascii.eqb_refl in H1.
  destruct s; discriminate.
Qed.

(** A text is cut in one way only at the first occurrence of a
    character. *)
Lemma cut_unique (c : ascii) (a a' b b' : string) :
  Js.includes (String c EmptyString) a = false ->
  Js.includes (String c EmptyString) a' = false ->
  a ++ String c b = a' ++ String c b' ->
  a = a' /\ b = b'.
Proof.
  revert a'. induction a as [|y a IH]; intros [|x a'] Ha Ha' H; simpl in H.
  - injection H as ->. auto.
  - injection H as -> _. apply includes_char_cons in Ha' as [Hx _]. congruence.
  - injection H as -> _. apply includes_char_cons in Ha as [Hy _]. congruence.
  - injection H as -> H.
    apply includes_char_cons in Ha as [_ Ha].
    apply includes_char_cons in Ha' as [_ Ha'].
    destruct (IH a' Ha Ha' H) as [-> ->]. auto.
Qed.

(** C6.  The grouping key is a function of the method and the URL of the
    exchange alone.  When the URL parses, the key is the upper-cased method,
    the hostname and the pathname, so that neither the query string nor the
    fragment takes part in it; for a method that is already upper case it is
    the method itself.  The key stands for the triple: for methods without
    a space, hostnames without a slash and pathnames that begin with a
    slash, two keys are equal exactly when method, hostname and pathname
    are.  When the URL does not parse, the key is the method and the URL as
    they stand. *)
Theorem createEndpointKey_spec (newURL : string -> option URL.t)
    (logEntry : NetworkLogEntry.t) :
  let method := DataProcessor.requestMethod logEntry in
  let url := DataProcessor.requestUrl logEntry in
  (forall u, newURL url = Some u ->
     DataProcessor.createEndpointKey newURL logEntry
     = Js.toUpperCase method ++ " " ++ URL.hostname u ++ URL.pathname u)
  /\ (forall u, newURL url = Some u -> Js.toUpperCase method = method ->
     DataProcessor.createEndpointKey newURL logEntry
     = method ++ " " ++ URL.hostname u ++ URL.pathname u)
  /\ (newURL url = None ->
     DataProcessor.createEndpointKey newURL logEntry = method ++ " " ++ url)
  /\ (forall other,
        DataProcessor.requestMethod other = method ->
        DataProcessor.requestUrl other = url ->
        DataProcessor.createEndpointKey newURL other
        = DataProcessor.createEndpointKey newURL logEntry)
  /\ (forall other u u',
        newURL url = Some u ->
        newURL (DataProcessor.requestUrl other) = Some u' ->
        DataProcessor.requestMethod other = method ->
        URL.hostname u' = URL.hostname u ->
        URL.pathname u' = URL.pathname u ->
        DataProcessor.createEndpointKey newURL other
        = DataProcessor.createEndpointKey newURL logEntry)
  /\ (forall other u u',
        newURL url = Some u ->
        newURL (DataProcessor.requestUrl other) = Some u' ->
        Js.includes " " (Js.toUpperCase method) = false ->
        Js.includes " "
          (Js.toUpperCase (DataProcessor.requestMethod other)) = false ->
        Js.includes "/" (URL.hostname u) = false ->
        Js.includes "/" (URL.hostname u') = false ->
        Js.startsWith "/" (URL.pathname u) = true ->
        Js.startsWith "/" (URL.pathname u') = true ->
        (DataProcessor.createEndpointKey newURL other
         = DataProcessor.createEndpointKey newURL logEntry
         <-> Js.toUpperCase (DataProcessor.requestMethod other)
             = Js.toUpperCase method
             /\ URL.hostname u' = URL.hostname u
             /\ URL.pathname u' = URL.pathname u)).
Proof.
  unfold DataProcessor.createEndpointKey, tryURL. cbv zeta.
  split; [|split; [|split; [|split; [|split]]]].
  - intros u ->. reflexivity.
  - intros u -> ->. reflexivity.
  - intros ->. reflexivity.
  - intros other -> ->. reflexivity.
  - intros other u u' Hu Hu' Hm Hh Hp. rewrite Hu, Hu'. simpl.
    now rewrite Hm, Hh, Hp.
  - intros other u u' Hu Hu' Hm Hm' Hh Hh' Hp Hp'.
    rewrite Hu, Hu'. simpl. split.
    + intros Hkey.
      apply (cut_unique " ") in Hkey as [Hmethod Hrest]; try assumption.
      split; [assumption|].
      apply startsWith_spec in Hp as [p Hp], Hp' as [p' Hp'].
      simpl in Hp, Hp'. rewrite Hp, Hp' in *.
      apply (cut_unique "/") in Hrest as [Hhost Hpath]; try assumption.
      split; [assumption | now rewrite Hpath].
    + intros [Hmethod [Hhost Hpath]]. now rewrite Hmethod, Hhost, Hpath.
Qed.

Lemma createEndpointKey_spec_witness :
  DataProcessor.createEndpointKey Fixtures.newURL Fixtures.hero
  = DataProcessor.createEndpointKey Fixtures.newURL Fixtures.banner
  /\ DataProcessor.createEndpointKey Fixtures.newURL Fixtures.users
     <> DataProcessor.createEndpointKey Fixtures.newURL Fixtures.banner.
Proof.
  destruct (createEndpointKey_spec Fixtures.newURL Fixtures.banner)
    as [_ [_ [_ [_ [Hsame Hdistinct]]]]].
  split.
  - apply (Hsame Fixtures.hero
             (URL.mk "api.example.com" "/v1/blocks" [("keys", "home.banner")] "")
             (URL.mk "api.example.com" "/v1/blocks" [("keys", "home.hero")] ""));
      reflexivity.
  - intros Hkey.
    apply (Hdistinct Fixtures.users
             (URL.mk "api.example.com" "/v1/blocks" [("keys", "home.banner")] "")
             (URL.mk "api.example.com" "/v1/users" [] "")) in Hkey;
      try reflexivity.
    destruct Hkey as [_ [_ Hpath]]. discriminate Hpath.
Defined.

Example endpoint_keys :
  DataProcessor.createEndpointKey Fixtures.newURL Fixtures.banner
  = "GET api.example.com/v1/blocks"
  /\ DataProcessor.createEndpointKey Fixtures.newURL Fixtures.broken
     = "GET not a url"
  /\ DataProcessor.createEndpointKey Fixtures.newURL
       (Fixtures.exchange "get" "https://api.example.com/v1/users?page=2#top" "[]")
     = "GET api.example.com/v1/users".
Proof. vm_compute. repeat split. Qed.

(** The fallback key is the method and the raw URL in the same textual
    form: an exchange whose URL has no scheme, and so does not parse, can
    share its key with an exchange whose URL does. *)
Example fallback_key_may_coincide :
  Fixtures.newURL "api.example.com/v1/users" = None
  /\ DataProcessor.createEndpointKey Fixtures.newURL
       (Fixtures.exchange "GET" "api.example.com/v1/users" "[]")
     = DataProcessor.createEndpointKey Fixtures.newURL Fixtures.users.
Proof. vm_compute. split; reflexivity. Qed.

(** ** Grouping *)

Section Grouping.

Variable newURL : string -> option URL.t.

Local Abbreviation key := (DataProcessor.createEndpointKey newURL).
Local Abbreviation isBff := (DataProcessor.isBffBlockApiPattern newURL).

Lemma existsb_eqb_In (k : string) (l : list string) :
  existsb (String.eqb k) l = true <-> In k l.
Proof.
  rewrite existsb_exists. split.
  - intros [x [Hin Heq]]. apply String.eqb_eq in Heq. now subst.
  - intros Hin. exists k. split; [assumption | apply String.eqb_refl].
Qed.

Lemma firstSeen_snoc (keys : list string) (k : string) :
  firstSeen (keys ++ [k])
  = if existsb (String.eqb k) (firstSeen keys) then firstSeen keys
    else (firstSeen keys ++ [k])%list.
Proof.
  unfold firstSeen. now rewrite fold_left_app.
Qed.

Lemma firstSeen_In (keys : list string) (k : string) :
  In k (firstSeen keys) <-> In k keys.
Proof.
  induction keys as [|x keys IH] using rev_ind.
  - reflexivity.
  - rewrite firstSeen_snoc, in_app_iff. simpl.
    destruct (existsb (String.eqb x) (firstSeen keys)) eqn:E.
    + apply existsb_eqb_In in E. rewrite IH. split; [tauto|].
      intros [H | [<- | []]]; [assumption | now apply IH].
    + rewrite in_app_iff, IH. simpl. tauto.
Qed.

Lemma firstSeen_NoDup (keys : list string) : NoDup (firstSeen keys).
Proof.
  induction keys as [|x keys IH] using rev_ind.
  - constructor.
  - rewrite firstSeen_snoc.
    destruct (existsb (String.eqb x) (firstSeen keys)) eqn:E; [assumption|].
    apply NoDup_app; auto.
    + repeat constructor. simpl. tauto.
    + intros k Hk [<- | []].
      apply existsb_eqb_In in Hk. congruence.
Qed.

Lemma has_map_keys {V} (g : string -> V) (k : string) (keys : list string) :
  JsMap.has k (map (fun k' => (k', g k')) keys) = existsb (String.eqb k) keys.
Proof.
  induction keys as [|x keys IH]; simpl; [reflexivity | now rewrite IH].
Qed.

Lemma update_map_keys {V} (g : string -> V) (f : V -> V) (k : string)
    (keys : list string) :
  NoDup keys ->
  JsMap.update k f (map (fun k' => (k', g k')) keys)
  = map (fun k' => (k', if String.eqb k k' then f (g k') else g k')) keys.
Proof.
  induction 1 as [|x keys Hx Hnd IH]; simpl; [reflexivity|].
  destruct (String.eqb k x) eqn:E.
  - apply String.eqb_eq in E. subst x. f_equal.
    apply map_ext_in. intros k' Hin.
    destruct (String.eqb k k') eqn:E'; [|reflexivity].
    apply String.eqb_eq in E'. subst. contradiction.
  - now rewrite IH.
Qed.

Lemma membersOf_snoc (k : string) (logs : NetworkLogCollection)
    (x : NetworkLogEntry.t) :
  membersOf newURL k (logs ++ [x])%list
  = (membersOf newURL k logs
     ++ if String.eqb (key x) k then [x] else [])%list.
Proof.
  unfold membersOf. rewrite filter_app. simpl.
  now destruct (String.eqb (key x) k).
Qed.

Lemma membersOf_unseen (k : string) (logs : NetworkLogCollection) :
  ~ In k (identities newURL logs) -> membersOf newURL k logs = [].
Proof.
  unfold identities. rewrite firstSeen_In, in_map_iff. intros Hnot.
  unfold membersOf. induction logs as [|x logs IH]; simpl; [reflexivity|].
  destruct (String.eqb (key x) k) eqn:E.
  - apply String.eqb_eq in E. exfalso. apply Hnot. exists x. simpl. auto.
  - apply IH. intros [y [Hy Hin]]. apply Hnot. exists y. simpl. auto.
Qed.

(** [groupLogsByEndpoint] partitions the list by endpoint identity: one
    group per identity, in first-seen order; a group holds the exchanges of
    its identity in their original order, and its flag is the disjunction
    of their classifications. *)
Lemma groupLogsByEndpoint_spec (logs : NetworkLogCollection) :
  DataProcessor.groupLogsByEndpoint newURL logs
  = map (fun k => (k, groupOf newURL logs k)) (identities newURL logs).
Proof.
  induction logs as [|x logs IH] using rev_ind; [reflexivity|].
  unfold DataProcessor.groupLogsByEndpoint in *.
  rewrite fold_left_app. simpl. rewrite IH. clear IH.
  unfold identities. rewrite map_app. simpl. rewrite firstSeen_snoc.
  fold (identities newURL logs).
  unfold DataProcessor.addToGroups.
  rewrite (has_map_keys (groupOf newURL logs)).
  destruct (existsb (String.eqb (key x)) (identities newURL logs)) eqn:E.
  - rewrite (update_map_keys (groupOf newURL logs))
      by apply firstSeen_NoDup.
    apply map_ext. intros k. f_equal. unfold groupOf.
    rewrite membersOf_snoc.
    destruct (String.eqb (key x) k) eqn:Ek.
    + apply String.eqb_eq in Ek. subst k. simpl.
      rewrite existsb_app. simpl. now rewrite orb_false_r.
    + now rewrite app_nil_r.
  - unfold JsMap.setNew. rewrite map_app. simpl.
    assert (Hnot : ~ In (key x) (identities newURL logs)).
    { intros H. apply existsb_eqb_In in H. congruence. }
    f_equal.
    + apply map_ext_in. intros k Hk. f_equal. unfold groupOf.
      rewrite membersOf_snoc.
      destruct (String.eqb (key x) k) eqn:Ek.
      * apply String.eqb_eq in Ek. subst k. contradiction.
      * now rewrite app_nil_r.
    + unfold groupOf. rewrite membersOf_snoc, String.eqb_refl.
      rewrite membersOf_unseen by exact Hnot. simpl. now rewrite orb_false_r.
Qed.

Lemma membersOf_nonempty (logs : NetworkLogCollection) (k : string) :
  In k (identities newURL logs) -> membersOf newURL k logs <> [].
Proof.
  unfold identities. rewrite firstSeen_In, in_map_iff.
  intros [x [Hx Hin]] Hnil.
  assert (H : In x (membersOf newURL k logs)).
  { unfold membersOf. apply filter_In. split; [assumption|].
    now apply String.eqb_eq. }
  rewrite Hnil in H. contradiction.
Qed.

End Grouping.

(** ** Merging *)

Section Merging.

Variable newURL : string -> option URL.t.

Local Abbreviation bodyLength :=
  (fun x => String.length (DataProcessor.responseBody x)).

Lemma keepLonger_fold (l : list NetworkLogEntry.t) (b : NetworkLogEntry.t) :
  exists r,
    fold_left DataProcessor.keepLonger l (DataProcessor.responseBody b, b)
    = (DataProcessor.responseBody r, r)
    /\ ((r = b /\ forall x, In x l -> bodyLength x <= bodyLength b)
        \/ (exists l1 l2,
              l = (l1 ++ r :: l2)%list
              /\ bodyLength b < bodyLength r
              /\ (forall x, In x l1 -> bodyLength x < bodyLength r)
              /\ (forall x, In x l2 -> bodyLength x <= bodyLength r))).
Proof.
  revert b. induction l as [|x l IH]; intros b; simpl.
  - exists b. split; [reflexivity|]. left. split; [reflexivity | contradiction].
  - unfold DataProcessor.keepLonger at 2. simpl.
    destruct (Nat.ltb_spec (bodyLength b) (bodyLength x)) as [Hlt | Hge].
    + destruct (IH x) as [r [Hr Hcase]].
      exists r. split; [exact Hr|]. right.
      destruct Hcase as [[Heq Hall] | [l1 [l2 [Hl [Hx [H1 H2]]]]]]; subst.
      * exists [], l. repeat split; auto. contradiction.
      * exists (x :: l1), l2. repeat split; auto; try lia.
        intros y [<- | Hy]; auto.
    + destruct (IH b) as [r [Hr Hcase]].
      exists r. split; [exact Hr|].
      destruct Hcase as [[Heq Hall] | [l1 [l2 [Hl [Hb [H1 H2]]]]]]; subst.
      * left. split; [reflexivity|]. intros y [<- | Hy]; auto.
      * right. exists (x :: l1), l2. repeat split; auto.
        intros y [<- | Hy]; auto. lia.
Qed.

(** Merging a non-empty group returns the endpoint of the group's
    representative, whatever the clock reads. *)
Lemma mergeEndpointLogs_ok (mergeInfo : EndpointMergeInfo.t) :
  EndpointMergeInfo.logs mergeInfo <> [] ->
  exists r,
    IsRepresentative (EndpointMergeInfo.logs mergeInfo) r
    /\ forall now,
         DataProcessor.mergeEndpointLogs newURL now mergeInfo
         = inr (DataProcessor.processLogEntry newURL r).
Proof.
  unfold DataProcessor.mergeEndpointLogs.
  destruct (EndpointMergeInfo.logs mergeInfo) as [|base rest]; [congruence|].
  intros _. simpl. unfold DataProcessor.keepLonger at 2. simpl.
  rewrite Nat.ltb_irrefl.
  destruct (keepLonger_fold rest base) as [r [Hr Hcase]].
  exists r. split; [|intros now; now rewrite Hr].
  destruct Hcase as [[Heq Hall] | [l1 [l2 [Hl [Hb [H1 H2]]]]]]; subst.
  - exists [], rest. repeat split; auto. contradiction.
  - exists (base :: l1), l2. repeat split; auto.
    intros y [<- | Hy]; auto.
Qed.

End Merging.

(** ** Loops *)

Lemma mapTry_pure {A B} (g : A -> B) (l : list A) :
  mapTry (fun a => ret (g a)) l = ret (map g l).
Proof.
  induction l as [|a l IH]; simpl; [reflexivity|].
  now rewrite IH.
Qed.

Lemma mapTry_ok {A B} (f : A -> Try B) (l : list A) :
  (forall a, In a l -> exists b, f a = inr b) ->
  exists bs, mapTry f l = inr bs /\ Forall2 (fun a b => f a = inr b) l bs.
Proof.
  induction l as [|a l IH]; intros H; simpl.
  - exists []. split; [reflexivity | constructor].
  - destruct (H a) as [b Hb]; [now left|].
    destruct IH as [bs [Hbs HF]]; [intros x Hx; apply H; now right|].
    exists (b :: bs). rewrite Hb, Hbs. split; [reflexivity | now constructor].
Qed.

Lemma mapTry_inr {A B} (f : A -> Try B) (l : list A) (bs : list B) :
  mapTry f l = inr bs -> Forall2 (fun a b => f a = inr b) l bs.
Proof.
  revert bs. induction l as [|a l IH]; simpl; intros bs H.
  - injection H as <-. constructor.
  - destruct (f a) as [t|b] eqn:Ha; simpl in H; [discriminate|].
    destruct (mapTry f l) as [t|bs'] eqn:Hl; simpl in H; [discriminate|].
    injection H as <-. constructor; auto.
Qed.

Lemma mapTry_inl {A B} (f : A -> Try B) (l : list A) (t : Thrown) :
  mapTry f l = inl t -> exists a, In a l /\ f a = inl t.
Proof.
  induction l as [|a l IH]; simpl; intros H; [discriminate|].
  destruct (f a) as [t'|b] eqn:Ha; simpl in H.
  - injection H as <-. exists a. auto.
  - destruct (mapTry f l) as [t'|bs] eqn:Hl; simpl in H; [|discriminate].
    injection H as <-. destruct IH as [x [Hx Hfx]]; [reflexivity|].
    exists x. auto.
Qed.

Lemma forEachTry_collect {A B} (f : A -> Try B) (c : A -> bool)
    (l : list A) (acc : list B) (n : nat) :
  JsArray.forEachTry
    (fun (st : list B * nat) a =>
       b <- f a ;;
       ret ((fst st ++ [b])%list, if c a then S (snd st) else snd st))
    l (acc, n)
  = (bs <- mapTry f l ;;
     ret ((acc ++ bs)%list, n + List.length (filter c l))).
Proof.
  revert acc n. induction l as [|a l IH]; intros acc n; simpl.
  - now rewrite app_nil_r, Nat.add_0_r.
  - destruct (f a) as [t|b]; simpl; [reflexivity|].
    rewrite IH. destruct (mapTry f l) as [t|bs]; simpl; [reflexivity|].
    rewrite <- app_assoc. simpl. destruct (c a); simpl.
    + now rewrite Nat.add_succ_r.
    + reflexivity.
Qed.

(** ** Prioritising and capping *)

Section Normalizing.

Variable newURL : string -> option URL.t.

Local Abbreviation isBff := (DataProcessor.isBffBlockApiPattern newURL).
Local Abbreviation bffFirst := (DataProcessor.bffFirst newURL).

Lemma insertSorted_block (x : NetworkLogEntry.t) (l : list NetworkLogEntry.t) :
  isBff x = true -> JsArray.insertSorted bffFirst x l = x :: l.
Proof.
  intros Hx. destruct l as [|y l]; simpl; [reflexivity|].
  unfold DataProcessor.bffFirst. rewrite Hx.
  now destruct (isBff y).
Qed.

Lemma insertSorted_other (x : NetworkLogEntry.t)
    (blocks others : list NetworkLogEntry.t) :
  isBff x = false ->
  Forall (fun y => isBff y = true) blocks ->
  Forall (fun y => isBff y = false) others ->
  JsArray.insertSorted bffFirst x (blocks ++ others)
  = (blocks ++ x :: others)%list.
Proof.
  intros Hx Hb Ho. induction Hb as [|y blocks Hy Hb IH]; simpl.
  - destruct Ho as [|z others Hz Ho]; simpl; [reflexivity|].
    unfold DataProcessor.bffFirst. now rewrite Hx, Hz.
  - unfold DataProcessor.bffFirst at 1. rewrite Hx, Hy. simpl.
    now rewrite IH.
Qed.

(** Sorting with the comparator of [filterAndPrioritizeLogs] is the stable
    partition. *)
Lemma sort_bffFirst (logs : NetworkLogCollection) :
  JsArray.sort bffFirst logs = blockFirst newURL logs.
Proof.
  unfold JsArray.sort, blockFirst.
  induction logs as [|x logs IH]; simpl; [reflexivity|].
  rewrite IH. destruct (isBff x) eqn:Hx; simpl.
  - now apply insertSorted_block.
  - apply insertSorted_other; [assumption | |];
      apply Forall_forall; intros y Hy; apply filter_In in Hy as [_ Hy];
      [assumption | now apply negb_true_iff].
Qed.

Lemma filterAndPrioritizeLogs_spec (options : Options.t)
    (logs : NetworkLogCollection) :
  DataProcessor.filterAndPrioritizeLogs newURL options logs
  = let ordered :=
      if Options.prioritizeBffApis options then blockFirst newURL logs
      else logs in
    if (Options.maxApis options >? 0)%Z
    then firstn (Z.to_nat (Options.maxApis options)) ordered
    else ordered.
Proof.
  unfold DataProcessor.filterAndPrioritizeLogs, JsArray.slice0.
  destruct (Options.prioritizeBffApis options); simpl;
    now rewrite ?sort_bffFirst.
Qed.

Lemma values_map_keys {V} (g : string -> V) (keys : list string) :
  JsMap.values (map (fun k => (k, g k)) keys) = map g keys.
Proof.
  unfold JsMap.values. rewrite map_map. reflexivity.
Qed.

Lemma Forall2_map_l {A B C} (R : B -> C -> Prop) (g : A -> B)
    (l : list A) (l' : list C) :
  Forall2 R (map g l) l' <-> Forall2 (fun a c => R (g a) c) l l'.
Proof.
  revert l'. induction l as [|a l IH]; intros l'; simpl.
  - split; intros H; inversion H; constructor.
  - split; intros H; inversion H; subst; constructor; auto; now apply IH.
Qed.

Lemma Forall2_impl_In {A B} (R R' : A -> B -> Prop) (l : list A) (l' : list B) :
  (forall a b, In a l -> R a b -> R' a b) ->
  Forall2 R l l' -> Forall2 R' l l'.
Proof.
  intros H HF. induction HF; constructor.
  - apply H; [now left | assumption].
  - apply IHHF. intros a b Ha. apply H. now right.
Qed.

Lemma Forall2_In_r {A B} (R : A -> B -> Prop) (l : list A) (l' : list B) (b : B) :
  Forall2 R l l' -> In b l' -> exists a, In a l /\ R a b.
Proof.
  induction 1 as [|a b' l l' Hab HF IH]; intros Hin; [contradiction|].
  destruct Hin as [<- | Hin].
  - exists a. split; [now left | assumption].
  - destruct (IH Hin) as [a' [Ha' HR]]. exists a'. split; [now right | assumption].
Qed.

Lemma Forall2_length_eq {A B} (R : A -> B -> Prop) (l : list A) (l' : list B) :
  Forall2 R l l' -> List.length l = List.length l'.
Proof.
  induction 1; simpl; congruence.
Qed.

Lemma length_nonzero {A} (l : list A) :
  l <> [] -> (List.length l =? 0)%nat = false.
Proof.
  destruct l; [congruence | reflexivity].
Qed.

(** What [processNetworkLogs] returns on a non-empty list when it merges:
    one endpoint per identity of the capped list, in first-seen order, built
    from the representative of the identity's exchanges. *)
Lemma processNetworkLogs_merged (now : Z) (options : Options.t)
    (logs : NetworkLogCollection) :
  logs <> [] ->
  Options.mergeDuplicates options = true ->
  let filteredLogs := DataProcessor.filterAndPrioritizeLogs newURL options logs in
  let groups :=
    JsMap.values (DataProcessor.groupLogsByEndpoint newURL filteredLogs) in
  exists processedData,
    DataProcessor.processNetworkLogs newURL now options logs
    = DataProcessingResult.mk true processedData (List.length logs)
        (List.length (filter EndpointMergeInfo.isBffBlockApi groups))
        (List.length processedData) None
    /\ groups = map (groupOf newURL filteredLogs) (identities newURL filteredLogs)
    /\ Forall2
         (fun g p =>
            DataProcessor.mergeEndpointLogs newURL now g = inr p
            /\ exists r, IsRepresentative (EndpointMergeInfo.logs g) r
                 /\ p = DataProcessor.processLogEntry newURL r)
         groups processedData.
Proof.
  intros Hne Hmerge filteredLogs groups.
  assert (Hgroups : groups
            = map (groupOf newURL filteredLogs) (identities newURL filteredLogs)).
  { unfold groups. rewrite groupLogsByEndpoint_spec.
    apply (values_map_keys (groupOf newURL filteredLogs)). }
  destruct (mapTry_ok (DataProcessor.mergeEndpointLogs newURL now) groups)
    as [processedData [Hmap HF]].
  { intros g Hg. rewrite Hgroups in Hg. apply in_map_iff in Hg as [k [<- Hk]].
    destruct (@mergeEndpointLogs_ok newURL (groupOf newURL filteredLogs k))
      as [r [_ Hr]].
    - simpl. now apply membersOf_nonempty.
    - exists (DataProcessor.processLogEntry newURL r). apply Hr. }
  exists processedData. split; [|split; [exact Hgroups|]].
  - unfold DataProcessor.processNetworkLogs, DataProcessor.processNetworkLogs_try.
    rewrite (length_nonzero Hne), Hmerge.
    fold filteredLogs. fold groups.
    rewrite (forEachTry_collect (DataProcessor.mergeEndpointLogs newURL now)
               EndpointMergeInfo.isBffBlockApi).
    rewrite Hmap. reflexivity.
  - revert HF. apply Forall2_impl_In. intros g p Hg Hgp.
    split; [assumption|].
    rewrite Hgroups in Hg. apply in_map_iff in Hg as [k [<- Hk]].
    destruct (@mergeEndpointLogs_ok newURL (groupOf newURL filteredLogs k))
      as [r [Hrep Hr]].
    + simpl. now apply membersOf_nonempty.
    + exists r. split; [assumption|].
      rewrite Hr in Hgp. now injection Hgp as <-.
Qed.

(** What [processNetworkLogs] returns on a non-empty list when it does not
    merge: one endpoint per exchange of the capped list. *)
Lemma processNetworkLogs_unmerged (now : Z) (options : Options.t)
    (logs : NetworkLogCollection) :
  logs <> [] ->
  Options.mergeDuplicates options = false ->
  let filteredLogs := DataProcessor.filterAndPrioritizeLogs newURL options logs in
  DataProcessor.processNetworkLogs newURL now options logs
  = DataProcessingResult.mk true
      (map (DataProcessor.processLogEntry newURL) filteredLogs)
      (List.length logs)
      (List.length (filter isBff filteredLogs))
      (List.length (map (DataProcessor.processLogEntry newURL) filteredLogs))
      None.
Proof.
  intros Hne Hmerge filteredLogs.
  unfold DataProcessor.processNetworkLogs, DataProcessor.processNetworkLogs_try.
  rewrite (length_nonzero Hne), Hmerge. fold filteredLogs.
  change (JsArray.forEachTry _ filteredLogs ([], 0))
    with (JsArray.forEachTry
            (fun (st : ProcessedApiCollection * nat) log =>
               processed <- ret (DataProcessor.processLogEntry newURL log) ;;
               ret ((fst st ++ [processed])%list,
                    if isBff log then S (snd st) else snd st))
            filteredLogs ([], 0)).
  rewrite (forEachTry_collect
             (fun log => ret (DataProcessor.processLogEntry newURL log)) isBff).
  rewrite mapTry_pure. reflexivity.
Qed.

Lemma processNetworkLogs_empty (now : Z) (options : Options.t) :
  DataProcessor.processNetworkLogs newURL now options []
  = DataProcessingResult.mk true [] 0 0 0 None.
Proof. reflexivity. Qed.

End Normalizing.

(** ** The normalizer: claims *)

Lemma IsRepresentative_unique (logs : list NetworkLogEntry.t)
    (r r' : NetworkLogEntry.t) :
  IsRepresentative logs r -> IsRepresentative logs r' -> r = r'.
Proof.
  intros [e1 [l1 [H1 [He1 Hl1]]]] [e2 [l2 [H2 [He2 Hl2]]]].
  rewrite H1 in H2. apply app_eq_app in H2 as [l [[-> H] | [-> H]]].
  - destruct l as [|x l]; simpl in H.
    + now injection H.
    + injection H as <- ->.
      assert (A : String.length (DataProcessor.responseBody r')
                  < String.length (DataProcessor.responseBody r))
        by (apply He1; apply in_app_iff; right; now left).
      assert (B : String.length (DataProcessor.responseBody r)
                  <= String.length (DataProcessor.responseBody r'))
        by (apply Hl2; apply in_app_iff; right; now left).
      lia.
  - destruct l as [|x l]; simpl in H.
    + now injection H.
    + injection H as Hx Hl. subst x l1.
      assert (A : String.length (DataProcessor.responseBody r)
                  < String.length (DataProcessor.responseBody r'))
        by (apply He2; apply in_app_iff; right; now left).
      assert (B : String.length (DataProcessor.responseBody r')
                  <= String.length (DataProcessor.responseBody r))
        by (apply Hl1; apply in_app_iff; right; now left).
      lia.
Qed.

Lemma group_members (newURL : string -> option URL.t)
    (logs : NetworkLogCollection) (g : EndpointMergeInfo.t) :
  In g (JsMap.values (DataProcessor.groupLogsByEndpoint newURL logs)) ->
  EndpointMergeInfo.logs g
  = membersOf newURL (EndpointMergeInfo.endpointKey g) logs
  /\ EndpointMergeInfo.logs g <> [].
Proof.
  rewrite groupLogsByEndpoint_spec.
  rewrite (values_map_keys (groupOf newURL logs)).
  intros Hg. apply in_map_iff in Hg as [k [<- Hk]]. simpl.
  split; [reflexivity | now apply membersOf_nonempty].
Qed.

(** C2.  The groups of the normalizer are non-empty and hold the exchanges
    of one endpoint identity in the order of the input.  For every
    non-empty group, merging selects as representative the exchange with
    the longest response body, the first one among those of equal greatest
    length: every exchange before it in the group is strictly shorter and
    none after it is longer.  That exchange is unique, and merging returns
    the endpoint built from it on every run, whatever the clock reads. *)
Theorem mergeEndpointLogs_representative (newURL : string -> option URL.t)
    (mergeInfo : EndpointMergeInfo.t) :
  (forall logs,
     In mergeInfo (JsMap.values (DataProcessor.groupLogsByEndpoint newURL logs)) ->
     EndpointMergeInfo.logs mergeInfo
     = membersOf newURL (EndpointMergeInfo.endpointKey mergeInfo) logs
     /\ EndpointMergeInfo.logs mergeInfo <> [])
  /\ (EndpointMergeInfo.logs mergeInfo <> [] ->
      exists r,
        IsRepresentative (EndpointMergeInfo.logs mergeInfo) r
        /\ (forall r',
              IsRepresentative (EndpointMergeInfo.logs mergeInfo) r' -> r' = r)
        /\ forall now,
             DataProcessor.mergeEndpointLogs newURL now mergeInfo
             = inr (ProcessedApiData.mk
                      (Js.toUpperCase (DataProcessor.requestMethod r))
                      (DataProcessor.requestUrl r)
                      (DataProcessor.responseBody r)
                      (DataProcessor.extractQueryParams newURL
                         (DataProcessor.requestUrl r))
                      [])).
Proof.
  split.
  - intros logs. apply group_members.
  - intros Hne.
    destruct (@mergeEndpointLogs_ok newURL mergeInfo Hne) as [r [Hrep Hr]].
    exists r. split; [assumption|]. split; [|exact Hr].
    intros r' Hr'. exact (IsRepresentative_unique Hr' Hrep).
Qed.

Lemma mergeEndpointLogs_representative_witness :
  (EndpointMergeInfo.logs Fixtures.blocksGroup
   = membersOf Fixtures.newURL
       (EndpointMergeInfo.endpointKey Fixtures.blocksGroup) Fixtures.traffic
   /\ EndpointMergeInfo.logs Fixtures.blocksGroup <> [])
  /\ exists r,
       IsRepresentative (EndpointMergeInfo.logs Fixtures.blocksGroup) r
       /\ (forall r',
             IsRepresentative (EndpointMergeInfo.logs Fixtures.blocksGroup) r' ->
             r' = r)
       /\ forall now,
            DataProcessor.mergeEndpointLogs Fixtures.newURL now
              Fixtures.blocksGroup
            = inr (ProcessedApiData.mk
                     (Js.toUpperCase (DataProcessor.requestMethod r))
                     (DataProcessor.requestUrl r)
                     (DataProcessor.responseBody r)
                     (DataProcessor.extractQueryParams Fixtures.newURL
                        (DataProcessor.requestUrl r))
                     []).
Proof.
  destruct (@mergeEndpointLogs_representative Fixtures.newURL
              Fixtures.blocksGroup) as [Hmembers Hmerge].
  split.
  - apply (Hmembers Fixtures.traffic). vm_compute. left. reflexivity.
  - apply Hmerge. simpl. discriminate.
Defined.

(** Of two bodies of the greatest length the first is chosen: pages 2 and 3
    have bodies of five characters, and the representative is page 2. *)
Example first_of_equal_length_wins :
  DataProcessor.mergeEndpointLogs Fixtures.newURL 0
    (EndpointMergeInfo.mk "GET api.example.com/v1/users"
       [Fixtures.exchange "GET" "https://api.example.com/v1/users?page=1" "[1]";
        Fixtures.exchange "GET" "https://api.example.com/v1/users?page=2" "[2,3]";
        Fixtures.exchange "GET" "https://api.example.com/v1/users?page=3" "[4,5]"]
       false)
  = inr (ProcessedApiData.mk "GET" "https://api.example.com/v1/users?page=2"
           "[2,3]" [("page", "2")] []).
Proof. vm_compute. reflexivity. Qed.

(** The scenario of the specification: two block requests to one path merge
    into one endpoint that has the longer body and the query parameters of
    the exchange it came from. *)
Example merge_two_block_requests :
  DataProcessor.processNetworkLogs Fixtures.newURL 0 Fixtures.defaults
    [Fixtures.banner; Fixtures.hero]
  = DataProcessingResult.mk true
      [ProcessedApiData.mk "GET"
         "https://api.example.com/v1/blocks?keys=home.hero" "[1,2]"
         [("keys", "home.hero")] []]
      2 1 1 None.
Proof. vm_compute. reflexivity. Qed.

Lemma group_flag_spec (newURL : string -> option URL.t)
    (logs : NetworkLogCollection) (k : string) :
  EndpointMergeInfo.isBffBlockApi (groupOf newURL logs k) = true <->
  exists log, In log (EndpointMergeInfo.logs (groupOf newURL logs k))
    /\ DataProcessor.isBffBlockApiPattern newURL log = true.
Proof.
  simpl. apply existsb_exists.
Qed.

(** C1 (as the code has it).  A [ProcessedApiData] has the fields [method],
    [url], [responseBody], [queryParams] and [pathParams], and no block
    flag.  When duplicates are merged the flag lives on the internal group
    each endpoint is merged from: it is true exactly when some exchange of
    the group matches the classifier.  When duplicates are not merged no
    groups are formed, and each endpoint is built from its own exchange
    alone. *)
Theorem processNetworkLogs_block_flag (newURL : string -> option URL.t)
    (now : Z) (options : Options.t) (logs : NetworkLogCollection) :
  logs <> [] ->
  let filteredLogs := DataProcessor.filterAndPrioritizeLogs newURL options logs in
  let result := DataProcessor.processNetworkLogs newURL now options logs in
  (Options.mergeDuplicates options = true ->
   let groups :=
     JsMap.values (DataProcessor.groupLogsByEndpoint newURL filteredLogs) in
   Forall2 (fun g p => DataProcessor.mergeEndpointLogs newURL now g = inr p)
     groups (DataProcessingResult.processedData result)
   /\ (forall g, In g groups ->
         (EndpointMergeInfo.isBffBlockApi g = true <->
          exists log, In log (EndpointMergeInfo.logs g)
            /\ DataProcessor.isBffBlockApiPattern newURL log = true)))
  /\ (Options.mergeDuplicates options = false ->
      DataProcessingResult.processedData result
      = map (DataProcessor.processLogEntry newURL) filteredLogs).
Proof.
  intros Hne filteredLogs result. split; intros Hmerge.
  - destruct (@processNetworkLogs_merged newURL now options logs Hne Hmerge)
      as [pd [Hres [Hgroups HF]]].
    fold filteredLogs in Hres, Hgroups, HF. fold result in Hres.
    intros groups. rewrite Hres. simpl. split.
    + revert HF. apply Forall2_impl_In. now intros g p _ [H _].
    + intros g Hg. fold groups in Hgroups. rewrite Hgroups in Hg.
      apply in_map_iff in Hg as [k [<- _]]. apply group_flag_spec.
  - unfold result.
    now rewrite (@processNetworkLogs_unmerged newURL now options logs Hne Hmerge).
Qed.

Lemma processNetworkLogs_block_flag_witness :
  EndpointMergeInfo.isBffBlockApi Fixtures.blocksGroup = true <->
  exists log,
    In log (EndpointMergeInfo.logs Fixtures.blocksGroup)
    /\ DataProcessor.isBffBlockApiPattern Fixtures.newURL log = true.
Proof.
  assert (Hne : Fixtures.traffic <> []) by (unfold Fixtures.traffic; discriminate).
  destruct (@processNetworkLogs_block_flag Fixtures.newURL 0 Fixtures.defaults
              Fixtures.traffic Hne) as [Hmerged _].
  destruct (Hmerged eq_refl) as [_ Hflag].
  apply Hflag. vm_compute. left. reflexivity.
Defined.

(** C1 as stated fails.  The group of [banner] and [listing] matches the
    classifier through [banner], the group of [listing] alone does not, and
    both merge into the same endpoint, the one built from [listing]: no
    boolean read off an output endpoint is the disjunction over its
    group. *)
Lemma endpoint_carries_no_group_flag :
  ~ exists isBlockApi : ProcessedApiData.t -> bool,
      forall logs,
        Forall2
          (fun g p =>
             isBlockApi p
             = existsb (DataProcessor.isBffBlockApiPattern Fixtures.newURL)
                 (EndpointMergeInfo.logs g))
          (JsMap.values
             (DataProcessor.groupLogsByEndpoint Fixtures.newURL
                (DataProcessor.filterAndPrioritizeLogs Fixtures.newURL
                   Fixtures.defaults logs)))
          (DataProcessingResult.processedData
             (DataProcessor.processNetworkLogs Fixtures.newURL 0
                Fixtures.defaults logs)).
Proof.
  intros [isBlockApi H].
  pose proof (H [Fixtures.banner; Fixtures.listing]) as HA.
  pose proof (H [Fixtures.listing]) as HB.
  vm_compute in HA, HB.
  inversion HA as [|? ? ? ? HA1 _]; subst.
  inversion HB as [|? ? ? ? HB1 _]; subst.
  congruence.
Qed.

(** The same on the values: one endpoint, two different group flags. *)
Example same_endpoint_two_flags :
  DataProcessingResult.processedData
    (DataProcessor.processNetworkLogs Fixtures.newURL 0 Fixtures.defaults
       [Fixtures.banner; Fixtures.listing])
  = DataProcessingResult.processedData
      (DataProcessor.processNetworkLogs Fixtures.newURL 0 Fixtures.defaults
         [Fixtures.listing])
  /\ map EndpointMergeInfo.isBffBlockApi
       (JsMap.values
          (DataProcessor.groupLogsByEndpoint Fixtures.newURL
             [Fixtures.banner; Fixtures.listing])) = [true]
  /\ map EndpointMergeInfo.isBffBlockApi
       (JsMap.values
          (DataProcessor.groupLogsByEndpoint Fixtures.newURL
             [Fixtures.listing])) = [false].
Proof. vm_compute. repeat split. Qed.

Lemma blockFirst_length (newURL : string -> option URL.t)
    (logs : NetworkLogCollection) :
  List.length (blockFirst newURL logs) = List.length logs.
Proof.
  unfold blockFirst. rewrite length_app.
  induction logs as [|x logs IH]; simpl; [reflexivity|].
  destruct (DataProcessor.isBffBlockApiPattern newURL x); simpl; lia.
Qed.

Lemma firstSeen_length (keys : list string) :
  List.length (firstSeen keys) <= List.length keys.
Proof.
  induction keys as [|x keys IH] using rev_ind; [apply Nat.le_refl|].
  rewrite firstSeen_snoc, length_app. simpl.
  destruct (existsb (String.eqb x) (firstSeen keys)).
  - lia.
  - rewrite length_app. simpl. lia.
Qed.

Lemma constructor_defaults :
  DataProcessor.constructor (DataProcessingOptions.mk None None None None)
  = Options.mk true true 50 false.
Proof. reflexivity. Qed.

Lemma nil_or_not {A} (l : list A) : l = [] \/ l <> [].
Proof.
  destruct l; [now left | right; discriminate].
Qed.

(** The shape of every result of [processNetworkLogs]. *)
Lemma processNetworkLogs_shape (newURL : string -> option URL.t)
    (now : Z) (options : Options.t) (logs : NetworkLogCollection) :
  exists processedData bffApiCount,
    DataProcessor.processNetworkLogs_try newURL now options logs
    = inr (DataProcessingResult.mk true processedData (List.length logs)
             bffApiCount (List.length processedData) None)
    /\ List.length processedData
       <= List.length (DataProcessor.filterAndPrioritizeLogs newURL options logs)
    /\ forall p, In p processedData ->
         exists r, p = DataProcessor.processLogEntry newURL r.
Proof.
  destruct (nil_or_not logs) as [-> | Hne].
  { exists [], 0. repeat split; [apply Nat.le_0_l | intros p []]. }
  destruct (Options.mergeDuplicates options) eqn:Hmerge.
  - destruct (@processNetworkLogs_merged newURL now options logs Hne Hmerge)
      as [pd [Hres [Hgroups HF]]].
    exists pd. eexists. split; [|split].
    + unfold DataProcessor.processNetworkLogs in Hres.
      destruct (DataProcessor.processNetworkLogs_try newURL now options logs)
        as [t|result]; [discriminate Hres | now rewrite Hres].
    + rewrite <- (Forall2_length_eq HF), Hgroups, length_map.
      unfold identities.
      rewrite <- (length_map (DataProcessor.createEndpointKey newURL)
                    (DataProcessor.filterAndPrioritizeLogs newURL options logs)).
      apply firstSeen_length.
    + intros p Hp.
      destruct (Forall2_In_r p HF Hp) as [g [_ [_ [r [_ Hr]]]]]. now exists r.
  - pose proof (@processNetworkLogs_unmerged newURL now options logs Hne Hmerge)
      as Hres.
    eexists. eexists. split; [|split].
    + unfold DataProcessor.processNetworkLogs in Hres.
      destruct (DataProcessor.processNetworkLogs_try newURL now options logs)
        as [t|result]; [discriminate Hres | now rewrite Hres].
    + now rewrite length_map.
    + intros p Hp. apply in_map_iff in Hp as [r [<- _]]. now exists r.
Qed.

(** C3.  [filterAndPrioritizeLogs] first reorders, then caps.  With
    [prioritizeBffApis] the list becomes the stable partition [blockFirst]:
    the block-API exchanges in their original order, followed by the others
    in their original order.  With [maxApis > 0] the list so ordered is cut
    to its first [maxApis] entries; with [maxApis = 0] nothing is cut.
    Grouping and merging then run on the capped list: the output has one
    endpoint per identity of the capped list (or per exchange of it, without
    merging), so the cap bounds the exchanges worked on and the number of
    endpoints can only be smaller. *)
Theorem filterAndPrioritizeLogs_then_group (newURL : string -> option URL.t)
    (now : Z) (options : Options.t) (logs : NetworkLogCollection) :
  let ordered :=
    if Options.prioritizeBffApis options then blockFirst newURL logs else logs in
  let filteredLogs := DataProcessor.filterAndPrioritizeLogs newURL options logs in
  let result := DataProcessor.processNetworkLogs newURL now options logs in
  filteredLogs
  = (if (Options.maxApis options >? 0)%Z
     then firstn (Z.to_nat (Options.maxApis options)) ordered
     else ordered)
  /\ ((Options.maxApis options > 0)%Z ->
      List.length filteredLogs
      = Nat.min (Z.to_nat (Options.maxApis options)) (List.length logs))
  /\ (Options.maxApis options = 0%Z ->
      filteredLogs = ordered /\ List.length filteredLogs = List.length logs)
  /\ (logs <> [] -> Options.mergeDuplicates options = true ->
      Forall2
        (fun k p =>
           exists r, IsRepresentative (membersOf newURL k filteredLogs) r
             /\ p = DataProcessor.processLogEntry newURL r)
        (identities newURL filteredLogs)
        (DataProcessingResult.processedData result))
  /\ (logs <> [] -> Options.mergeDuplicates options = false ->
      DataProcessingResult.processedData result
      = map (DataProcessor.processLogEntry newURL) filteredLogs)
  /\ DataProcessingResult.uniqueEndpoints result <= List.length filteredLogs.
Proof.
  intros ordered filteredLogs result.
  assert (Hspec : filteredLogs
            = if (Options.maxApis options >? 0)%Z
              then firstn (Z.to_nat (Options.maxApis options)) ordered
              else ordered)
    by apply filterAndPrioritizeLogs_spec.
  assert (Hordered : List.length ordered = List.length logs).
  { unfold ordered. destruct (Options.prioritizeBffApis options);
      [apply blockFirst_length | reflexivity]. }
  split; [exact Hspec|]. split; [|split; [|split; [|split]]].
  - intros Hpos. rewrite Hspec.
    destruct (Z.gtb_spec (Options.maxApis options) 0); [|lia].
    now rewrite length_firstn, Hordered.
  - intros Hzero. rewrite Hspec, Hzero. simpl. auto.
  - intros Hne Hmerge.
    destruct (@processNetworkLogs_merged newURL now options logs Hne Hmerge)
      as [pd [Hres [Hgroups HF]]].
    fold filteredLogs in Hres, Hgroups, HF. fold result in Hres.
    rewrite Hres. simpl. rewrite Hgroups in HF.
    apply Forall2_map_l in HF. revert HF.
    apply Forall2_impl_In. now intros k p _ [_ H].
  - intros Hne Hmerge. unfold result.
    now rewrite (@processNetworkLogs_unmerged newURL now options logs Hne Hmerge).
  - destruct (processNetworkLogs_shape newURL now options logs)
      as [pd [count [Htry [Hlen _]]]].
    unfold result, DataProcessor.processNetworkLogs. now rewrite Htry.
Qed.

Lemma filterAndPrioritizeLogs_then_group_witness :
  List.length
    (DataProcessor.filterAndPrioritizeLogs Fixtures.newURL
       (Options.mk true true 2 false)
       [Fixtures.users; Fixtures.banner; Fixtures.listing; Fixtures.hero])
  = Nat.min (Z.to_nat 2) 4.
Proof.
  apply (@filterAndPrioritizeLogs_then_group Fixtures.newURL 0
           (Options.mk true true 2 false)
           [Fixtures.users; Fixtures.banner; Fixtures.listing; Fixtures.hero]).
  simpl. lia.
Defined.

(** Capping before grouping: of four exchanges over two identities, the cap
    of two keeps the two block requests, which share one identity, and the
    result has a single endpoint. *)
Example cap_before_group :
  DataProcessor.filterAndPrioritizeLogs Fixtures.newURL
    (Options.mk true true 2 false)
    [Fixtures.users; Fixtures.banner; Fixtures.listing; Fixtures.hero]
  = [Fixtures.banner; Fixtures.hero]
  /\ DataProcessor.processNetworkLogs Fixtures.newURL 0
       (Options.mk true true 2 false)
       [Fixtures.users; Fixtures.banner; Fixtures.listing; Fixtures.hero]
     = DataProcessingResult.mk true
         [ProcessedApiData.mk "GET"
            "https://api.example.com/v1/blocks?keys=home.hero" "[1,2]"
            [("keys", "home.hero")] []]
         4 1 1 None.
Proof. vm_compute. split; reflexivity. Qed.

Lemma filterAndPrioritizeLogs_nil (newURL : string -> option URL.t)
    (options : Options.t) :
  DataProcessor.filterAndPrioritizeLogs newURL options [] = [].
Proof.
  rewrite filterAndPrioritizeLogs_spec. cbv zeta.
  destruct (Options.prioritizeBffApis options),
    (Options.maxApis options >? 0)%Z;
    unfold blockFirst; simpl; now rewrite ?firstn_nil.
Qed.

Lemma extractQueryParams_unparsed (newURL : string -> option URL.t)
    (url : string) :
  newURL url = None -> DataProcessor.extractQueryParams newURL url = [].
Proof.
  intros H. unfold DataProcessor.extractQueryParams, tryURL. now rewrite H.
Qed.

(** Every exchange of [logs] has its identity among [identities logs]. *)
Lemma identities_cover (newURL : string -> option URL.t)
    (logs : NetworkLogCollection) (e : NetworkLogEntry.t) :
  In e logs ->
  In (DataProcessor.createEndpointKey newURL e) (identities newURL logs).
Proof.
  intros He. unfold identities.
  apply (firstSeen_In newURL). apply in_map_iff. now exists e.
Qed.

Lemma Forall2_In_l {A B} (R : A -> B -> Prop) (l : list A) (l' : list B)
    (a : A) :
  Forall2 R l l' -> In a l -> exists b, In b l' /\ R a b.
Proof.
  induction 1 as [|a' b l l' Hab HF IH]; intros Hin; [contradiction|].
  destruct Hin as [<- | Hin].
  - exists b. split; [now left | assumption].
  - destruct (IH Hin) as [b' [Hb' HR]]. exists b'. split; [now right | assumption].
Qed.

Lemma membersOf_In (newURL : string -> option URL.t) (key : string)
    (logs : NetworkLogCollection) (r : NetworkLogEntry.t) :
  In r (membersOf newURL key logs) ->
  In r logs /\ DataProcessor.createEndpointKey newURL r = key.
Proof.
  unfold membersOf. intros H. apply filter_In in H as [Hin Heq].
  split; [assumption | now apply String.eqb_eq].
Qed.

(** C7.  [processNetworkLogs] returns a result for every input: its [try]
    block never throws, so [success] is always [true].  On the empty list
    the result is the empty collection with zero counts, whatever the
    options.  No exchange is given up for the quality of its data.  With
    merging, the output has one endpoint for each identity of the capped
    list, in first-seen order, built from the representative of the
    identity's exchanges; without merging it has one endpoint for each
    exchange of the capped list, in order.  So every exchange of the capped
    list, whether its URL parses or not, is answered by the endpoint of its
    identity.  Every endpoint's [queryParams] is extracted from the
    endpoint's own URL, which is the URL of the chosen representative, and
    is the empty record when that URL does not parse. *)
Theorem processNetworkLogs_never_fails (newURL : string -> option URL.t)
    (now : Z) (options : Options.t) (logs : NetworkLogCollection) :
  let filteredLogs := DataProcessor.filterAndPrioritizeLogs newURL options logs in
  let result := DataProcessor.processNetworkLogs newURL now options logs in
  DataProcessor.processNetworkLogs newURL now options []
  = DataProcessingResult.mk true [] 0 0 0 None
  /\ (exists returned,
        DataProcessor.processNetworkLogs_try newURL now options logs
        = inr returned)
  /\ DataProcessingResult.success result = true
  /\ (Options.mergeDuplicates options = true ->
      Forall2
        (fun key p =>
           exists r,
             IsRepresentative (membersOf newURL key filteredLogs) r
             /\ p = DataProcessor.processLogEntry newURL r
             /\ (newURL (DataProcessor.requestUrl r) = None ->
                 ProcessedApiData.queryParams p = []))
        (identities newURL filteredLogs)
        (DataProcessingResult.processedData result))
  /\ (Options.mergeDuplicates options = false ->
      Forall2
        (fun r p =>
           p = DataProcessor.processLogEntry newURL r
           /\ (newURL (DataProcessor.requestUrl r) = None ->
               ProcessedApiData.queryParams p = []))
        filteredLogs (DataProcessingResult.processedData result))
  /\ (forall e,
        In e filteredLogs ->
        exists r,
          In r filteredLogs
          /\ DataProcessor.createEndpointKey newURL r
             = DataProcessor.createEndpointKey newURL e
          /\ In (DataProcessor.processLogEntry newURL r)
               (DataProcessingResult.processedData result)
          /\ (newURL (DataProcessor.requestUrl r) = None ->
              ProcessedApiData.queryParams
                (DataProcessor.processLogEntry newURL r) = []))
  /\ (forall p,
        In p (DataProcessingResult.processedData result) ->
        ProcessedApiData.queryParams p
        = DataProcessor.extractQueryParams newURL (ProcessedApiData.url p)
        /\ (newURL (ProcessedApiData.url p) = None ->
            ProcessedApiData.queryParams p = []))
  /\ (forall url, newURL url = None ->
        DataProcessor.extractQueryParams newURL url = []).
Proof.
  intros filteredLogs result.
  assert (Hparams : forall r,
            newURL (DataProcessor.requestUrl r) = None ->
            ProcessedApiData.queryParams
              (DataProcessor.processLogEntry newURL r) = []).
  { intros r H. simpl. now apply extractQueryParams_unparsed. }
  assert (Hmerged : Options.mergeDuplicates options = true ->
            Forall2
              (fun key p =>
                 exists r,
                   IsRepresentative (membersOf newURL key filteredLogs) r
                   /\ p = DataProcessor.processLogEntry newURL r
                   /\ (newURL (DataProcessor.requestUrl r) = None ->
                       ProcessedApiData.queryParams p = []))
              (identities newURL filteredLogs)
              (DataProcessingResult.processedData result)).
  { intros Hmerge. destruct (nil_or_not logs) as [Hnil | Hne].
    - unfold result, filteredLogs. rewrite Hnil.
      rewrite filterAndPrioritizeLogs_nil. constructor.
    - destruct (@processNetworkLogs_merged newURL now options logs Hne Hmerge)
        as [pd [Hres [Hgroups HF]]].
      fold filteredLogs in Hres, Hgroups, HF. fold result in Hres.
      rewrite Hres. simpl. rewrite Hgroups in HF.
      apply Forall2_map_l in HF. revert HF.
      apply Forall2_impl_In. intros k p _ [_ [r [Hrep ->]]].
      exists r. split; [exact Hrep|]. split; [reflexivity | apply Hparams]. }
  assert (Hunmerged : Options.mergeDuplicates options = false ->
            DataProcessingResult.processedData result
            = map (DataProcessor.processLogEntry newURL) filteredLogs).
  { intros Hmerge. destruct (nil_or_not logs) as [Hnil | Hne].
    - unfold result, filteredLogs. rewrite Hnil.
      now rewrite filterAndPrioritizeLogs_nil.
    - unfold result.
      now rewrite (@processNetworkLogs_unmerged newURL now options logs Hne
                     Hmerge). }
  destruct (processNetworkLogs_shape newURL now options logs)
    as [pd [count [Htry [_ Hshape]]]].
  split; [reflexivity|]. split; [now exists
    (DataProcessingResult.mk true pd (List.length logs) count
       (List.length pd) None)|].
  split; [unfold result, DataProcessor.processNetworkLogs; now rewrite Htry|].
  split; [exact Hmerged|]. split; [|split; [|split]].
  - intros Hmerge. rewrite (Hunmerged Hmerge).
    clear. induction filteredLogs as [|r l IH]; simpl; constructor;
      [|exact IH].
    split; [reflexivity|]. intros H. simpl.
    now apply extractQueryParams_unparsed.
  - intros e He. destruct (Options.mergeDuplicates options) eqn:Hmerge.
    + destruct (Forall2_In_l (DataProcessor.createEndpointKey newURL e)
                  (Hmerged eq_refl) (identities_cover newURL _ _ He))
        as [p [Hp [r [Hrep [-> _]]]]].
      assert (Hmember : In r (membersOf newURL
                                (DataProcessor.createEndpointKey newURL e)
                                filteredLogs)).
      { destruct Hrep as [earlier [later [Heq _]]]. rewrite Heq. apply in_elt. }
      apply membersOf_In in Hmember as [Hin Hkey].
      exists r. repeat split; auto.
    + exists e. split; [exact He|]. split; [reflexivity|].
      split; [|apply Hparams].
      rewrite (Hunmerged eq_refl). now apply in_map.
  - intros p Hp. unfold result, DataProcessor.processNetworkLogs in Hp.
    rewrite Htry in Hp. simpl in Hp.
    destruct (Hshape p Hp) as [r ->]. simpl.
    split; [reflexivity | apply extractQueryParams_unparsed].
  - apply extractQueryParams_unparsed.
Qed.

Lemma processNetworkLogs_never_fails_witness :
  exists r,
    In r [Fixtures.broken]
    /\ In (DataProcessor.processLogEntry Fixtures.newURL r)
         (DataProcessingResult.processedData
            (DataProcessor.processNetworkLogs Fixtures.newURL 0
               Fixtures.defaults [Fixtures.broken]))
    /\ ProcessedApiData.queryParams
         (DataProcessor.processLogEntry Fixtures.newURL r) = [].
Proof.
  destruct (processNetworkLogs_never_fails Fixtures.newURL 0 Fixtures.defaults
              [Fixtures.broken]) as [_ [_ [_ [_ [_ [Hkept _]]]]]].
  destruct (Hkept Fixtures.broken) as [r [Hin [_ [Hout Hparams]]]].
  - vm_compute. left. reflexivity.
  - exists r. split; [exact Hin|]. split; [exact Hout|].
    apply Hparams. vm_compute in Hin. destruct Hin as [<- | []].
    reflexivity.
Defined.

(** An exchange whose URL does not parse, alone in the list: the result
    has its endpoint, without query parameters. *)
Example unparseable_exchange_is_kept :
  DataProcessor.processNetworkLogs Fixtures.newURL 0 Fixtures.defaults
    [Fixtures.broken]
  = DataProcessingResult.mk true
      [ProcessedApiData.mk "GET" "not a url" "[]" [] []]
      1 0 1 None.
Proof. vm_compute. reflexivity. Qed.

(** An exchange whose URL does not parse is normalized all the same: it is
    its own group, and its endpoint has no query parameters. *)
Example broken_url_is_normalized :
  DataProcessor.processNetworkLogs Fixtures.newURL 0 Fixtures.defaults
    [Fixtures.broken; Fixtures.users; Fixtures.broken]
  = DataProcessingResult.mk true
      [ProcessedApiData.mk "GET" "not a url" "[]" [] [];
       ProcessedApiData.mk "GET" "https://api.example.com/v1/users" "[7]" [] []]
      3 0 2 None.
Proof. vm_compute. reflexivity. Qed.

(** C10.  In every result of [processNetworkLogs], [uniqueEndpoints] is the
    length of [processedData] and [totalLogs] is the length of the input.
    The result is what the [try] block returns or, had it thrown, what the
    [catch] block builds: [success = false], no endpoints, both counts zero,
    [totalLogs] still the length of the input, and the message of the
    error. *)
Theorem processNetworkLogs_counts (newURL : string -> option URL.t)
    (now : Z) (options : Options.t) (logs : NetworkLogCollection) :
  let result := DataProcessor.processNetworkLogs newURL now options logs in
  DataProcessingResult.uniqueEndpoints result
  = List.length (DataProcessingResult.processedData result)
  /\ DataProcessingResult.totalLogs result = List.length logs
  /\ result
     = match DataProcessor.processNetworkLogs_try newURL now options logs with
       | inr returned => returned
       | inl error => DataProcessor.processNetworkLogs_catch logs error
       end
  /\ (forall error,
        DataProcessor.processNetworkLogs_catch logs error
        = DataProcessingResult.mk false [] (List.length logs) 0 0
            (Some (errorMessage error))).
Proof.
  intros result. unfold result.
  destruct (processNetworkLogs_shape newURL now options logs)
    as [pd [count [Htry _]]].
  unfold DataProcessor.processNetworkLogs. rewrite Htry. simpl.
  repeat split.
Qed.

(** ** The capture session *)

Section Session.

Variable newURL : string -> option URL.t.
Variable surface : Surface.t.
Variable allowedHosts : list string.

Local Abbreviation State := BrowserController.State.
Local Abbreviation pending := BrowserController.pending.
Local Abbreviation capturedLogs := BrowserController.capturedLogs.
Local Abbreviation isCapturing := BrowserController.isCapturing.
Local Abbreviation runEvents :=
  (BrowserController.runEvents newURL surface allowedHosts).

Lemma removeNth_In {A} (k : nat) (l : list A) (x : A) :
  In x (BrowserController.removeNth k l) -> In x l.
Proof.
  revert k. induction l as [|a l IH]; intros k; destruct k; simpl; auto.
  intros [-> | H]; eauto.
Qed.

Lemma removeNth_map {A B} (f : A -> B) (k : nat) (l : list A) :
  map f (BrowserController.removeNth k l)
  = BrowserController.removeNth k (map f l).
Proof.
  revert k. induction l as [|a l IH]; intros k; destruct k; simpl; auto.
  now rewrite IH.
Qed.

(** While nothing is captured and no listener is suspended, the events of
    the page leave the controller as it is. *)
Lemma runEvents_idle (evs : list SurfaceEvent) (s : State) :
  isCapturing s = false -> pending s = [] ->
  runEvents evs s = (inr tt, s).
Proof.
  intros Hcap Hpend. induction evs as [|ev evs IH]; [reflexivity|].
  simpl. unfold BrowserController.mbind at 1.
  assert (Hev : BrowserController.onSurfaceEvent newURL surface allowedHosts ev s
                = (inr tt, s)).
  { destruct ev as [r | k]; simpl;
      unfold BrowserController.mbind, BrowserController.get; simpl.
    - now rewrite Hcap.
    - rewrite Hpend. now destruct k. }
  now rewrite Hev.
Qed.

(** During the capture window every event returns, and the entries appended
    are those of the accepted responses, in order. *)
Lemma runEvents_capturing (evs : list SurfaceEvent) (s : State) :
  isCapturing s = true -> PendingOK s ->
  exists s' newLogs,
    runEvents evs s = (inr tt, s')
    /\ isCapturing s' = true
    /\ BrowserController.browser s' = BrowserController.browser s
    /\ BrowserController.context s' = BrowserController.context s
    /\ BrowserController.page s' = BrowserController.page s
    /\ capturedLogs s' = (capturedLogs s ++ newLogs)%list
    /\ Forall2 (IsEntryOf newURL)
         (acceptedResponses newURL allowedHosts (map fst (pending s)) evs)
         newLogs.
Proof.
  revert s. induction evs as [|ev evs IH]; intros s Hcap Hpend.
  - exists s, []. simpl. split; [reflexivity|]. split; [assumption|].
    repeat (split; [reflexivity|]).
    split; [now rewrite app_nil_r | constructor].
  - simpl. unfold BrowserController.mbind at 1.
    destruct ev as [r | k]; simpl.
    + unfold BrowserController.mbind at 1, BrowserController.get at 1.
      rewrite Hcap. simpl.
      unfold BrowserController.processNetworkResponse_request.
      destruct (BrowserController.shouldCaptureResponse newURL allowedHosts r);
        simpl.
      * unfold BrowserController.mbind, BrowserController.dateNow,
          BrowserController.get, BrowserController.setPending,
          BrowserController.modify, BrowserController.mret. simpl.
        match goal with
        | |- context [runEvents evs ?s1] =>
            destruct (IH s1) as [s' [newLogs H]]
        end.
        { exact Hcap. }
        { unfold PendingOK. simpl. apply Forall_app. split; [exact Hpend|].
          repeat constructor. }
        simpl in H. rewrite map_app in H. simpl in H.
        exists s', newLogs. exact H.
      * unfold BrowserController.mret.
        destruct (IH s Hcap Hpend) as [s' [newLogs H]].
        exists s', newLogs. exact H.
    + unfold BrowserController.mbind at 1, BrowserController.get at 1.
      rewrite nth_error_map.
      destruct (nth_error (pending s) k) as [[r req]|] eqn:Hk; simpl.
      * unfold BrowserController.mbind, BrowserController.dateNow,
          BrowserController.get, BrowserController.setPending,
          BrowserController.setLogCounter, BrowserController.setCapturedLogs,
          BrowserController.modify, BrowserController.mret,
          BrowserController.processNetworkResponse_body. simpl.
        unfold BrowserController.mbind, BrowserController.dateNow,
          BrowserController.get, BrowserController.setPending,
          BrowserController.setLogCounter, BrowserController.setCapturedLogs,
          BrowserController.modify, BrowserController.mret. simpl.
        match goal with
        | |- context [runEvents evs ?s1] =>
            destruct (IH s1) as [s' [newLogs H]]
        end.
        { exact Hcap. }
        { unfold PendingOK in *. simpl. apply Forall_forall.
          intros x Hx. apply removeNth_In in Hx.
          now apply (proj1 (Forall_forall _ _) Hpend). }
        simpl in H. rewrite removeNth_map in H.
        destruct H as [Hrun [Hc [Hb [Hx [Hp [Hlogs HF]]]]]].
        eexists s', (_ :: newLogs). rewrite Hrun.
        split; [reflexivity|]. repeat (split; [assumption|]).
        split.
        { rewrite Hlogs, <- app_assoc. reflexivity. }
        constructor; [|exact HF].
        apply nth_error_In in Hk.
        apply (proj1 (Forall_forall _ _) Hpend) in Hk. simpl in Hk.
        destruct Hk as [Hurl Hmethod].
        unfold IsEntryOf. simpl. repeat split; assumption.
      * unfold BrowserController.mret.
        destruct (IH s Hcap Hpend) as [s' [newLogs H]].
        exists s', newLogs. exact H.
Qed.

End Session.

Section SessionResult.

Variable newURL : string -> option URL.t.
Variable surface : Surface.t.
Variable allowedHosts : list string.

Local Abbreviation mkState := BrowserController.mkState.

Lemma mbind_returns {A B} (c : BrowserController.M A)
    (k : A -> BrowserController.M B) (s s' : BrowserController.State) (a : A) :
  c s = (inr a, s') -> BrowserController.mbind c k s = k a s'.
Proof.
  intros H. unfold BrowserController.mbind. now rewrite H.
Qed.

Lemma mbind_throws {A B} (c : BrowserController.M A)
    (k : A -> BrowserController.M B) (s s' : BrowserController.State)
    (t : Thrown) :
  c s = (inl t, s') -> BrowserController.mbind c k s = (inl t, s').
Proof.
  intros H. unfold BrowserController.mbind. now rewrite H.
Qed.

Lemma initializeBrowser_returns (s : BrowserController.State) :
  Surface.launch surface = inr tt ->
  Surface.newContext surface = inr tt ->
  Surface.newPage surface = inr tt ->
  BrowserController.initializeBrowser surface s
  = (inr tt,
     mkState true true true (BrowserController.capturedLogs s)
       (BrowserController.isCapturing s) (BrowserController.logCounter s)
       (BrowserController.ticks s) (BrowserController.pending s)).
Proof.
  intros Hl Hc Hp.
  unfold BrowserController.initializeBrowser, BrowserController.tryCatch,
    BrowserController.mbind, BrowserController.await.
  rewrite Hl, Hc, Hp. reflexivity.
Qed.

Lemma initializeBrowser_throws (s : BrowserController.State) :
  ~ (Surface.launch surface = inr tt
     /\ Surface.newContext surface = inr tt
     /\ Surface.newPage surface = inr tt) ->
  exists e s', BrowserController.initializeBrowser surface s
               = (inl (ThrownApp e), s').
Proof.
  intros Hnot.
  unfold BrowserController.initializeBrowser, BrowserController.tryCatch,
    BrowserController.mbind, BrowserController.await.
  destruct (Surface.launch surface) as [t|[]]; simpl;
    [eexists; eexists; reflexivity|].
  destruct (Surface.newContext surface) as [t|[]]; simpl;
    [eexists; eexists; reflexivity|].
  destruct (Surface.newPage surface) as [t|[]]; simpl;
    [eexists; eexists; reflexivity|].
  exfalso. apply Hnot. auto.
Qed.

Lemma navigateToUrl_returns (url : string) (s : BrowserController.State) :
  BrowserController.page s = true ->
  BrowserController.isCapturing s = false ->
  BrowserController.pending s = [] ->
  newURL url <> None ->
  Surface.goto surface = inr tt ->
  BrowserController.navigateToUrl newURL surface allowedHosts url s = (inr tt, s).
Proof.
  intros Hpage Hcap Hpend Hurl Hgoto.
  unfold BrowserController.navigateToUrl.
  unfold BrowserController.mbind at 1, BrowserController.get at 1.
  rewrite Hpage. simpl.
  unfold BrowserController.tryCatch, BrowserController.mbind,
    BrowserController.await, tryURL.
  destruct (newURL url) as [u|]; [|congruence]. simpl.
  rewrite (@runEvents_idle newURL surface allowedHosts _ s Hcap Hpend).
  now rewrite Hgoto.
Qed.

Lemma navigateToUrl_throws (url : string) (s : BrowserController.State) :
  BrowserController.page s = true ->
  BrowserController.isCapturing s = false ->
  BrowserController.pending s = [] ->
  ~ (newURL url <> None /\ Surface.goto surface = inr tt) ->
  exists e s', BrowserController.navigateToUrl newURL surface allowedHosts url s
               = (inl (ThrownApp e), s').
Proof.
  intros Hpage Hcap Hpend Hnot.
  unfold BrowserController.navigateToUrl.
  unfold BrowserController.mbind at 1, BrowserController.get at 1.
  rewrite Hpage. simpl.
  unfold BrowserController.tryCatch, BrowserController.mbind,
    BrowserController.await, tryURL.
  destruct (newURL url) as [u|] eqn:Hu; simpl;
    [|eexists; eexists; reflexivity].
  rewrite (@runEvents_idle newURL surface allowedHosts _ s Hcap Hpend).
  destruct (Surface.goto surface) as [t|[]]; simpl;
    [eexists; eexists; reflexivity|].
  exfalso. apply Hnot. split; congruence.
Qed.

(** [cleanup] swallows whatever closing the browser throws. *)
Lemma cleanup_returns (s : BrowserController.State) :
  exists s', BrowserController.cleanup surface s = (inr tt, s').
Proof.
  unfold BrowserController.cleanup, BrowserController.tryCatch,
    BrowserController.mbind, BrowserController.await,
    BrowserController.get, BrowserController.setIsCapturing,
    BrowserController.setPage, BrowserController.setContext,
    BrowserController.setBrowser, BrowserController.modify,
    BrowserController.mret.
  simpl.
  destruct (BrowserController.page s); simpl;
    [destruct (Surface.pageClose surface) as [t|[]]; simpl;
       [eexists; reflexivity|]|];
    (destruct (BrowserController.context s); simpl;
       [destruct (Surface.contextClose surface) as [t|[]]; simpl;
          [eexists; reflexivity|]|]);
    (destruct (BrowserController.browser s); simpl;
       [destruct (Surface.browserClose surface) as [t|[]]; simpl|]);
    eexists; reflexivity.
Qed.

Lemma initializes_or_not :
  (Surface.launch surface = inr tt
   /\ Surface.newContext surface = inr tt
   /\ Surface.newPage surface = inr tt)
  \/ ~ (Surface.launch surface = inr tt
        /\ Surface.newContext surface = inr tt
        /\ Surface.newPage surface = inr tt).
Proof.
  destruct (Surface.launch surface) as [t|[]];
    [right; intros [H _]; discriminate|].
  destruct (Surface.newContext surface) as [t|[]];
    [right; intros [_ [H _]]; discriminate|].
  destruct (Surface.newPage surface) as [t|[]];
    [right; intros [_ [_ H]]; discriminate|].
  left. auto.
Qed.

Lemma entries_block_count (rs : list Response.t) (logs : list NetworkLogEntry.t) :
  Forall2 (IsEntryOf newURL) rs logs ->
  List.length (filter NetworkLogEntry.isBffBlockApi logs)
  = List.length
      (filter (fun r => BrowserController.isBffBlockApiPattern newURL
                          (Response.url r)) rs).
Proof.
  induction 1 as [|r log rs logs [_ [_ [_ Hflag]]] HF IH]; simpl; [reflexivity|].
  rewrite Hflag.
  destruct (BrowserController.isBffBlockApiPattern newURL (Response.url r));
    simpl; now rewrite IH.
Qed.

(** When the browser starts and reaches the page, the [try] block returns
    the entries of the accepted responses with their counts. *)
Lemma captureNetworkLogs_try_returns (url : string) (s0 : BrowserController.State) :
  BrowserController.pending s0 = [] ->
  Starts newURL surface url ->
  exists logs s1,
    BrowserController.captureNetworkLogs_try newURL surface allowedHosts url s0
    = (inr (NetworkCaptureResult.mk true logs (List.length logs)
              (List.length (filter NetworkLogEntry.isBffBlockApi logs)) None),
       s1)
    /\ Forall2 (IsEntryOf newURL)
         (acceptedResponses newURL allowedHosts []
            (Surface.duringCapture surface))
         logs.
Proof.
  intros Hpend [Hl [Hc [Hp [Hurl Hgoto]]]].
  unfold BrowserController.captureNetworkLogs_try.
  do 3 (erewrite mbind_returns; [|reflexivity]).
  erewrite mbind_returns; [|now apply initializeBrowser_returns].
  erewrite mbind_returns; [|reflexivity].
  erewrite mbind_returns; [|now apply navigateToUrl_returns].
  erewrite mbind_returns; [|reflexivity].
  simpl.
  destruct (@runEvents_capturing newURL surface allowedHosts
              (Surface.duringCapture surface)
              (mkState true true true [] true 0 (BrowserController.ticks s0)
                 (BrowserController.pending s0)))
    as [s' [newLogs [Hrun [_ [_ [_ [_ [Hlogs HF]]]]]]]].
  { reflexivity. }
  { unfold PendingOK. simpl. rewrite Hpend. constructor. }
  simpl in Hlogs, HF. rewrite Hpend in HF. simpl in HF.
  erewrite mbind_returns; [|exact Hrun].
  erewrite mbind_returns; [|reflexivity].
  erewrite mbind_returns; [|reflexivity].
  simpl. rewrite Hlogs.
  eexists. eexists. split; [reflexivity | exact HF].
Qed.

(** When the browser does not start or does not reach the page, the [try]
    block throws one of the controller's [AppError] objects. *)
Lemma captureNetworkLogs_try_throws (url : string) (s0 : BrowserController.State) :
  BrowserController.pending s0 = [] ->
  ~ Starts newURL surface url ->
  exists e s1,
    BrowserController.captureNetworkLogs_try newURL surface allowedHosts url s0
    = (inl (ThrownApp e), s1).
Proof.
  intros Hpend Hnot.
  unfold BrowserController.captureNetworkLogs_try.
  do 3 (erewrite mbind_returns; [|reflexivity]).
  destruct initializes_or_not as [[Hl [Hc Hp]] | Hinit].
  - erewrite mbind_returns; [|now apply initializeBrowser_returns].
    erewrite mbind_returns; [|reflexivity].
    match goal with
    | |- context [BrowserController.navigateToUrl _ _ _ _] =>
        edestruct (@navigateToUrl_throws url) as [e [s1 He]];
          [| | | | erewrite mbind_throws; [|exact He]]
    end.
    + reflexivity.
    + reflexivity.
    + exact Hpend.
    + intros [Hu Hg]. apply Hnot. unfold Starts. auto.
    + eexists. eexists. reflexivity.
  - edestruct (@initializeBrowser_throws) as [e [s1 He]]; [exact Hinit|].
    erewrite mbind_throws; [|exact He].
    eexists. eexists. reflexivity.
Qed.

End SessionResult.

Lemma starts_or_not (newURL : string -> option URL.t) (surface : Surface.t)
    (url : string) :
  Starts newURL surface url \/ ~ Starts newURL surface url.
Proof.
  unfold Starts.
  destruct (Surface.launch surface) as [t|[]];
    [right; intros [H _]; discriminate|].
  destruct (Surface.newContext surface) as [t|[]];
    [right; intros [_ [H _]]; discriminate|].
  destruct (Surface.newPage surface) as [t|[]];
    [right; intros [_ [_ [H _]]]; discriminate|].
  destruct (newURL url) as [u|];
    [|right; intros [_ [_ [_ [H _]]]]; congruence].
  destruct (Surface.goto surface) as [t|[]];
    [right; intros [_ [_ [_ [_ H]]]]; discriminate|].
  left. repeat split; congruence.
Qed.

(** C9 (as the code has it).  [captureNetworkLogs] always returns a result
    and never lets an exception reach its caller.  When the browser starts
    and the page is reached, the result has [success = true] and no error;
    its [logs] are the entries of the responses accepted during the capture
    window, [totalRequests] is their number and [filteredRequests] the
    number of those whose URL the classifier matches; with no accepted
    response the result is successful and empty.  When starting the browser
    or reaching the page throws, the result has [success = false], no logs,
    zero counts and an error message.  Exceptions raised while a single
    response is handled, or while the browser is closed, are caught where
    they occur and do not change [success]. *)
Theorem captureNetworkLogs_spec (newURL : string -> option URL.t)
    (surface : Surface.t) (allowedHosts : list string) (url : string)
    (s0 : BrowserController.State) :
  BrowserController.pending s0 = [] ->
  exists result sFinal,
    BrowserController.captureNetworkLogs newURL surface allowedHosts url s0
    = (inr result, sFinal)
    /\ (Starts newURL surface url ->
        let accepted :=
          acceptedResponses newURL allowedHosts []
            (Surface.duringCapture surface) in
        NetworkCaptureResult.success result = true
        /\ NetworkCaptureResult.error result = None
        /\ Forall2 (IsEntryOf newURL) accepted (NetworkCaptureResult.logs result)
        /\ NetworkCaptureResult.totalRequests result = List.length accepted
        /\ NetworkCaptureResult.totalRequests result
           = List.length (NetworkCaptureResult.logs result)
        /\ NetworkCaptureResult.filteredRequests result
           = List.length
               (filter (fun r => BrowserController.isBffBlockApiPattern newURL
                                   (Response.url r)) accepted)
        /\ NetworkCaptureResult.filteredRequests result
           = List.length
               (filter NetworkLogEntry.isBffBlockApi
                  (NetworkCaptureResult.logs result))
        /\ (accepted = [] -> NetworkCaptureResult.logs result = []))
    /\ (~ Starts newURL surface url ->
        result = NetworkCaptureResult.mk false [] 0 0 (Some "[object Object]")).
Proof.
  intros Hpend.
  unfold BrowserController.captureNetworkLogs, BrowserController.tryFinally,
    BrowserController.tryCatch.
  destruct (starts_or_not newURL surface url) as [Hs | Hs].
  - destruct (@captureNetworkLogs_try_returns newURL surface allowedHosts url
                s0 Hpend Hs) as [logs [s1 [Htry HF]]].
    rewrite Htry.
    destruct (cleanup_returns surface s1) as [s2 Hclean]. rewrite Hclean.
    eexists. eexists. split; [reflexivity|]. split; [|contradiction].
    intros _. simpl.
    split; [reflexivity|]. split; [reflexivity|]. split; [exact HF|].
    split; [symmetry; apply (Forall2_length_eq HF)|].
    split; [reflexivity|].
    split; [apply (entries_block_count HF)|].
    split; [reflexivity|].
    intros Hnone. rewrite Hnone in HF. now inversion HF.
  - destruct (@captureNetworkLogs_try_throws newURL surface allowedHosts url
                s0 Hpend Hs) as [e [s1 Htry]].
    rewrite Htry. unfold BrowserController.captureNetworkLogs_catch,
      BrowserController.mret.
    destruct (cleanup_returns surface s1) as [s2 Hclean]. rewrite Hclean.
    eexists. eexists. split; [reflexivity|]. split; [contradiction|].
    intros _. reflexivity.
Qed.

Lemma captureNetworkLogs_spec_witness :
  exists result sFinal,
    BrowserController.captureNetworkLogs Fixtures.newURL
      (Fixtures.session
         [ResponseArrives Fixtures.readable; BodyResolves 0])
      ["example.com"] "https://app.example.com/"
      BrowserController.initialState
    = (inr result, sFinal)
    /\ NetworkCaptureResult.success result = true
    /\ NetworkCaptureResult.totalRequests result = 1
    /\ NetworkCaptureResult.filteredRequests result = 1.
Proof.
  destruct (@captureNetworkLogs_spec Fixtures.newURL
              (Fixtures.session
                 [ResponseArrives Fixtures.readable; BodyResolves 0])
              ["example.com"] "https://app.example.com/"
              BrowserController.initialState eq_refl)
    as [result [sFinal [H [Hstarts _]]]].
  exists result, sFinal. split; [exact H|].
  destruct Hstarts as [Hsuccess [_ [_ [Htotal [_ [Hblock _]]]]]].
  - unfold Starts. simpl. repeat split. discriminate.
  - split; [exact Hsuccess|]. split; [exact Htotal | exact Hblock].
Defined.

(** C9 as stated fails for exceptions raised while a response is handled:
    reading the body of [unreadable] throws during the session, and the
    session still returns [success = true], with the exchange recorded
    under an empty body. *)
Lemma body_exception_keeps_success :
  Response.text Fixtures.unreadable
  = inl (ThrownError "No resource with given identifier found")
  /\ exists entry,
       fst (BrowserController.captureNetworkLogs Fixtures.newURL
              (Fixtures.session
                 [ResponseArrives Fixtures.unreadable; BodyResolves 0])
              ["example.com"] "https://app.example.com/"
              BrowserController.initialState)
       = inr (NetworkCaptureResult.mk true [entry] 1 0 None)
       /\ NetworkResponse.body (NetworkLogEntry.response entry) = EmptyString.
Proof.
  split; [reflexivity|]. eexists. split; vm_compute; reflexivity.
Qed.

Example capture_examples :
  fst (BrowserController.captureNetworkLogs Fixtures.newURL
         (Fixtures.session []) [] "https://app.example.com/"
         BrowserController.initialState)
  = inr (NetworkCaptureResult.mk true [] 0 0 None)
  /\ fst (BrowserController.captureNetworkLogs Fixtures.newURL
            Fixtures.unreachable [] "https://app.example.com/"
            BrowserController.initialState)
     = inr (NetworkCaptureResult.mk false [] 0 0 (Some "[object Object]"))
  /\ fst (BrowserController.captureNetworkLogs Fixtures.newURL
            (Fixtures.session []) [] "not a url"
            BrowserController.initialState)
     = inr (NetworkCaptureResult.mk false [] 0 0 (Some "[object Object]"))
  /\ fst (BrowserController.captureNetworkLogs Fixtures.newURL
            (Fixtures.session
               [ResponseArrives Fixtures.readable; BodyResolves 0;
                ResponseArrives Fixtures.readable])
            ["example.com"] "https://app.example.com/"
            BrowserController.initialState)
     = inr (NetworkCaptureResult.mk true
              [NetworkLogEntry.mk "log_1_1002"
                 (NetworkRequest.mk "get"
                    "https://api.example.com/v1/blocks?keys=home.banner"
                    [] None 1000)
                 (NetworkResponse.mk 200 "OK"
                    [("content-type", "application/json; charset=utf-8")]
                    "[1]" "application/json; charset=utf-8" 1001)
                 "xhr" true]
              1 1 None).
Proof. vm_compute. repeat split. Qed.

(** ** The serializer *)

Lemma bind_ret_inl {A B} (c : Try A) (h : A -> B) (t : Thrown) :
  (x <- c ;; ret (h x)) = inl t <-> c = inl t.
Proof.
  unfold bind, ret. destruct c as [t'|a]; split; intros H; congruence.
Qed.

Lemma mapTry_fails_iff {A B} (f : A -> Try B) (l : list A) :
  (exists t, mapTry f l = inl t) <-> exists a, In a l /\ exists t, f a = inl t.
Proof.
  split.
  - intros [t H]. destruct (mapTry_inl f l H) as [a [Hin Ha]].
    exists a. split; [assumption | now exists t].
  - intros [a [Hin [t Ha]]].
    destruct (mapTry f l) as [t'|bs] eqn:Hl; [now exists t'|].
    exfalso. apply mapTry_inr in Hl.
    induction Hl as [|x b l bs Hx HF IH]; [contradiction|].
    destruct Hin as [-> | Hin]; [congruence | auto].
Qed.

Lemma mapTry_Forall2 {A B} (f : A -> Try B) (l : list A) (bs : list B) :
  Forall2 (fun a b => f a = inr b) l bs -> mapTry f l = inr bs.
Proof.
  induction 1 as [|a b l bs Hab HF IH]; simpl; [reflexivity|].
  now rewrite Hab, IH.
Qed.

Section SerializerProperties.

Variable messageOf : Store -> Refusal -> string.
Variable store : Store.

Local Abbreviation serialize :=
  (Json.serializeJSONProperty messageOf store).

Local Abbreviation EncoderError := (EncoderError messageOf store).

Lemma onStack_spec (a : nat) (stack : list nat) :
  Json.onStack a stack = true <-> In a stack.
Proof.
  unfold Json.onStack. rewrite existsb_exists. split.
  - intros [x [Hin Heq]]. apply Nat.eqb_eq in Heq. now subst.
  - intros Hin. exists a. split; [assumption | apply Nat.eqb_refl].
Qed.

(** A stack of distinct allocated objects is no longer than the store. *)
Lemma stack_bound (stack : list nat) :
  NoDup stack -> (forall a, In a stack -> a < List.length store) ->
  List.length stack <= List.length store.
Proof.
  intros Hnd Hvalid.
  rewrite <- (length_seq (List.length store) 0).
  apply NoDup_incl_length; [assumption|].
  intros a Ha. apply in_seq. specialize (Hvalid a Ha). lia.
Qed.

(** The values of an object are serialized one after the other: the
    object fails exactly when one of them does. *)
Lemma values_fail (object : JsObject) (P : JsValue -> Prop)
    (rec : JsValue -> Try (option string)) :
  (forall value, In value (valuesOf object) ->
     ((exists t, rec value = inl t) <-> P value)
     /\ forall t, rec value = inl t -> EncoderError t) ->
  forall indent : string,
    let result :=
      match object with
      | PlainObject properties =>
          partial <-
            mapTry (fun kv => text <- rec (snd kv) ;; ret (fst kv, text))
              properties ;;
          ret (Some (Json.objectText indent (Json.present partial)))
      | ArrayObject elements =>
          partial <-
            mapTry (fun element => text <- rec element ;;
                                   ret (Json.orNull text))
              elements ;;
          ret (Some (Json.arrayText indent partial))
      end in
    ((exists t, result = inl t)
     <-> exists value, In value (valuesOf object) /\ P value)
    /\ forall t, result = inl t -> EncoderError t.
Proof.
  intros Hrec indent.
  destruct object as [properties | elements]; simpl in *.
  - set (f := fun kv : string * JsValue =>
                text <- rec (snd kv) ;; ret (fst kv, text)).
    assert (Hf : forall kv t, f kv = inl t <-> rec (snd kv) = inl t).
    { intros kv t. unfold f. apply bind_ret_inl. }
    split; [split|].
    + intros [t H].
      destruct (mapTry f properties) as [t'|partial] eqn:Hm; [|discriminate].
      destruct (mapTry_inl f properties Hm) as [kv [Hin Hkv]].
      exists (snd kv). split; [now apply in_map|].
      apply (Hrec (snd kv)); [now apply in_map|].
      exists t'. now apply Hf.
    + intros [value [Hin HP]].
      apply in_map_iff in Hin as [kv [<- Hin]].
      destruct (proj2 (proj1 (Hrec (snd kv) (in_map snd _ _ Hin))) HP)
        as [t Ht].
      destruct (proj2 (mapTry_fails_iff f properties)) as [t' Ht'].
      { exists kv. split; [assumption|]. exists t. now apply Hf. }
      rewrite Ht'. now exists t'.
    + intros t H.
      destruct (mapTry f properties) as [t'|partial] eqn:Hm; [|discriminate].
      injection H as <-.
      destruct (mapTry_inl f properties Hm) as [kv [Hin Hkv]].
      apply (Hrec (snd kv)); [now apply in_map | now apply Hf].
  - set (f := fun element : JsValue =>
                text <- rec element ;; ret (Json.orNull text)).
    assert (Hf : forall element t, f element = inl t <-> rec element = inl t).
    { intros element t. unfold f. apply bind_ret_inl. }
    split; [split|].
    + intros [t H].
      destruct (mapTry f elements) as [t'|partial] eqn:Hm; [|discriminate].
      destruct (mapTry_inl f elements Hm) as [element [Hin He]].
      exists element. split; [assumption|].
      apply (Hrec element Hin). exists t'. now apply Hf.
    + intros [value [Hin HP]].
      destruct (proj2 (proj1 (Hrec value Hin)) HP) as [t Ht].
      destruct (proj2 (mapTry_fails_iff f elements)) as [t' Ht'].
      { exists value. split; [assumption|]. exists t. now apply Hf. }
      rewrite Ht'. now exists t'.
    + intros t H.
      destruct (mapTry f elements) as [t'|partial] eqn:Hm; [|discriminate].
      injection H as <-.
      destruct (mapTry_inl f elements Hm) as [element [Hin He]].
      apply (Hrec element Hin). now apply Hf.
Qed.

(** With fuel for every object not yet on the stack, serialization throws
    exactly when it meets a BigInt or meets an object again, and what it
    throws is the error of the encoder for that. *)
Lemma serializeJSONProperty_throws (fuel : nat) :
  forall (stack : list nat) (indent : string) (value : JsValue),
    NoDup stack ->
    (forall a, In a stack -> a < List.length store) ->
    List.length store < fuel + List.length stack ->
    ((exists t, serialize fuel stack indent value = inl t)
     <-> Refused store stack value)
    /\ (forall t, serialize fuel stack indent value = inl t -> EncoderError t).
Proof.
  induction fuel as [|fuel IH]; intros stack indent value Hnd Hvalid Hfuel.
  - pose proof (stack_bound Hnd Hvalid). simpl in Hfuel. lia.
  - destruct value as [ | | b | text | s | n | a];
      try (simpl; split; [split; [intros [t H]; discriminate
                                 | intros H; inversion H]
                         | discriminate]).
    + simpl. split.
      * split; [intros _; constructor | intros _; eexists; reflexivity].
      * intros t H. injection H as <-. eexists. split; [reflexivity|].
        right. now exists n.
    + cbn [Json.serializeJSONProperty].
      destruct (Json.onStack a stack) eqn:Hon.
      * apply onStack_spec in Hon. split.
        -- split; [intros _; now constructor | intros _; eexists; reflexivity].
        -- intros t H. injection H as <-. eexists. split; [reflexivity|].
           left. now exists stack, a.
      * assert (Hnot : ~ In a stack).
        { intros H. apply onStack_spec in H. congruence. }
        destruct (nth_error store a) as [object|] eqn:Hget.
        -- assert (Ha : a < List.length store).
           { apply nth_error_Some. congruence. }
           assert (Hnd' : NoDup (a :: stack)) by now constructor.
           assert (Hvalid' : forall b, In b (a :: stack) -> b < List.length store).
           { intros b [<- | Hb]; auto. }
           assert (Hfuel' : List.length store < fuel + List.length (a :: stack)).
           { simpl. simpl in Hfuel. lia. }
           destruct (@values_fail object (Refused store (a :: stack))
                       (serialize fuel (a :: stack) (indent ++ Json.gap))
                       (fun value _ => IH (a :: stack) (indent ++ Json.gap)
                                         value Hnd' Hvalid' Hfuel')
                       indent) as [Hiff Herr].
           split; [|exact Herr].
           rewrite Hiff. split.
           ++ intros [value [Hin Hrec]].
              apply refused_below with value; auto. now exists object.
           ++ intros H. inversion H as [| |? ? value _ [object' [Hget' Hin]] Hrec];
                subst; [contradiction|].
              rewrite Hget in Hget'. injection Hget' as <-.
              now exists value.
        -- split; [|discriminate]. split.
           ++ intros [t H]. discriminate.
           ++ intros H. inversion H as [| |? ? value _ [object [Hget' _]] _];
                subst; [contradiction | congruence].
Qed.

Lemma Contains_trans (u v w : JsValue) :
  Contains store u v -> Contains store v w -> Contains store u w.
Proof.
  induction 1 as [|a value inner Hhold _ IH]; [auto|].
  intros H. apply contains_inside with value; auto.
Qed.

Lemma Contains_held (a : nat) (value inner : JsValue) :
  Holds store a value -> Contains store value inner ->
  Contains store (JsRef a) inner.
Proof. apply contains_inside. Qed.

(** A value without a JSON form is a BigInt, or an object that holds such
    a value. *)
Lemma Unserializable_step (value : JsValue) :
  Unserializable store value ->
  (exists n, value = JsBigInt n)
  \/ exists a inner,
       value = JsRef a /\ Holds store a inner /\ Unserializable store inner.
Proof.
  intros [[b [Hreach [inner [Hhold Hback]]]] | [n Hreach]].
  - right. inversion Hreach as [|a held ? Hhold' Hreach']; subst.
    + exists b, inner. split; [reflexivity|]. split; [assumption|].
      left. exists b. split; [assumption|]. now exists inner.
    + exists a, held. split; [reflexivity|]. split; [assumption|].
      left. exists b. split; [assumption|]. now exists inner.
  - inversion Hreach as [|a inner ? Hhold Hreach']; subst.
    + left. now exists n.
    + right. exists a, inner. split; [reflexivity|]. split; [assumption|].
      right. now exists n.
Qed.

Lemma Refused_sound (stack : list nat) (value : JsValue) :
  Refused store stack value ->
  (exists c, Contains store value (JsRef c) /\ In c stack)
  \/ Unserializable store value.
Proof.
  induction 1 as [stack n | stack a Hin | stack a value Hnot Hhold Hrec IH].
  - right. right. exists n. constructor.
  - left. exists a. split; [constructor | assumption].
  - destruct IH as [[c [Hreach [<- | Hc]]] | [Hcyc | [n Hbig]]].
    + right. left. exists a. split; [constructor|]. now exists value.
    + left. exists c. split; [now apply contains_inside with value | assumption].
    + right. left. destruct Hcyc as [b [Hreach Hb]].
      exists b. split; [now apply contains_inside with value | assumption].
    + right. right. exists n. now apply contains_inside with value.
Qed.

Lemma Refused_complete (n : nat) :
  forall (stack : list nat) (value : JsValue),
    List.length store <= n + List.length stack ->
    NoDup stack ->
    (forall b, In b stack -> b < List.length store) ->
    Unserializable store value ->
    Refused store stack value.
Proof.
  induction n as [|n IH]; intros stack value Hn Hnd Hvalid Hbad;
    (destruct (Unserializable_step Hbad)
      as [[k ->] | [a [inner [-> [Hhold Hbad']]]]]; [constructor|]);
    (destruct (in_dec Nat.eq_dec a stack) as [Hin | Hnot];
      [now constructor|]);
    assert (Ha : a < List.length store)
      by (destruct Hhold as [object [Hget _]];
          apply nth_error_Some; congruence);
    assert (Hnd' : NoDup (a :: stack)) by (now constructor);
    assert (Hvalid' : forall b, In b (a :: stack) -> b < List.length store)
      by (intros b [<- | Hb]; auto).
  - pose proof (stack_bound Hnd' Hvalid'). simpl in *. lia.
  - apply refused_below with inner; auto.
    apply IH; auto. simpl. lia.
Qed.

(** Serializing a value throws exactly when the value has no JSON form. *)
Lemma stringify_throws_iff (indent : string) (value : JsValue) :
  (exists t, Json.stringify messageOf store indent value = inl t)
  <-> Unserializable store value.
Proof.
  unfold Json.stringify.
  destruct (@serializeJSONProperty_throws (S (List.length store)) [] indent value)
    as [Hiff _]; [constructor | intros a [] | simpl; lia |].
  rewrite Hiff. split.
  - intros H. destruct (Refused_sound H) as [[c [_ []]] | Hbad]. exact Hbad.
  - intros Hbad.
    apply (@Refused_complete (List.length store)); auto.
    + simpl. lia.
    + constructor.
    + intros b [].
Qed.

Lemma stringify_throws_error (indent : string) (value : JsValue) (t : Thrown) :
  Json.stringify messageOf store indent value = inl t -> EncoderError t.
Proof.
  unfold Json.stringify.
  destruct (@serializeJSONProperty_throws (S (List.length store)) [] indent value)
    as [_ Herr]; [constructor | intros a [] | simpl; lia |].
  apply Herr.
Qed.

Lemma not_Unserializable_undefined : ~ Unserializable store JsUndefined.
Proof.
  intros H. destruct (Unserializable_step H) as [[n Hn] | [a [inner [Ha _]]]];
    discriminate.
Qed.

Lemma ownValue_In (key : string) (properties : list (string * JsValue)) :
  ownValue key properties <> JsUndefined ->
  In (ownValue key properties) (map snd properties).
Proof.
  induction properties as [|[k v] rest IH]; simpl; [congruence|].
  destruct (String.eqb key k); [now left | right; auto].
Qed.

(** What a copied property contains, its endpoint contains. *)
Lemma CopiedProperty_inside (api value : JsValue) :
  CopiedProperty store api value ->
  Unserializable store value -> Unserializable store api.
Proof.
  intros [a [properties [key [-> [Hget [_ Hvalue]]]]]] Hbad.
  assert (Hhold : Holds store a value).
  { exists (PlainObject properties). split; [assumption|]. simpl.
    rewrite <- Hvalue. apply ownValue_In. rewrite Hvalue.
    intros ->. now apply not_Unserializable_undefined. }
  destruct Hbad as [[b [Hreach Hb]] | [n Hreach]].
  - left. exists b. split; [now apply contains_inside with value | assumption].
  - right. exists n. now apply contains_inside with value.
Qed.

Local Abbreviation read := (DataProcessor.readProperty messageOf store).
Local Abbreviation copy := (DataProcessor.copyProperties messageOf store).

(** The object literal built for an endpoint that is an object. *)
Lemma copyProperties_object (a : nat) :
  exists values,
    copy (JsRef a) = inr (combine DataProcessor.copiedKeys values)
    /\ Forall2 (fun key value => read (JsRef a) key = inr value)
         DataProcessor.copiedKeys values
    /\ forall value,
         In value values ->
         value = JsUndefined \/ CopiedProperty store (JsRef a) value.
Proof.
  unfold DataProcessor.copyProperties, DataProcessor.readProperty.
  destruct (nth_error store a) as [[properties | elements]|] eqn:Hget.
  - exists (map (fun key => ownValue key properties) DataProcessor.copiedKeys).
    split; [reflexivity|]. split.
    + simpl. repeat constructor.
    + intros value Hin. right. apply in_map_iff in Hin as [key [<- Hkey]].
      now exists a, properties, key.
  - exists (map (fun _ => JsUndefined) DataProcessor.copiedKeys).
    split; [reflexivity|]. split.
    + simpl. repeat constructor.
    + intros value Hin. left. apply in_map_iff in Hin as [key [<- _]].
      reflexivity.
  - exists (map (fun _ => JsUndefined) DataProcessor.copiedKeys).
    split; [reflexivity|]. split.
    + simpl. repeat constructor.
    + intros value Hin. left. apply in_map_iff in Hin as [key [<- _]].
      reflexivity.
Qed.

Lemma CopiedProperty_copied (a : nat) (value : JsValue)
    (properties : list (string * JsValue)) :
  CopiedProperty store (JsRef a) value ->
  copy (JsRef a) = inr properties ->
  In value (map snd properties).
Proof.
  intros [a' [ps [key [Heq [Hget [Hkey <-]]]]]]. injection Heq as <-.
  unfold DataProcessor.copyProperties, DataProcessor.readProperty.
  rewrite Hget. simpl. intros H. injection H as <-. simpl.
  simpl in Hkey. intuition (subst; auto).
Qed.

(** An object literal fails to serialize exactly when one of its values
    has no JSON form. *)
Lemma serializeLiteral_throws_iff (properties : list (string * JsValue)) :
  (exists t, DataProcessor.serializeLiteral messageOf store properties = inl t)
  <-> exists value, In value (map snd properties) /\ Unserializable store value.
Proof.
  unfold DataProcessor.serializeLiteral. cbv zeta.
  set (indent := (Json.gap ++ Json.gap)%string).
  set (f := fun kv : string * JsValue =>
              text <- Json.stringify messageOf store indent (snd kv) ;;
              ret (fst kv, text)).
  assert (Hf : forall kv t,
            f kv = inl t
            <-> Json.stringify messageOf store indent (snd kv) = inl t).
  { intros kv t. unfold f. apply bind_ret_inl. }
  transitivity (exists t, mapTry f properties = inl t).
  - destruct (mapTry f properties) as [t|partial]; simpl.
    + split; intros _; now exists t.
    + split; intros [t H]; discriminate.
  - rewrite mapTry_fails_iff. split.
    + intros [kv [Hin [t Ht]]]. exists (snd kv). split; [now apply in_map|].
      apply (stringify_throws_iff indent). exists t. now apply Hf.
    + intros [value [Hin Hbad]]. apply in_map_iff in Hin as [kv [<- Hin]].
      exists kv. split; [assumption|].
      apply (stringify_throws_iff indent) in Hbad as [t Ht].
      exists t. now apply Hf.
Qed.

Lemma serializeLiteral_throws_error (properties : list (string * JsValue))
    (t : Thrown) :
  DataProcessor.serializeLiteral messageOf store properties = inl t ->
  EncoderError t.
Proof.
  unfold DataProcessor.serializeLiteral. cbv zeta. intros H.
  match type of H with
  | (partial <- mapTry ?f _ ;; _) = _ =>
      destruct (mapTry f properties) as [t'|partial] eqn:Hm; [|discriminate];
      injection H as <-;
      destruct (mapTry_inl f properties Hm) as [kv [_ Hkv]]
  end.
  apply bind_ret_inl in Hkv. now apply stringify_throws_error in Hkv.
Qed.

(** The members of a literal that serializes. *)
Lemma literal_members (api : JsValue) (indent : string) (keys : list string) :
  forall (properties : list (string * JsValue))
         (partial : list (string * option string)),
    Forall2
      (fun key kv => (value <- read api key ;; ret (key, value)) = inr kv)
      keys properties ->
    Forall2
      (fun kv kt =>
         (text <- Json.stringify messageOf store indent (snd kv) ;;
          ret (fst kv, text)) = inr kt)
      properties partial ->
    exists texts,
      Forall2
        (fun key text =>
           exists value,
             read api key = inr value
             /\ Json.stringify messageOf store indent value = inr text)
        keys texts
      /\ partial = combine keys texts.
Proof.
  induction keys as [|key keys IH]; intros properties partial Hcopy Htext.
  - inversion Hcopy; subst. inversion Htext; subst.
    exists []. split; [constructor | reflexivity].
  - inversion Hcopy as [|? kv ? properties' Hkv Hcopy']; subst.
    inversion Htext as [|? kt ? partial' Hkt Htext']; subst.
    destruct (IH _ _ Hcopy' Htext') as [texts [Htexts ->]].
    unfold bind, ret in Hkv, Hkt.
    destruct (read api key) as [t|value] eqn:Hread; [discriminate|].
    injection Hkv as <-. simpl in Hkt.
    destruct (Json.stringify messageOf store indent value) as [t|text] eqn:Hs;
      [discriminate|].
    injection Hkt as <-.
    exists (text :: texts). split; [|reflexivity].
    constructor; [now exists value | assumption].
Qed.

Lemma serializeLiteral_returns (api : JsValue)
    (properties : list (string * JsValue)) (item : string) :
  copy api = inr properties ->
  DataProcessor.serializeLiteral messageOf store properties = inr item ->
  exists members,
    Serializes messageOf store api members /\ item = endpointText members.
Proof.
  unfold DataProcessor.copyProperties, DataProcessor.serializeLiteral.
  cbv zeta. intros Hcopy Hitem. apply mapTry_inr in Hcopy.
  match type of Hitem with
  | (partial <- mapTry ?f _ ;; _) = _ =>
      destruct (mapTry f properties) as [t|partial] eqn:Hm; [discriminate|]
  end.
  apply mapTry_inr in Hm. simpl in Hitem. injection Hitem as <-.
  destruct (@literal_members api _ _ _ _ Hcopy Hm) as [texts [Htexts ->]].
  exists (Json.present (combine DataProcessor.copiedKeys texts)).
  split; [|reflexivity]. now exists texts.
Qed.

(** A collection of objects is copied without an exception. *)
Lemma copyProperties_objects (processedData : list JsValue) :
  Forall IsObject processedData ->
  exists aiData,
    mapTry copy processedData = inr aiData
    /\ Forall2 (fun api properties => copy api = inr properties)
         processedData aiData.
Proof.
  intros Hobj. apply mapTry_ok. intros api Hin.
  rewrite Forall_forall in Hobj. destruct (Hobj api Hin) as [a ->].
  destruct (copyProperties_object a) as [values [Hcopy _]]. eauto.
Qed.

(** On a collection of objects the encoder throws exactly when a copied
    property of some endpoint has no JSON form. *)
Lemma stringifyAiData_throws_iff (processedData : list JsValue) :
  Forall IsObject processedData ->
  (exists t, DataProcessor.stringifyAiData messageOf store processedData = inl t)
  <-> exists api value,
        In api processedData
        /\ CopiedProperty store api value
        /\ Unserializable store value.
Proof.
  intros Hobj.
  destruct (copyProperties_objects Hobj) as [aiData [Hmap HF]].
  unfold DataProcessor.stringifyAiData. rewrite Hmap. simpl.
  transitivity (exists t, mapTry (DataProcessor.serializeLiteral messageOf store)
                            aiData = inl t).
  - destruct (mapTry (DataProcessor.serializeLiteral messageOf store) aiData)
      as [t|items]; simpl.
    + split; intros _; now exists t.
    + split; intros [t H]; discriminate.
  - rewrite mapTry_fails_iff. split.
    + intros [properties [Hin Hthrows]].
      apply serializeLiteral_throws_iff in Hthrows as [value [Hvalue Hbad]].
      destruct (Forall2_In_r properties HF Hin) as [api [Hapi Hcopy]].
      exists api, value. split; [assumption|]. split; [|assumption].
      rewrite Forall_forall in Hobj. destruct (Hobj api Hapi) as [a ->].
      destruct (copyProperties_object a) as [values [Hcopy' [Hread Hvalues]]].
      rewrite Hcopy in Hcopy'. injection Hcopy' as ->.
      assert (Hin' : In value values).
      { apply in_map_iff in Hvalue as [[k v] [<- Hkv]].
        exact (in_combine_r DataProcessor.copiedKeys values k v Hkv). }
      destruct (Hvalues value Hin') as [-> | Hcopied]; [|assumption].
      now apply not_Unserializable_undefined in Hbad.
    + intros [api [value [Hapi [Hcopied Hbad]]]].
      destruct (Forall2_In_l api HF Hapi) as [properties [Hin Hcopy]].
      exists properties. split; [assumption|].
      apply serializeLiteral_throws_iff. exists value. split; [|assumption].
      rewrite Forall_forall in Hobj. destruct (Hobj api Hapi) as [a ->].
      now apply CopiedProperty_copied with a.
Qed.

Lemma stringifyAiData_throws_error (processedData : list JsValue) (t : Thrown) :
  Forall IsObject processedData ->
  DataProcessor.stringifyAiData messageOf store processedData = inl t ->
  EncoderError t.
Proof.
  intros Hobj.
  destruct (copyProperties_objects Hobj) as [aiData [Hmap _]].
  unfold DataProcessor.stringifyAiData. rewrite Hmap. simpl.
  destruct (mapTry (DataProcessor.serializeLiteral messageOf store) aiData)
    as [t'|items] eqn:Hm; simpl; [|discriminate].
  intros H. injection H as <-.
  destruct (mapTry_inl _ _ Hm) as [properties [_ Hthrows]].
  now apply serializeLiteral_throws_error in Hthrows.
Qed.

Lemma serialized_items (processedData : list JsValue)
    (aiData : list (list (string * JsValue))) :
  Forall2 (fun api properties => copy api = inr properties)
    processedData aiData ->
  forall items,
    Forall2
      (fun properties item =>
         DataProcessor.serializeLiteral messageOf store properties = inr item)
      aiData items ->
    exists members,
      Forall2 (Serializes messageOf store) processedData members
      /\ items = map endpointText members.
Proof.
  induction 1 as [|api properties l aiData Hapi _ IH]; intros items Hitems.
  - inversion Hitems; subst. exists []. split; [constructor | reflexivity].
  - inversion Hitems as [|? item ? items' Hitem Hitems']; subst.
    destruct (IH _ Hitems') as [members [Hmembers ->]].
    destruct (serializeLiteral_returns _ Hapi Hitem) as [m [Hm ->]].
    exists (m :: members). split; [now constructor | reflexivity].
Qed.

Lemma stringifyAiData_returns (processedData : list JsValue) (text : string) :
  DataProcessor.stringifyAiData messageOf store processedData = inr text ->
  exists members,
    Forall2 (Serializes messageOf store) processedData members
    /\ text = Json.arrayText EmptyString (map endpointText members).
Proof.
  unfold DataProcessor.stringifyAiData.
  destruct (mapTry copy processedData) as [t|aiData] eqn:Hcopy;
    [discriminate|]. simpl.
  destruct (mapTry (DataProcessor.serializeLiteral messageOf store) aiData)
    as [t|items] eqn:Hitems; [discriminate|]. simpl.
  intros H. injection H as <-.
  apply mapTry_inr in Hcopy. apply mapTry_inr in Hitems.
  destruct (serialized_items Hcopy Hitems) as [members [Hmembers ->]].
  now exists members.
Qed.

End SerializerProperties.

(** *** Well-typed data *)

Section TypedData.

Variable messageOf : Store -> Refusal -> string.

Lemma stringify_string (store : Store) (indent s : string) :
  Json.stringify messageOf store indent (JsString s)
  = inr (Some (Json.quoteJSONString s)).
Proof. reflexivity. Qed.

Lemma present_texts (members : list (string * string)) :
  Json.present (map (fun kt => (fst kt, Some (snd kt))) members) = members.
Proof.
  induction members as [|[k t] members IH]; simpl; [reflexivity|].
  now rewrite IH.
Qed.

Lemma stringify_record (store : Store) (indent : string) (a : nat)
    (r : Js.Record_) :
  nth_error store a = Some (DataProcessor.recordObject r) ->
  Json.stringify messageOf store indent (JsRef a)
  = inr (Some (recordText indent r)).
Proof.
  intros Hget. unfold Json.stringify. simpl. rewrite Hget.
  unfold DataProcessor.recordObject.
  assert (Hmap : mapTry
            (fun kv : string * JsValue =>
               text <- Json.serializeJSONProperty messageOf store
                         (List.length store) [a] (indent ++ Json.gap) (snd kv) ;;
               ret (fst kv, text))
            (map (fun kv => (fst kv, JsString (snd kv))) r)
          = inr (map (fun kt => (fst kt, Some (snd kt)))
                   (map (fun kv => (fst kv, Json.quoteJSONString (snd kv))) r))).
  { clear Hget. generalize (List.length store). intros n.
    induction r as [|[k v] r IH]; simpl; [reflexivity|].
    destruct n; simpl in *; rewrite IH; reflexivity. }
  rewrite Hmap. simpl. now rewrite present_texts.
Qed.

Lemma allocate_represents (processedData : ProcessedApiCollection) :
  forall prefix : Store,
    Forall2
      (Represents
         (prefix ++ fst (DataProcessor.allocate (List.length prefix) processedData))%list)
      processedData
      (snd (DataProcessor.allocate (List.length prefix) processedData)).
Proof.
  induction processedData as [|api rest IH]; intros prefix; simpl.
  - constructor.
  - specialize (IH (prefix
                    ++ [DataProcessor.apiObject (List.length prefix) api;
                        DataProcessor.recordObject
                          (ProcessedApiData.queryParams api);
                        DataProcessor.recordObject
                          (ProcessedApiData.pathParams api)])%list).
    rewrite length_app in IH. simpl in IH.
    replace (List.length prefix + 3) with (S (S (S (List.length prefix)))) in IH
      by lia.
    destruct (DataProcessor.allocate (S (S (S (List.length prefix)))) rest)
      as [store apis]. simpl in *.
    rewrite <- app_assoc in IH. simpl in IH.
    constructor; [|exact IH].
    exists (List.length prefix). split; [reflexivity|]. repeat split.
    + rewrite nth_error_app2 by lia. now rewrite Nat.sub_diag.
    + rewrite nth_error_app2 by lia.
      replace (S (List.length prefix) - List.length prefix) with 1 by lia.
      reflexivity.
    + rewrite nth_error_app2 by lia.
      replace (S (S (List.length prefix)) - List.length prefix) with 2 by lia.
      reflexivity.
Qed.

Lemma serialize_typed (store : Store) (api : ProcessedApiData.t)
    (runtime : JsValue) :
  Represents store api runtime ->
  exists properties,
    DataProcessor.copyProperties messageOf store runtime = inr properties
    /\ DataProcessor.serializeLiteral messageOf store properties
       = inr (endpointText (typedMembers api)).
Proof.
  intros [base [-> [Hapi [Hq Hp]]]].
  unfold DataProcessor.copyProperties, DataProcessor.readProperty.
  rewrite Hapi. simpl. eexists. split; [reflexivity|].
  unfold DataProcessor.serializeLiteral. cbn [mapTry bind ret snd fst].
  rewrite !stringify_string.
  rewrite (@stringify_record store _ (S base) _ Hq),
    (@stringify_record store _ (S (S base)) _ Hp).
  reflexivity.
Qed.

(** Serializing well-typed data returns its text. *)
Lemma serializeProcessed_returns (now : Z) (processedData : ProcessedApiCollection) :
  DataProcessor.serializeProcessed messageOf now processedData
  = inr (Json.arrayText EmptyString
           (map (fun api => endpointText (typedMembers api)) processedData)).
Proof.
  unfold DataProcessor.serializeProcessed.
  pose proof (allocate_represents processedData []) as HF. simpl in HF.
  destruct (DataProcessor.allocate 0 processedData) as [store apis].
  simpl in HF.
  assert (Hcopy : exists aiData,
             mapTry (DataProcessor.copyProperties messageOf store) apis
             = inr aiData
             /\ mapTry (DataProcessor.serializeLiteral messageOf store) aiData
                = inr (map (fun api => endpointText (typedMembers api))
                         processedData)).
  { clear now. induction HF as [|api runtime l l' Hrep HF IH]; simpl.
    - exists []. split; reflexivity.
    - destruct IH as [aiData [Hmap Hitems]].
      destruct (serialize_typed Hrep) as [properties [Hcopy Hitem]].
      exists (properties :: aiData). rewrite Hcopy, Hmap. simpl.
      now rewrite Hitem, Hitems. }
  destruct Hcopy as [aiData [Hmap Hitems]].
  unfold DataProcessor.serializeForAI, DataProcessor.stringifyAiData.
  rewrite Hmap. simpl. rewrite Hitems. reflexivity.
Qed.

End TypedData.

(** *** Stores without cycles *)

(** References that always lead to an object of lower rank form no
    cycle. *)
Lemma ranked_acyclic (store : Store) (rank : nat -> nat) :
  (forall a b, Holds store a (JsRef b) -> rank b < rank a) ->
  forall value, ~ Cyclic store value.
Proof.
  intros Hrank.
  assert (Hdown : forall u w, Contains store u w ->
            forall a b, u = JsRef a -> w = JsRef b -> rank b <= rank a).
  { induction 1 as [u | c held inner Hhold Hreach IH]; intros a b Hu Hw.
    - subst. injection Hw as <-. apply Nat.le_refl.
    - injection Hu as <-. subst inner.
      inversion Hreach as [|c' held' ? Hhold' Hreach']; subst.
      + specialize (Hrank _ _ Hhold). lia.
      + specialize (Hrank _ _ Hhold).
        specialize (IH c' b eq_refl eq_refl). lia. }
  intros value [a [_ [held [Hhold Hback]]]].
  inversion Hback as [|c held' ? Hhold' Hreach']; subst.
  - specialize (Hrank _ _ Hhold). lia.
  - specialize (Hrank _ _ Hhold).
    specialize (Hdown _ _ Hback c a eq_refl eq_refl). lia.
Qed.

(** *** The claim *)

(** C8 (as the code has it).  [serializeForAI] is a function of the
    endpoint collection alone: the text it returns does not depend on the
    clock.  The text is the JSON array of the endpoints in order, each an
    object whose members are, in this order, those of [method], [url],
    [responseBody], [queryParams], [pathParams] that have a JSON text.  It
    throws to its caller whenever one of these five properties of an
    endpoint contains a cyclic structure or a BigInt, and only when some
    endpoint contains a cyclic structure or a BigInt; what it throws is
    the [SERIALIZATION_ERROR] that wraps the message of the encoder.
    Well-typed data, such as the output of [processNetworkLogs], always
    serializes. *)
Theorem serializeForAI_spec (messageOf : Store -> Refusal -> string)
    (now : Z) (store : Store) (processedData : list JsValue) :
  Forall IsObject processedData ->
  (forall text,
     DataProcessor.serializeForAI messageOf now store processedData = inr text ->
     (forall now',
        DataProcessor.serializeForAI messageOf now' store processedData
        = inr text)
     /\ exists members,
          Forall2 (Serializes messageOf store) processedData members
          /\ text = Json.arrayText EmptyString (map endpointText members))
  /\ ((exists api value,
         In api processedData
         /\ CopiedProperty store api value
         /\ Unserializable store value) ->
      exists t,
        DataProcessor.serializeForAI messageOf now store processedData = inl t)
  /\ (forall t,
        DataProcessor.serializeForAI messageOf now store processedData = inl t ->
        (exists api, In api processedData /\ Unserializable store api)
        /\ exists refusal,
             EncoderRefusal refusal
             /\ t = ThrownApp
                      (DataProcessor.createProcessingError now
                         "SERIALIZATION_ERROR"
                         "Failed to serialize processed data for AI consumption"
                         (Some (messageOf store refusal))
                         (Some (messageOf store refusal))))
  /\ (forall typed : ProcessedApiCollection,
        DataProcessor.serializeProcessed messageOf now typed
        = inr (Json.arrayText EmptyString
                 (map (fun api => endpointText (typedMembers api)) typed))).
Proof.
  intros Hobj. split; [|split; [|split]].
  - intros text. unfold DataProcessor.serializeForAI.
    destruct (DataProcessor.stringifyAiData messageOf store processedData)
      as [t|text'] eqn:Hs; [discriminate|].
    intros H. injection H as <-. split; [reflexivity|].
    now apply stringifyAiData_returns.
  - intros Hbad. apply (stringifyAiData_throws_iff messageOf store Hobj) in Hbad.
    destruct Hbad as [t Ht]. unfold DataProcessor.serializeForAI.
    rewrite Ht. eexists. reflexivity.
  - intros t. unfold DataProcessor.serializeForAI.
    destruct (DataProcessor.stringifyAiData messageOf store processedData)
      as [t'|text] eqn:Hs; [|discriminate].
    intros H. injection H as <-. split.
    + destruct (proj1 (stringifyAiData_throws_iff messageOf store Hobj))
        as [api [value [Hin [Hcopied Hbad]]]]; [now exists t'|].
      exists api. split; [assumption|].
      now apply CopiedProperty_inside with value.
    + destruct (@stringifyAiData_throws_error messageOf store _ _ Hobj Hs) as [refusal [-> Hr]].
      now exists refusal.
  - intros typed. apply serializeProcessed_returns.
Qed.

Lemma serializeForAI_spec_witness :
  exists t,
    DataProcessor.serializeForAI Fixtures.messageOf 7 Fixtures.selfReferential
      [JsRef 0]
    = inl t.
Proof.
  assert (Hobj : Forall IsObject [JsRef 0])
    by (constructor; [now exists 0 | constructor]).
  apply (proj1 (proj2 (@serializeForAI_spec Fixtures.messageOf 7
                         Fixtures.selfReferential [JsRef 0] Hobj))).
  exists (JsRef 0), (JsRef 1). split; [now left|]. split.
  - exists 0. eexists. exists "queryParams".
    split; [reflexivity|]. split; [reflexivity|].
    split; [simpl; tauto | reflexivity].
  - left. exists 1. split; [constructor|].
    exists (JsRef 1). split; [|constructor].
    eexists. split; [reflexivity|]. now left.
Defined.

(** C8 as stated fails.  An endpoint whose [queryParams] holds a BigInt
    contains no cyclic structure, and [serializeForAI] throws. *)
Lemma bigint_is_refused_without_cycle :
  (exists t,
     DataProcessor.serializeForAI Fixtures.messageOf 7 Fixtures.withBigInt
       [JsRef 0]
     = inl t)
  /\ ~ exists api,
         In api [JsRef 0] /\ Cyclic Fixtures.withBigInt api.
Proof.
  split.
  - eexists. vm_compute. reflexivity.
  - intros [api [_ Hcyclic]]. revert Hcyclic.
    apply (@ranked_acyclic Fixtures.withBigInt
             (fun a => match a with 0 => 1 | _ => 0 end)).
    intros a b [object [Hget Hin]].
    destruct a as [|[|[|a]]]; simpl in Hget;
      try (injection Hget as <-; simpl in Hin);
      try (destruct a; discriminate Hget);
      repeat (destruct Hin as [Hin | Hin]; try discriminate Hin;
              try (injection Hin as <-; simpl; lia));
      try contradiction.
Qed.

(** The text of the endpoints of the specification's scenario, and the
    errors for an endpoint whose [queryParams] refers to itself, for one
    that holds a BigInt and for a collection that holds [null]. *)
Example serialize_examples :
  DataProcessor.serializeProcessed Fixtures.messageOf 0
    (DataProcessingResult.processedData
       (DataProcessor.processNetworkLogs Fixtures.newURL 0 Fixtures.defaults
          [Fixtures.banner; Fixtures.hero]))
  = inr (Json.arrayText EmptyString
           [Json.objectText Json.gap
              [("method", Json.quoteJSONString "GET");
               ("url",
                Json.quoteJSONString
                  "https://api.example.com/v1/blocks?keys=home.hero");
               ("responseBody", Json.quoteJSONString "[1,2]");
               ("queryParams",
                Json.objectText (Json.gap ++ Json.gap)
                  [("keys", Json.quoteJSONString "home.hero")]);
               ("pathParams", "{}")]])
  /\ DataProcessor.serializeProcessed Fixtures.messageOf 0 [] = inr "[]"
  /\ DataProcessor.serializeForAI Fixtures.messageOf 7 Fixtures.selfReferential
       [JsRef 0]
     = (let message :=
          "Converting circular structure to JSON" ++ Json.newline
          ++ "    --> starting at object with constructor 'Object'"
          ++ Json.newline
          ++ "    --- property 'self' closes the circle" in
        inl (ThrownApp
               (AppError.mk VALIDATION "SERIALIZATION_ERROR"
                  "Failed to serialize processed data for AI consumption"
                  (Some message) (Some message) 7)))
  /\ DataProcessor.serializeForAI Fixtures.messageOf 7 Fixtures.withBigInt
       [JsRef 0]
     = inl (ThrownApp
              (AppError.mk VALIDATION "SERIALIZATION_ERROR"
                 "Failed to serialize processed data for AI consumption"
                 (Some "Do not know how to serialize a BigInt")
                 (Some "Do not know how to serialize a BigInt") 7))
  /\ DataProcessor.serializeForAI Fixtures.messageOf 7 Fixtures.withBigInt
       [JsRef 0; JsNull]
     = inl (ThrownApp
              (AppError.mk VALIDATION "SERIALIZATION_ERROR"
                 "Failed to serialize processed data for AI consumption"
                 (Some "Cannot read properties of null (reading 'method')")
                 (Some "Cannot read properties of null (reading 'method')")
                 7)).
Proof. vm_compute. repeat split. Qed.

(** The endpoint of the repository's test contains a cyclic structure,
    through a property the serializer does not copy.  The serializer never
    meets it: it returns the text of the two properties it finds. *)
Example uncopied_cycle_is_not_met :
  Cyclic Fixtures.circularData (JsRef 0)
  /\ DataProcessor.serializeForAI Fixtures.messageOf 7 Fixtures.circularData
       [JsRef 0]
     = inr (Json.arrayText EmptyString
              [Json.objectText Json.gap
                 [("method", Json.quoteJSONString "GET");
                  ("url", Json.quoteJSONString "test")]]).
Proof.
  split; [|vm_compute; reflexivity].
  exists 0. split; [constructor|].
  exists (JsRef 0). split; [|constructor].
  eexists. split; [reflexivity|]. simpl. tauto.
Qed.

(** Values other than strings in a copied property: a number, a property
    that is [undefined], an array with a hole, and a number that is not
    finite. *)
Example serialize_other_values :
  DataProcessor.serializeForAI Fixtures.messageOf 7
    [PlainObject
       [("method", JsNumber "200"); ("url", JsUndefined);
        ("responseBody", JsRef 1); ("queryParams", JsRef 2);
        ("pathParams", JsBoolean true)];
     ArrayObject [JsNull; JsUndefined; JsNumber "NaN"];
     PlainObject [("a", JsUndefined)]]
    [JsRef 0]
  = inr (Json.arrayText EmptyString
           [Json.objectText Json.gap
              [("method", "200");
               ("responseBody",
                Json.arrayText (Json.gap ++ Json.gap) ["null"; "null"; "null"]);
               ("queryParams", "{}");
               ("pathParams", "true")]]).
Proof. vm_compute. reflexivity. Qed.

(** * Further properties of the normalizer *)

(** ** Query parameters *)

Lemma lookup_overwrite (k v name : string) (o : Js.Record_) :
  Js.hasOwn k o = true ->
  Js.lookup name (Js.overwrite k v o)
  = if String.eqb name k then Some v else Js.lookup name o.
Proof.
  induction o as [|[k' v'] o IH]; simpl; [discriminate|].
  intros H. destruct (String.eqb k k') eqn:Hk; simpl.
  - apply String.eqb_eq in Hk. subst k'.
    now destruct (String.eqb name k).
  - simpl in H. rewrite IH by exact H.
    destruct (String.eqb name k') eqn:Hn; [|reflexivity].
    apply String.eqb_eq in Hn. subst k'.
    destruct (String.eqb name k) eqn:Hnk; [|reflexivity].
    apply String.eqb_eq in Hnk. subst name.
    rewrite String.eqb_refl in Hk. discriminate.
Qed.

Lemma hasOwn_lookup (k : string) (o : Js.Record_) :
  Js.hasOwn k o = false <-> Js.lookup k o = None.
Proof.
  induction o as [|[k' v'] o IH]; simpl; [tauto|].
  destruct (String.eqb k k'); simpl; [split; discriminate | exact IH].
Qed.

Lemma lookup_insertIndex (i : N) (k v name : string) (o : Js.Record_) :
  Js.hasOwn k o = false ->
  Js.lookup name (Js.insertIndex i k v o)
  = if String.eqb name k then Some v else Js.lookup name o.
Proof.
  induction o as [|[k' v'] o IH]; simpl; [reflexivity|].
  intros H. apply orb_false_iff in H as [Hk H].
  destruct (Js.arrayIndex k') as [j|]; [destruct (i <? j)%N|]; simpl;
    try reflexivity.
  rewrite IH by exact H.
  destruct (String.eqb name k') eqn:Hn; [|reflexivity].
  apply String.eqb_eq in Hn. subst k'.
  destruct (String.eqb name k) eqn:Hnk; [|reflexivity].
  apply String.eqb_eq in Hnk. subst name.
  rewrite String.eqb_refl in Hk. discriminate.
Qed.

Lemma lookup_app_new (k v name : string) (o : Js.Record_) :
  Js.lookup name (o ++ [(k, v)])%list
  = match Js.lookup name o with
    | Some w => Some w
    | None => if String.eqb name k then Some v else None
    end.
Proof.
  induction o as [|[k' v'] o IH]; simpl; [reflexivity|].
  now destruct (String.eqb name k').
Qed.

(** Reading back after [o[k] = v]. *)
Lemma lookup_set (k v name : string) (o : Js.Record_) :
  Js.lookup name (Js.set k v o)
  = if String.eqb k "__proto__" then Js.lookup name o
    else if String.eqb name k then Some v else Js.lookup name o.
Proof.
  unfold Js.set. destruct (String.eqb k "__proto__"); [reflexivity|].
  destruct (Js.hasOwn k o) eqn:Hown.
  - now apply lookup_overwrite.
  - destruct (Js.arrayIndex k) as [i|].
    + now apply lookup_insertIndex.
    + rewrite lookup_app_new.
      destruct (String.eqb name k) eqn:Hn.
      * apply String.eqb_eq in Hn. subst name.
        apply hasOwn_lookup in Hown. now rewrite Hown.
      * now destruct (Js.lookup name o).
Qed.

Lemma keys_overwrite (k v : string) (o : Js.Record_) :
  map fst (Js.overwrite k v o) = map fst o.
Proof.
  induction o as [|[k' v'] o IH]; simpl; [reflexivity|].
  destruct (String.eqb k k'); simpl; [reflexivity | now rewrite IH].
Qed.

Lemma keys_insertIndex (i : N) (k v : string) (o : Js.Record_) :
  Permutation (map fst (Js.insertIndex i k v o)) (k :: map fst o).
Proof.
  induction o as [|[k' v'] o IH]; simpl; [reflexivity|].
  destruct (Js.arrayIndex k') as [j|]; [destruct (i <? j)%N|]; simpl;
    try reflexivity.
  rewrite IH. apply perm_swap.
Qed.

Lemma hasOwn_In (k : string) (o : Js.Record_) :
  Js.hasOwn k o = true <-> In k (map fst o).
Proof.
  induction o as [|[k' v'] o IH]; simpl; [split; [discriminate | tauto]|].
  rewrite orb_true_iff, IH, String.eqb_eq. intuition congruence.
Qed.

Lemma keys_set_NoDup (k v : string) (o : Js.Record_) :
  NoDup (map fst o) -> NoDup (map fst (Js.set k v o)).
Proof.
  intros Hnd. unfold Js.set. destruct (String.eqb k "__proto__"); [exact Hnd|].
  destruct (Js.hasOwn k o) eqn:Hown.
  - now rewrite keys_overwrite.
  - assert (Hnew : ~ In k (map fst o)).
    { intros Hin. apply hasOwn_In in Hin. congruence. }
    destruct (Js.arrayIndex k) as [i|].
    + eapply Permutation_NoDup.
      * symmetry. apply keys_insertIndex.
      * now constructor.
    + rewrite map_app. simpl.
      eapply Permutation_NoDup; [apply Permutation_cons_append|].
      now constructor.
Qed.

Lemma searchParams_fold (pairs : list (string * string)) :
  let params :=
    fold_left (fun params kv => Js.set (fst kv) (snd kv) params) pairs [] in
  NoDup (map fst params)
  /\ forall name,
       Js.lookup name params
       = if String.eqb name "__proto__" then None
         else Js.lookup name (rev pairs).
Proof.
  induction pairs as [|[k v] pairs IH] using rev_ind; simpl.
  - split; [constructor|]. intros name. now destruct (String.eqb name "__proto__").
  - rewrite fold_left_app. simpl. destruct IH as [Hnd Hlook]. split.
    + now apply keys_set_NoDup.
    + intros name. rewrite lookup_set, rev_app_distr. simpl.
      rewrite Hlook.
      destruct (String.eqb k "__proto__") eqn:Hk.
      * apply String.eqb_eq in Hk. subst k.
        now destruct (String.eqb name "__proto__").
      * destruct (String.eqb name k) eqn:Hn; [|reflexivity].
        apply String.eqb_eq in Hn. subst name. now rewrite Hk.
Qed.

(** X1.  [extractQueryParams] keeps one entry per parameter name: reading a
    name gives the value of its last occurrence in the query string, a name
    that does not occur reads as absent, and the name [__proto__] is never
    stored. *)
Theorem extractQueryParams_last_wins (newURL : string -> option URL.t)
    (url : string) (u : URL.t) :
  newURL url = Some u ->
  let params := DataProcessor.extractQueryParams newURL url in
  NoDup (map fst params)
  /\ (forall name, name <> "__proto__" ->
        Js.lookup name params = Js.lookup name (rev (URL.searchParams u)))
  /\ Js.lookup "__proto__" params = None
  /\ (forall name value, In (name, value) params ->
        In (name, value) (URL.searchParams u)).
Proof.
  intros Hu params.
  assert (Hp : params
               = fold_left (fun params kv => Js.set (fst kv) (snd kv) params)
                   (URL.searchParams u) []).
  { unfold params, DataProcessor.extractQueryParams, tryURL. now rewrite Hu. }
  destruct (searchParams_fold (URL.searchParams u)) as [Hnd Hlook].
  rewrite <- Hp in Hnd, Hlook.
  assert (Hin : forall (o : Js.Record_) name value,
             Js.lookup name o = Some value -> In (name, value) o).
  { induction o as [|[k v] o IH]; simpl; [discriminate|].
    intros name value. destruct (String.eqb name k) eqn:Hk.
    - apply String.eqb_eq in Hk. subst k. intros H. injection H as ->. now left.
    - intros H. right. now apply IH. }
  assert (Hfirst : forall (o : Js.Record_) name value,
             NoDup (map fst o) -> In (name, value) o ->
             Js.lookup name o = Some value).
  { induction o as [|[k v] o IH]; simpl; [tauto|].
    intros name value Hn [H|H].
    - injection H as -> ->. now rewrite String.eqb_refl.
    - destruct (String.eqb name k) eqn:Hk.
      + apply String.eqb_eq in Hk. subst k. inversion Hn as [|? ? Hnot _].
        exfalso. apply Hnot. now apply (in_map fst) in H.
      + inversion Hn. now apply IH. }
  repeat split.
  - exact Hnd.
  - intros name Hname. rewrite Hlook.
    destruct (String.eqb name "__proto__") eqn:E; [|reflexivity].
    now apply String.eqb_eq in E.
  - now rewrite Hlook.
  - intros name value Hmem. apply (Hfirst _ _ _ Hnd) in Hmem.
    rewrite Hlook in Hmem.
    destruct (String.eqb name "__proto__"); [discriminate|].
    apply Hin in Hmem. now apply in_rev.
Qed.

Lemma extractQueryParams_last_wins_witness :
  let params :=
    DataProcessor.extractQueryParams Fixtures.newURL
      "https://api.example.com/v1/users?page=1&sort=asc&page=2" in
  NoDup (map fst params)
  /\ Js.lookup "page" params = Some "2"
  /\ Js.lookup "__proto__" params = None.
Proof.
  destruct (@extractQueryParams_last_wins Fixtures.newURL
              "https://api.example.com/v1/users?page=1&sort=asc&page=2"
              (URL.mk "api.example.com" "/v1/users"
                 [("page", "1"); ("sort", "asc"); ("page", "2")] "")
              eq_refl)
    as [Hnd [Hlook [Hproto _]]].
  split; [exact Hnd|]. split; [|exact Hproto].
  rewrite Hlook; [reflexivity | discriminate].
Defined.

(** ** Counts *)

Lemma filter_length_le {A} (f : A -> bool) (l : list A) :
  List.length (filter f l) <= List.length l.
Proof.
  induction l as [|a l IH]; simpl; [lia|]. destruct (f a); simpl; lia.
Qed.

Lemma filterAndPrioritizeLogs_length (newURL : string -> option URL.t)
    (options : Options.t) (logs : NetworkLogCollection) :
  List.length (DataProcessor.filterAndPrioritizeLogs newURL options logs)
  <= List.length logs
  /\ ((Options.maxApis options > 0)%Z ->
      List.length (DataProcessor.filterAndPrioritizeLogs newURL options logs)
      <= Z.to_nat (Options.maxApis options)).
Proof.
  rewrite filterAndPrioritizeLogs_spec. cbv zeta.
  assert (Hord : forall ordered : NetworkLogCollection,
             List.length ordered = List.length logs ->
             List.length
               (if (Options.maxApis options >? 0)%Z
                then firstn (Z.to_nat (Options.maxApis options)) ordered
                else ordered) <= List.length logs
             /\ ((Options.maxApis options > 0)%Z ->
                 List.length
                   (if (Options.maxApis options >? 0)%Z
                    then firstn (Z.to_nat (Options.maxApis options)) ordered
                    else ordered) <= Z.to_nat (Options.maxApis options))).
  { intros ordered Hlen.
    destruct (Options.maxApis options >? 0)%Z eqn:Hcap.
    - rewrite length_firstn. lia.
    - split; [lia|]. intros Hpos. rewrite Z.gtb_ltb in Hcap.
      apply Z.ltb_ge in Hcap. lia. }
  destruct (Options.prioritizeBffApis options); apply Hord;
    [apply blockFirst_length | reflexivity].
Qed.

(** X2.  The counts of a result are ordered: the block-API count never
    exceeds the number of endpoints, which never exceeds the number of
    input exchanges nor a positive [maxApis]. *)
Theorem processNetworkLogs_count_order (newURL : string -> option URL.t)
    (now : Z) (options : Options.t) (logs : NetworkLogCollection) :
  let result := DataProcessor.processNetworkLogs newURL now options logs in
  DataProcessingResult.bffApiCount result
  <= DataProcessingResult.uniqueEndpoints result
  /\ DataProcessingResult.uniqueEndpoints result
     <= DataProcessingResult.totalLogs result
  /\ ((Options.maxApis options > 0)%Z ->
      (Z.of_nat (DataProcessingResult.uniqueEndpoints result)
       <= Options.maxApis options)%Z).
Proof.
  intros result. unfold result.
  destruct (filterAndPrioritizeLogs_length newURL options logs) as [Hlen Hcap].
  destruct (nil_or_not logs) as [->|Hne].
  - rewrite processNetworkLogs_empty.
    cbn [DataProcessingResult.bffApiCount DataProcessingResult.uniqueEndpoints
         DataProcessingResult.totalLogs].
    split; [lia|]. split; [lia|]. intros Hpos. simpl. lia.
  - destruct (Options.mergeDuplicates options) eqn:Hmerge.
    + destruct (@processNetworkLogs_merged newURL now options logs Hne Hmerge)
        as [pd [-> [Hgroups HF]]].
      simpl. apply Forall2_length_eq in HF.
      assert (Hids : List.length pd
                     <= List.length
                          (DataProcessor.filterAndPrioritizeLogs newURL
                             options logs)).
      { rewrite <- HF, Hgroups, length_map. unfold identities.
        rewrite firstSeen_length. now rewrite length_map. }
      repeat split.
      * rewrite <- HF. apply filter_length_le.
      * lia.
      * intros Hpos. specialize (Hcap Hpos). lia.
    + rewrite (@processNetworkLogs_unmerged newURL now options logs Hne Hmerge).
      simpl. rewrite length_map. repeat split.
      * apply filter_length_le.
      * exact Hlen.
      * intros Hpos. specialize (Hcap Hpos). lia.
Qed.

Lemma processNetworkLogs_count_order_witness :
  let result :=
    DataProcessor.processNetworkLogs Fixtures.newURL 0
      (Options.mk true true 2 false)
      [Fixtures.users; Fixtures.banner; Fixtures.listing; Fixtures.hero] in
  (Z.of_nat (DataProcessingResult.uniqueEndpoints result) <= 2)%Z.
Proof.
  apply (proj2 (proj2 (processNetworkLogs_count_order Fixtures.newURL 0
                         (Options.mk true true 2 false)
                         [Fixtures.users; Fixtures.banner; Fixtures.listing;
                          Fixtures.hero]))).
  simpl. lia.
Defined.

(** ** Provenance and identity of the output *)

Lemma firstn_subset {A} (n : nat) (l : list A) (x : A) :
  In x (firstn n l) -> In x l.
Proof.
  intros H. rewrite <- (firstn_skipn n l). apply in_or_app. now left.
Qed.

Lemma filterAndPrioritizeLogs_In (newURL : string -> option URL.t)
    (options : Options.t) (logs : NetworkLogCollection) (x : NetworkLogEntry.t) :
  In x (DataProcessor.filterAndPrioritizeLogs newURL options logs) -> In x logs.
Proof.
  rewrite filterAndPrioritizeLogs_spec. cbv zeta.
  assert (Hb : In x (blockFirst newURL logs) -> In x logs).
  { unfold blockFirst. rewrite in_app_iff.
    intros [H|H]; apply filter_In in H; tauto. }
  assert (Hcap : forall ordered : NetworkLogCollection,
             In x (if (Options.maxApis options >? 0)%Z
                   then firstn (Z.to_nat (Options.maxApis options)) ordered
                   else ordered) -> In x ordered).
  { intros ordered. destruct (Options.maxApis options >? 0)%Z;
      [apply firstn_subset | tauto]. }
  destruct (Options.prioritizeBffApis options); intros H; apply Hcap in H;
    auto.
Qed.

Lemma IsRepresentative_In (logs : list NetworkLogEntry.t)
    (r : NetworkLogEntry.t) :
  IsRepresentative logs r -> In r logs.
Proof.
  intros [earlier [later [-> _]]]. apply in_elt.
Qed.

Lemma Forall2_choose {A B C} (R : A -> C -> Prop) (g : C -> B)
    (l : list A) (l' : list B) :
  Forall2 (fun a b => exists c, R a c /\ b = g c) l l' ->
  exists cs, l' = map g cs /\ Forall2 R l cs.
Proof.
  induction 1 as [|a b l l' [c [Hc ->]] _ [cs [-> Hcs]]].
  - now exists [].
  - exists (c :: cs). split; [reflexivity | now constructor].
Qed.

(** With merging on, the output is the normal form of one exchange per
    endpoint identity of the capped list. *)
Lemma processNetworkLogs_representatives (newURL : string -> option URL.t)
    (now : Z) (options : Options.t) (logs : NetworkLogCollection) :
  logs <> [] ->
  Options.mergeDuplicates options = true ->
  let filteredLogs := DataProcessor.filterAndPrioritizeLogs newURL options logs in
  exists representatives,
    DataProcessor.processNetworkLogs newURL now options logs
    = DataProcessingResult.mk true
        (map (DataProcessor.processLogEntry newURL) representatives)
        (List.length logs)
        (List.length
           (filter EndpointMergeInfo.isBffBlockApi
              (map (groupOf newURL filteredLogs)
                 (identities newURL filteredLogs))))
        (List.length representatives) None
    /\ Forall2
         (fun k r =>
            In r filteredLogs /\ DataProcessor.createEndpointKey newURL r = k)
         (identities newURL filteredLogs) representatives.
Proof.
  intros Hne Hmerge filteredLogs.
  destruct (@processNetworkLogs_merged newURL now options logs Hne Hmerge)
    as [pd [Hres [Hgroups HF]]].
  fold filteredLogs in Hgroups, HF, Hres. rewrite Hgroups in HF, Hres.
  apply Forall2_map_l in HF.
  assert (HF' : Forall2
                  (fun k p =>
                     exists r,
                       (In r filteredLogs
                        /\ DataProcessor.createEndpointKey newURL r = k)
                       /\ p = DataProcessor.processLogEntry newURL r)
                  (identities newURL filteredLogs) pd).
  { eapply Forall2_impl; [|exact HF].
    intros k p [_ [r [Hrep ->]]]. exists r. split; [|reflexivity].
    apply IsRepresentative_In in Hrep. simpl in Hrep.
    apply filter_In in Hrep as [Hin Hk]. now apply String.eqb_eq in Hk. }
  apply Forall2_choose in HF' as [rs [-> Hrs]].
  exists rs. split; [|exact Hrs]. rewrite Hres. now rewrite length_map.
Qed.

(** X3.  With merging on, the output has exactly one endpoint for each
    endpoint identity of the capped list: the exchanges the endpoints are
    taken from carry the identities of the list, each once, in first-seen
    order, and [uniqueEndpoints] is the number of identities. *)
Theorem processNetworkLogs_one_per_identity (newURL : string -> option URL.t)
    (now : Z) (options : Options.t) (logs : NetworkLogCollection) :
  logs <> [] ->
  Options.mergeDuplicates options = true ->
  let filteredLogs := DataProcessor.filterAndPrioritizeLogs newURL options logs in
  let result := DataProcessor.processNetworkLogs newURL now options logs in
  exists representatives,
    DataProcessingResult.processedData result
    = map (DataProcessor.processLogEntry newURL) representatives
    /\ map (DataProcessor.createEndpointKey newURL) representatives
       = identities newURL filteredLogs
    /\ NoDup (map (DataProcessor.createEndpointKey newURL) representatives)
    /\ (forall log, In log filteredLogs ->
          In (DataProcessor.createEndpointKey newURL log)
            (map (DataProcessor.createEndpointKey newURL) representatives))
    /\ (forall r, In r representatives -> In r filteredLogs)
    /\ DataProcessingResult.uniqueEndpoints result
       = List.length (identities newURL filteredLogs).
Proof.
  intros Hne Hmerge filteredLogs result.
  destruct (@processNetworkLogs_representatives newURL now options logs
              Hne Hmerge) as [rs [Hres Hrs]].
  fold filteredLogs in Hres, Hrs.
  assert (Hkeys : map (DataProcessor.createEndpointKey newURL) rs
                  = identities newURL filteredLogs).
  { clear - Hrs. induction Hrs as [|k r ks rs [_ Hk] _ IH]; simpl;
      [reflexivity | now rewrite Hk, IH]. }
  exists rs. unfold result. rewrite Hres. simpl.
  split; [reflexivity|]. split; [exact Hkeys|]. rewrite Hkeys.
  split; [apply (firstSeen_NoDup newURL)|].
  split; [|split].
  - intros log Hlog. apply (firstSeen_In newURL). now apply in_map.
  - intros r Hr. destruct (Forall2_In_r r Hrs Hr) as [k [_ [Hin _]]]. exact Hin.
  - now rewrite <- Hkeys, length_map.
Qed.

Lemma processNetworkLogs_one_per_identity_witness :
  exists representatives,
    DataProcessingResult.processedData
      (DataProcessor.processNetworkLogs Fixtures.newURL 0 Fixtures.defaults
         Fixtures.traffic)
    = map (DataProcessor.processLogEntry Fixtures.newURL) representatives
    /\ map (DataProcessor.createEndpointKey Fixtures.newURL) representatives
       = ["GET api.example.com/v1/blocks"; "GET api.example.com/v1/users"].
Proof.
  destruct (@processNetworkLogs_one_per_identity Fixtures.newURL 0
              Fixtures.defaults Fixtures.traffic)
    as [rs [Hdata [Hkeys _]]]; [discriminate | reflexivity |].
  exists rs. split; [exact Hdata | exact Hkeys].
Defined.

(** X4.  The normalizer invents nothing: in either mode every endpoint of
    the output is the normal form of one exchange of the input, with that
    exchange's URL and response body and its method in upper case. *)
Theorem processNetworkLogs_provenance (newURL : string -> option URL.t)
    (now : Z) (options : Options.t) (logs : NetworkLogCollection)
    (p : ProcessedApiData.t) :
  In p (DataProcessingResult.processedData
          (DataProcessor.processNetworkLogs newURL now options logs)) ->
  exists log,
    In log logs
    /\ p = DataProcessor.processLogEntry newURL log
    /\ ProcessedApiData.url p = DataProcessor.requestUrl log
    /\ ProcessedApiData.responseBody p = DataProcessor.responseBody log
    /\ ProcessedApiData.method p
       = Js.toUpperCase (DataProcessor.requestMethod log).
Proof.
  intros Hp.
  assert (H : exists log, In log logs
                /\ p = DataProcessor.processLogEntry newURL log).
  { destruct (nil_or_not logs) as [->|Hne].
    - rewrite processNetworkLogs_empty in Hp. destruct Hp.
    - destruct (Options.mergeDuplicates options) eqn:Hmerge.
      + destruct (@processNetworkLogs_representatives newURL now options logs
                    Hne Hmerge) as [rs [Hres Hrs]].
        rewrite Hres in Hp. simpl in Hp.
        apply in_map_iff in Hp as [r [<- Hr]].
        exists r. split; [|reflexivity].
        destruct (Forall2_In_r r Hrs Hr) as [k [_ [Hin _]]].
        eapply filterAndPrioritizeLogs_In. exact Hin.
      + rewrite (@processNetworkLogs_unmerged newURL now options logs
                   Hne Hmerge) in Hp.
        simpl in Hp. apply in_map_iff in Hp as [r [<- Hr]].
        exists r. split; [|reflexivity].
        eapply filterAndPrioritizeLogs_In. exact Hr. }
  destruct H as [log [Hlog ->]]. exists log. now repeat split.
Qed.

Lemma processNetworkLogs_provenance_witness :
  exists log,
    In log [Fixtures.broken; Fixtures.users]
    /\ ProcessedApiData.mk "GET" "https://api.example.com/v1/users" "[7]" [] []
       = DataProcessor.processLogEntry Fixtures.newURL log.
Proof.
  destruct (@processNetworkLogs_provenance Fixtures.newURL 0 Fixtures.defaults
              [Fixtures.broken; Fixtures.users]
              (ProcessedApiData.mk "GET" "https://api.example.com/v1/users"
                 "[7]" [] []))
    as [log [Hin [Heq _]]].
  - vm_compute. right. now left.
  - exists log. split; [exact Hin | exact Heq].
Defined.

(** ** Merging on traffic without duplicates *)

Lemma firstSeen_NoDup_id (keys : list string) :
  NoDup keys -> firstSeen keys = keys.
Proof.
  induction keys as [|k keys IH] using rev_ind; [reflexivity|].
  intros Hnd. apply NoDup_remove in Hnd as [Hnd Hnot].
  rewrite app_nil_r in Hnd, Hnot.
  rewrite firstSeen_snoc, IH by exact Hnd.
  destruct (existsb (String.eqb k) keys) eqn:E; [|reflexivity].
  apply existsb_eqb_In in E. contradiction.
Qed.

Lemma filter_none {A} (f : A -> bool) (l : list A) :
  (forall a, In a l -> f a = false) -> filter f l = [].
Proof.
  induction l as [|a l IH]; simpl; [reflexivity|].
  intros H. rewrite (H a) by now left. apply IH. intros b Hb. apply H. now right.
Qed.

Lemma membersOf_single (newURL : string -> option URL.t)
    (logs : NetworkLogCollection) (x : NetworkLogEntry.t) :
  NoDup (map (DataProcessor.createEndpointKey newURL) logs) ->
  In x logs ->
  membersOf newURL (DataProcessor.createEndpointKey newURL x) logs = [x].
Proof.
  unfold membersOf. induction logs as [|y logs IH]; simpl; [tauto|].
  intros Hnd Hin. inversion Hnd as [|? ? Hnot Hnd']. subst.
  destruct Hin as [->|Hin].
  - rewrite String.eqb_refl. f_equal.
    apply filter_none. intros y Hy.
    destruct (String.eqb (DataProcessor.createEndpointKey newURL y)
                (DataProcessor.createEndpointKey newURL x)) eqn:E;
      [|reflexivity].
    apply String.eqb_eq in E. exfalso. apply Hnot. rewrite <- E.
    now apply in_map.
  - destruct (String.eqb (DataProcessor.createEndpointKey newURL y)
                (DataProcessor.createEndpointKey newURL x)) eqn:E.
    + apply String.eqb_eq in E. exfalso. apply Hnot. rewrite E.
      now apply in_map.
    + now apply IH.
Qed.

Lemma NoDup_map_injective {A B} (f : A -> B) (l : list A) (a b : A) :
  NoDup (map f l) -> In a l -> In b l -> f a = f b -> a = b.
Proof.
  induction l as [|x l IH]; simpl; [tauto|].
  intros Hnd Ha Hb Hab. inversion Hnd as [|? ? Hnot Hnd']. subst.
  destruct Ha as [->|Ha], Hb as [->|Hb]; try reflexivity.
  - exfalso. apply Hnot. rewrite Hab. now apply in_map.
  - exfalso. apply Hnot. rewrite <- Hab. now apply in_map.
  - now apply IH.
Qed.

Lemma filter_map_length {A B} (f : B -> bool) (g : A -> B) (l : list A) :
  List.length (filter f (map g l))
  = List.length (filter (fun a => f (g a)) l).
Proof.
  induction l as [|a l IH]; simpl; [reflexivity|].
  destruct (f (g a)); simpl; now rewrite IH.
Qed.

Lemma Forall2_same_keys {A B} (f : A -> B) (all l rs : list A) :
  NoDup (map f all) ->
  (forall x, In x l -> In x all) ->
  Forall2 (fun x r => In r all /\ f r = f x) l rs ->
  rs = l.
Proof.
  intros Hnd Hsub Hrs. induction Hrs as [|x r l' rs' [Hin Hk] _ IH];
    [reflexivity|].
  f_equal.
  - apply (NoDup_map_injective f all); auto. apply Hsub. now left.
  - apply IH. intros y Hy. apply Hsub. now right.
Qed.

(** X5.  On traffic whose capped list holds no two exchanges of the same
    endpoint identity, merging changes nothing: the result with
    [mergeDuplicates] on is the result with it off. *)
Theorem processNetworkLogs_merge_without_duplicates
    (newURL : string -> option URL.t) (now : Z)
    (prioritizeBffApis : bool) (maxApis : Z) (includeHeaders : bool)
    (logs : NetworkLogCollection) :
  NoDup (map (DataProcessor.createEndpointKey newURL)
           (DataProcessor.filterAndPrioritizeLogs newURL
              (Options.mk true prioritizeBffApis maxApis includeHeaders) logs)) ->
  DataProcessor.processNetworkLogs newURL now
    (Options.mk true prioritizeBffApis maxApis includeHeaders) logs
  = DataProcessor.processNetworkLogs newURL now
      (Options.mk false prioritizeBffApis maxApis includeHeaders) logs.
Proof.
  intros Hnd. destruct (nil_or_not logs) as [->|Hne].
  - now rewrite !processNetworkLogs_empty.
  - rewrite (@processNetworkLogs_unmerged newURL now
               (Options.mk false prioritizeBffApis maxApis includeHeaders)
               logs Hne eq_refl).
    destruct (@processNetworkLogs_representatives newURL now
                (Options.mk true prioritizeBffApis maxApis includeHeaders)
                logs Hne eq_refl) as [rs [-> Hrs]].
    change (DataProcessor.filterAndPrioritizeLogs newURL
              (Options.mk false prioritizeBffApis maxApis includeHeaders) logs)
      with (DataProcessor.filterAndPrioritizeLogs newURL
              (Options.mk true prioritizeBffApis maxApis includeHeaders) logs).
    set (filteredLogs :=
           DataProcessor.filterAndPrioritizeLogs newURL
             (Options.mk true prioritizeBffApis maxApis includeHeaders) logs)
      in *.
    assert (Hids : identities newURL filteredLogs
                   = map (DataProcessor.createEndpointKey newURL) filteredLogs).
    { unfold identities. now apply firstSeen_NoDup_id. }
    rewrite Hids in Hrs. apply Forall2_map_l in Hrs.
    assert (Heq : rs = filteredLogs).
    { apply (Forall2_same_keys (DataProcessor.createEndpointKey newURL)
               filteredLogs); [exact Hnd | tauto | exact Hrs]. }
    subst rs. f_equal; [|now rewrite length_map].
    rewrite Hids, map_map, filter_map_length. f_equal.
    apply filter_ext_in. intros x Hx. simpl.
    rewrite (membersOf_single newURL filteredLogs x Hnd Hx). simpl.
    apply orb_false_r.
Qed.

Lemma processNetworkLogs_merge_without_duplicates_witness :
  DataProcessor.processNetworkLogs Fixtures.newURL 0
    (Options.mk true true 50 false) [Fixtures.users; Fixtures.banner]
  = DataProcessor.processNetworkLogs Fixtures.newURL 0
      (Options.mk false true 50 false) [Fixtures.users; Fixtures.banner].
Proof.
  apply processNetworkLogs_merge_without_duplicates.
  vm_compute. repeat constructor; simpl; intuition discriminate.
Defined.

(** ** What prioritising and capping keep *)

Lemma blockFirst_Permutation (newURL : string -> option URL.t)
    (logs : NetworkLogCollection) :
  Permutation (blockFirst newURL logs) logs.
Proof.
  unfold blockFirst. induction logs as [|x logs IH]; simpl; [constructor|].
  destruct (DataProcessor.isBffBlockApiPattern newURL x); simpl.
  - now constructor.
  - rewrite <- Permutation_middle. now constructor.
Qed.

(** X6.  Without a positive [maxApis] nothing is dropped: the list handed
    to grouping is a rearrangement of the input.  With one, the list and the
    exchanges it leaves out together are a rearrangement of the input. *)
Theorem filterAndPrioritizeLogs_rearranges (newURL : string -> option URL.t)
    (options : Options.t) (logs : NetworkLogCollection) :
  let filteredLogs := DataProcessor.filterAndPrioritizeLogs newURL options logs in
  (exists dropped, Permutation (filteredLogs ++ dropped)%list logs)
  /\ ((Options.maxApis options <= 0)%Z -> Permutation filteredLogs logs)
  /\ (Options.prioritizeBffApis options = false ->
      filteredLogs
      = if (Options.maxApis options >? 0)%Z
        then firstn (Z.to_nat (Options.maxApis options)) logs
        else logs).
Proof.
  intros filteredLogs. unfold filteredLogs.
  rewrite filterAndPrioritizeLogs_spec. cbv zeta.
  assert (Hord : forall ordered : NetworkLogCollection,
             Permutation ordered logs ->
             (exists dropped,
                Permutation
                  ((if (Options.maxApis options >? 0)%Z
                    then firstn (Z.to_nat (Options.maxApis options)) ordered
                    else ordered) ++ dropped)%list logs)
             /\ ((Options.maxApis options <= 0)%Z ->
                 Permutation
                   (if (Options.maxApis options >? 0)%Z
                    then firstn (Z.to_nat (Options.maxApis options)) ordered
                    else ordered) logs)).
  { intros ordered Hperm. destruct (Options.maxApis options >? 0)%Z eqn:Hcap.
    - split.
      + exists (skipn (Z.to_nat (Options.maxApis options)) ordered).
        now rewrite firstn_skipn.
      + intros Hle. rewrite Z.gtb_ltb in Hcap. apply Z.ltb_lt in Hcap. lia.
    - split; [|now intros _].
      exists []. now rewrite app_nil_r. }
  destruct (Options.prioritizeBffApis options).
  - destruct (Hord (blockFirst newURL logs) (blockFirst_Permutation newURL logs))
      as [H1 H2].
    split; [exact H1|]. split; [exact H2 | discriminate].
  - destruct (Hord logs (Permutation_refl logs)) as [H1 H2].
    split; [exact H1|]. split; [exact H2 | reflexivity].
Qed.

Lemma filterAndPrioritizeLogs_rearranges_witness :
  Permutation
    (DataProcessor.filterAndPrioritizeLogs Fixtures.newURL
       (Options.mk true true 0 false) Fixtures.traffic)
    Fixtures.traffic.
Proof.
  apply (proj1 (proj2 (filterAndPrioritizeLogs_rearranges Fixtures.newURL
                         (Options.mk true true 0 false) Fixtures.traffic))).
  simpl. lia.
Defined.

(** X7.  With prioritising and a positive [maxApis], block exchanges are
    kept before any other: the block exchanges kept are the first ones
    captured, and an exchange that is not a block exchange is kept only
    when every block exchange is. *)
Theorem filterAndPrioritizeLogs_keeps_blocks_first
    (newURL : string -> option URL.t) (options : Options.t)
    (logs : NetworkLogCollection) :
  Options.prioritizeBffApis options = true ->
  (Options.maxApis options > 0)%Z ->
  let isBlock := DataProcessor.isBffBlockApiPattern newURL in
  let filteredLogs := DataProcessor.filterAndPrioritizeLogs newURL options logs in
  filter isBlock filteredLogs
  = firstn (Z.to_nat (Options.maxApis options)) (filter isBlock logs)
  /\ (forall other,
        In other filteredLogs -> isBlock other = false ->
        forall block, In block logs -> isBlock block = true ->
                      In block filteredLogs)
  /\ (Z.to_nat (Options.maxApis options)
      <= List.length (filter isBlock logs) ->
      filteredLogs
      = firstn (Z.to_nat (Options.maxApis options)) (filter isBlock logs)).
Proof.
  intros Hprio Hcap isBlock filteredLogs. unfold filteredLogs.
  rewrite filterAndPrioritizeLogs_spec. cbv zeta. rewrite Hprio.
  assert (Hgtb : (Options.maxApis options >? 0)%Z = true).
  { rewrite Z.gtb_ltb. apply Z.ltb_lt. lia. }
  rewrite Hgtb. unfold blockFirst. fold isBlock.
  set (n := Z.to_nat (Options.maxApis options)).
  set (blocks := filter isBlock logs).
  set (others := filter (fun log => negb (isBlock log)) logs).
  rewrite firstn_app.
  assert (Hb : forall l, filter isBlock (firstn n (filter isBlock l))
                         = firstn n (filter isBlock l)).
  { intros l. apply forallb_filter_id. apply forallb_forall. intros x Hx.
    apply firstn_subset in Hx. now apply filter_In in Hx. }
  assert (Ho : forall m, filter isBlock (firstn m others) = []).
  { intros m. apply filter_none. intros x Hx. apply firstn_subset in Hx.
    apply filter_In in Hx as [_ Hx]. now apply negb_true_iff. }
  split; [|split].
  - rewrite filter_app, Ho, app_nil_r. apply Hb.
  - intros other Hin Hother block Hblock Hflag.
    apply in_app_iff in Hin as [Hin|Hin].
    + apply firstn_subset in Hin. apply filter_In in Hin as [_ Hin].
      congruence.
    + apply in_app_iff. left.
      assert (Hlt : List.length blocks < n).
      { destruct (Nat.le_gt_cases n (List.length blocks)) as [Hle|Hlt];
          [|exact Hlt].
        replace (n - List.length blocks) with 0 in Hin by lia.
        destruct Hin. }
      rewrite firstn_all2 by lia. apply filter_In. now split.
  - intros Hle. replace (n - List.length blocks) with 0 by lia.
    simpl. apply app_nil_r.
Qed.

Lemma filterAndPrioritizeLogs_keeps_blocks_first_witness :
  DataProcessor.filterAndPrioritizeLogs Fixtures.newURL
    (Options.mk true true 2 false)
    [Fixtures.users; Fixtures.banner; Fixtures.listing; Fixtures.hero]
  = firstn 2
      (filter (DataProcessor.isBffBlockApiPattern Fixtures.newURL)
         [Fixtures.users; Fixtures.banner; Fixtures.listing; Fixtures.hero]).
Proof.
  apply (proj2 (proj2 (@filterAndPrioritizeLogs_keeps_blocks_first
                         Fixtures.newURL (Options.mk true true 2 false)
                         [Fixtures.users; Fixtures.banner; Fixtures.listing;
                          Fixtures.hero] eq_refl eq_refl))).
  vm_compute. lia.
Defined.

(** * Properties of the utility functions *)

(** ** Dictionaries *)

Lemma lookupOwn_overwrite {V} (k name : string) (v : V) (d : JsDict.t V) :
  JsDict.lookupOwn k d <> None ->
  JsDict.lookupOwn name (JsDict.overwrite k v d)
  = if String.eqb name k then Some v else JsDict.lookupOwn name d.
Proof.
  induction d as [|[k' v'] d IH]; simpl; [congruence|].
  intros H. destruct (String.eqb k k') eqn:Hk; simpl.
  - apply String.eqb_eq in Hk. subst k'. now destruct (String.eqb name k).
  - rewrite IH by exact H.
    destruct (String.eqb name k') eqn:Hn; [|reflexivity].
    apply String.eqb_eq in Hn. subst k'.
    destruct (String.eqb name k) eqn:Hnk; [|reflexivity].
    apply String.eqb_eq in Hnk. subst name.
    rewrite String.eqb_refl in Hk. discriminate.
Qed.

Lemma lookupOwn_insertIndex {V} (i : N) (k name : string) (v : V)
    (d : JsDict.t V) :
  JsDict.lookupOwn k d = None ->
  JsDict.lookupOwn name (JsDict.insertIndex i k v d)
  = if String.eqb name k then Some v else JsDict.lookupOwn name d.
Proof.
  induction d as [|[k' v'] d IH]; simpl; [reflexivity|].
  intros H. destruct (String.eqb k k') eqn:Hk; [discriminate|].
  destruct (Js.arrayIndex k') as [j|]; [destruct (i <? j)%N|]; simpl;
    try reflexivity.
  rewrite IH by exact H.
  destruct (String.eqb name k') eqn:Hn; [|reflexivity].
  apply String.eqb_eq in Hn. subst k'.
  destruct (String.eqb name k) eqn:Hnk; [|reflexivity].
  apply String.eqb_eq in Hnk. subst name.
  rewrite String.eqb_refl in Hk. discriminate.
Qed.

Lemma lookupOwn_define {V} (k name : string) (v : V) (d : JsDict.t V) :
  JsDict.lookupOwn k d = None ->
  JsDict.lookupOwn name (JsDict.define k v d)
  = if String.eqb name k then Some v else JsDict.lookupOwn name d.
Proof.
  intros H. unfold JsDict.define. destruct (Js.arrayIndex k) as [i|].
  - now apply lookupOwn_insertIndex.
  - induction d as [|[k' v'] d IH]; simpl; [reflexivity|].
    simpl in H. destruct (String.eqb k k') eqn:Hk; [discriminate|].
    rewrite IH by exact H.
    destruct (String.eqb name k') eqn:Hn; [|reflexivity].
    apply String.eqb_eq in Hn. subst k'.
    destruct (String.eqb name k) eqn:Hnk; [|reflexivity].
    apply String.eqb_eq in Hnk. subst name.
    rewrite String.eqb_refl in Hk. discriminate.
Qed.

Lemma pushTo_returns {V} (k : string) (x : V) (d : JsDict.t (list V)) :
  existsb (String.eqb k) JsDict.objectPrototype = false ->
  exists d',
    JsDict.pushTo k x d = inr d'
    /\ forall name,
         JsDict.lookupOwn name d'
         = if String.eqb name k then Some (itemsOf k d ++ [x])%list
           else JsDict.lookupOwn name d.
Proof.
  intros Hk. unfold JsDict.pushTo, JsDict.read, itemsOf. rewrite Hk.
  destruct (JsDict.lookupOwn k d) as [items|] eqn:Hown.
  - eexists. split; [reflexivity|]. intros name.
    apply lookupOwn_overwrite. congruence.
  - eexists. split; [reflexivity|]. intros name.
    now apply lookupOwn_define.
Qed.

Lemma pushTo_throws {V} (k : string) (x : V) (d : JsDict.t (list V)) :
  existsb (String.eqb k) JsDict.objectPrototype = true ->
  JsDict.lookupOwn k d = None ->
  exists t, JsDict.pushTo k x d = inl t.
Proof.
  intros Hk Hown. unfold JsDict.pushTo, JsDict.read. rewrite Hown, Hk.
  eexists. reflexivity.
Qed.

(** ** Upper case *)

Lemma upperChar_not_lower (c : ascii) : isLowerCase (Js.upperChar c) = false.
Proof.
  unfold Js.upperChar, isLowerCase.
  destruct ((97 <=? nat_of_ascii c) && (nat_of_ascii c <=? 122))%nat eqn:E.
  - apply andb_true_iff in E as [H1 H2].
    apply Nat.leb_le in H1. apply Nat.leb_le in H2.
    rewrite nat_ascii_embedding by lia.
    apply andb_false_iff. left. apply Nat.leb_gt. lia.
  - exact E.
Qed.

Lemma toUpperCase_no_lower (s : string) : hasLowerCase (Js.toUpperCase s) = false.
Proof.
  induction s as [|c s IH]; simpl; [reflexivity|].
  now rewrite upperChar_not_lower, IH.
Qed.

(** No upper-cased text is the name of a property of [Object.prototype]. *)
Lemma toUpperCase_not_inherited (s : string) :
  existsb (String.eqb (Js.toUpperCase s)) JsDict.objectPrototype = false.
Proof.
  destruct (existsb (String.eqb (Js.toUpperCase s)) JsDict.objectPrototype)
    eqn:E; [|reflexivity].
  apply existsb_eqb_In in E. pose proof (toUpperCase_no_lower s) as H.
  simpl in E. repeat (destruct E as [E|E]; [rewrite <- E in H; discriminate|]).
  destruct E.
Qed.

(** ** Grouping into a dictionary *)

Lemma filedUnder_snoc {A} (keyOf : A -> option string) (name : string)
    (l : list A) (x : A) :
  filedUnder keyOf name (l ++ [x])
  = (filedUnder keyOf name l
     ++ match keyOf x with
        | Some k => if String.eqb k name then [x] else []
        | None => []
        end)%list.
Proof.
  unfold filedUnder. rewrite filter_app. simpl.
  destruct (keyOf x) as [k|]; [destruct (String.eqb k name)|]; reflexivity.
Qed.

Lemma Files_itemsOf {A} (keyOf : A -> option string) (d : JsDict.t (list A))
    (l : list A) (name : string) :
  Files keyOf d l -> itemsOf name d = filedUnder keyOf name l.
Proof.
  intros H. unfold itemsOf. rewrite (H name).
  now destruct (filedUnder keyOf name l).
Qed.

Lemma Files_push {A} (keyOf : A -> option string) (d : JsDict.t (list A))
    (l : list A) (x : A) (k : string) :
  Files keyOf d l ->
  keyOf x = Some k ->
  existsb (String.eqb k) JsDict.objectPrototype = false ->
  exists d', JsDict.pushTo k x d = inr d' /\ Files keyOf d' (l ++ [x]).
Proof.
  intros Hd Hx Hk. destruct (pushTo_returns k x d Hk) as [d' [Hpush Hlook]].
  exists d'. split; [exact Hpush|]. intros name.
  rewrite Hlook, filedUnder_snoc, Hx.
  destruct (String.eqb name k) eqn:Hn.
  - apply String.eqb_eq in Hn. subst name. rewrite String.eqb_refl.
    rewrite (Files_itemsOf k Hd).
    now destruct (filedUnder keyOf k l).
  - rewrite String.eqb_sym, Hn, app_nil_r. apply Hd.
Qed.

Lemma Files_skip {A} (keyOf : A -> option string) (d : JsDict.t (list A))
    (l : list A) (x : A) :
  Files keyOf d l -> keyOf x = None -> Files keyOf d (l ++ [x]).
Proof.
  intros Hd Hx name. rewrite filedUnder_snoc, Hx, app_nil_r. apply Hd.
Qed.

Lemma Files_nil {A} (keyOf : A -> option string) : Files keyOf [] [].
Proof. intros name. reflexivity. Qed.

Lemma groupByMethod_files (processedData pre : ProcessedApiCollection)
    (d : JsDict.t ProcessedApiCollection) :
  let keyOf api := Some (Js.toUpperCase (ProcessedApiData.method api)) in
  Files keyOf d pre ->
  exists groups,
    JsArray.forEachTry
      (fun groups api =>
         JsDict.pushTo (Js.toUpperCase (ProcessedApiData.method api)) api groups)
      processedData d = inr groups
    /\ Files keyOf groups (pre ++ processedData).
Proof.
  intros keyOf. revert pre d.
  induction processedData as [|api rest IH]; intros pre d Hd; simpl.
  - exists d. split; [reflexivity | now rewrite app_nil_r].
  - destruct (@Files_push _ keyOf d pre api _ Hd eq_refl
                (toUpperCase_not_inherited _)) as [d' [-> Hd']].
    simpl. destruct (IH _ _ Hd') as [groups [Hrun Hgroups]].
    exists groups. split; [exact Hrun|].
    now rewrite <- app_assoc in Hgroups.
Qed.

(** X8.  [groupByMethod] returns for every list: since its keys are in
    upper case they never meet a property inherited from
    [Object.prototype].  Each endpoint is filed under its upper-cased
    method, the groups keep the order of the input, and a method without
    endpoints has no entry. *)
Theorem groupByMethod_partitions (processedData : ProcessedApiCollection) :
  exists groups,
    ProcessorUtilities.groupByMethod processedData = inr groups
    /\ forall method,
         let members :=
           filter (fun api =>
                     String.eqb (Js.toUpperCase (ProcessedApiData.method api))
                       method) processedData in
         itemsOf method groups = members
         /\ (JsDict.lookupOwn method groups = None <-> members = []).
Proof.
  destruct (@groupByMethod_files processedData [] [] (Files_nil _))
    as [groups [Hrun Hfiles]].
  exists groups. split; [exact Hrun|]. intros method members.
  simpl in Hfiles. pose proof (Hfiles method) as Hlook.
  pose proof (Files_itemsOf method Hfiles) as Hitems.
  unfold filedUnder in Hlook, Hitems. fold members in Hlook, Hitems.
  unfold ProcessedApiCollection in *.
  split; [exact Hitems|]. rewrite Hlook.
  destruct members; split; congruence.
Qed.

Lemma groupLogsByHostname_files (newURL : string -> option URL.t)
    (logs : NetworkLogCollection) :
  Files (hostKey newURL) (BrowserUtilities.groupLogsByHostname newURL logs) logs.
Proof.
  unfold BrowserUtilities.groupLogsByHostname.
  induction logs as [|log logs IH] using rev_ind; [apply Files_nil|].
  rewrite fold_left_app. simpl.
  set (groups := fold_left (BrowserUtilities.addToHostname newURL) logs [])
    in *.
  unfold BrowserUtilities.addToHostname, tryURL.
  unfold NetworkLogCollection in *.
  destruct (newURL (NetworkRequest.url (NetworkLogEntry.request log)))
    as [u|] eqn:Hu; simpl.
  - destruct (existsb (String.eqb (URL.hostname u)) JsDict.objectPrototype)
      eqn:Hproto.
    + assert (Hkey : hostKey newURL log = None).
      { unfold hostKey. now rewrite Hu, Hproto. }
      assert (Hown : JsDict.lookupOwn (URL.hostname u) groups = None).
      { rewrite (IH (URL.hostname u)). unfold filedUnder.
        rewrite (@filter_none _ _ logs); [reflexivity|].
        intros x _. unfold hostKey.
        destruct (newURL (NetworkRequest.url (NetworkLogEntry.request x)))
          as [u'|]; [|reflexivity].
        destruct (existsb (String.eqb (URL.hostname u'))
                    JsDict.objectPrototype) eqn:E; [reflexivity|].
        destruct (String.eqb (URL.hostname u') (URL.hostname u)) eqn:E';
          [|reflexivity].
        apply String.eqb_eq in E'. congruence. }
      destruct (pushTo_throws (URL.hostname u) log groups Hproto Hown)
        as [t ->].
      now apply Files_skip.
    + assert (Hkey : hostKey newURL log = Some (URL.hostname u)).
      { unfold hostKey. now rewrite Hu, Hproto. }
      destruct (Files_push log IH Hkey Hproto) as [d' [-> Hd']]. exact Hd'.
  - apply Files_skip; [exact IH|]. unfold hostKey. now rewrite Hu.
Qed.

(** X9.  [groupLogsByHostname] files each exchange whose URL parses under
    its host name, in capture order, and skips the exchanges whose URL does
    not parse.  It also skips, without any sign, the exchanges whose host
    name is a property name of [Object.prototype] (such as [constructor]):
    for these the lookup finds the inherited property and [push] throws
    inside the [try]. *)
Theorem groupLogsByHostname_spec (newURL : string -> option URL.t)
    (logs : NetworkLogCollection) (hostname : string) :
  let groups := BrowserUtilities.groupLogsByHostname newURL logs in
  let members :=
    filter (fun log =>
              match newURL (NetworkRequest.url (NetworkLogEntry.request log)) with
              | Some u => String.eqb (URL.hostname u) hostname
              | None => false
              end) logs in
  (existsb (String.eqb hostname) JsDict.objectPrototype = false ->
   itemsOf hostname groups = members
   /\ (JsDict.lookupOwn hostname groups = None <-> members = []))
  /\ (existsb (String.eqb hostname) JsDict.objectPrototype = true ->
      JsDict.lookupOwn hostname groups = None)
  /\ (forall name log, In log (itemsOf name groups) ->
        In log logs
        /\ exists u,
             newURL (NetworkRequest.url (NetworkLogEntry.request log)) = Some u
             /\ URL.hostname u = name).
Proof.
  intros groups members.
  pose proof (groupLogsByHostname_files newURL logs) as Hfiles.
  fold groups in Hfiles. unfold NetworkLogCollection in *.
  assert (Hkey : forall log name,
             match hostKey newURL log with
             | Some k => String.eqb k name
             | None => false
             end
             = match newURL (NetworkRequest.url (NetworkLogEntry.request log)) with
               | Some u => String.eqb (URL.hostname u) name
                           && negb (existsb (String.eqb name)
                                      JsDict.objectPrototype)
               | None => false
               end).
  { intros log name. unfold hostKey.
    destruct (newURL (NetworkRequest.url (NetworkLogEntry.request log)))
      as [u|]; [|reflexivity].
    destruct (String.eqb (URL.hostname u) name) eqn:E.
    - apply String.eqb_eq in E. subst name.
      destruct (existsb (String.eqb (URL.hostname u)) JsDict.objectPrototype);
        [reflexivity | simpl; apply String.eqb_refl].
    - destruct (existsb (String.eqb (URL.hostname u)) JsDict.objectPrototype);
        [reflexivity | exact E]. }
  split; [|split].
  - intros Hname.
    assert (Hm : filedUnder (hostKey newURL) hostname logs = members).
    { unfold filedUnder, members. apply filter_ext. intros log.
      rewrite Hkey, Hname.
      destruct (newURL (NetworkRequest.url (NetworkLogEntry.request log)));
        [apply andb_true_r | reflexivity]. }
    split.
    + now rewrite (Files_itemsOf hostname Hfiles).
    + rewrite (Hfiles hostname), Hm. destruct members; split; congruence.
  - intros Hname. rewrite (Hfiles hostname). unfold filedUnder.
    rewrite (@filter_none _ _ logs); [reflexivity|].
    intros log _. rewrite Hkey, Hname.
    destruct (newURL (NetworkRequest.url (NetworkLogEntry.request log)));
      [apply andb_false_r | reflexivity].
  - intros name log Hin. rewrite (Files_itemsOf name Hfiles) in Hin.
    apply filter_In in Hin as [Hin Hk]. split; [exact Hin|].
    rewrite Hkey in Hk.
    destruct (newURL (NetworkRequest.url (NetworkLogEntry.request log)))
      as [u|]; [|discriminate].
    apply andb_true_iff in Hk as [Hk _]. apply String.eqb_eq in Hk.
    now exists u.
Qed.

Lemma groupLogsByHostname_spec_witness :
  itemsOf "api.example.com"
    (BrowserUtilities.groupLogsByHostname Fixtures.newURL
       [Fixtures.banner; Fixtures.broken; Fixtures.users])
  = [Fixtures.banner; Fixtures.users]
  /\ JsDict.lookupOwn "constructor"
       (BrowserUtilities.groupLogsByHostname Fixtures.newURL
          [Fixtures.exchange "GET" "http://constructor/v1/users" "[]"])
     = None.
Proof.
  split.
  - destruct (groupLogsByHostname_spec Fixtures.newURL
                [Fixtures.banner; Fixtures.broken; Fixtures.users]
                "api.example.com") as [H _].
    destruct (H eq_refl) as [-> _]. reflexivity.
  - destruct (groupLogsByHostname_spec Fixtures.newURL
                [Fixtures.exchange "GET" "http://constructor/v1/users" "[]"]
                "constructor") as [_ [H _]].
    exact (H eq_refl).
Defined.

(** ** Sets of strings in sorted order *)

Lemma insertSorted_Permutation {A} (compare : A -> A -> Z) (x : A)
    (l : list A) :
  Permutation (JsArray.insertSorted compare x l) (x :: l).
Proof.
  induction l as [|y l IH]; simpl; [reflexivity|].
  destruct (compare x y <=? 0)%Z; [reflexivity|].
  rewrite IH. apply perm_swap.
Qed.

Lemma sort_Permutation {A} (compare : A -> A -> Z) (l : list A) :
  Permutation (JsArray.sort compare l) l.
Proof.
  unfold JsArray.sort. induction l as [|x l IH]; simpl; [constructor|].
  rewrite insertSorted_Permutation. now constructor.
Qed.

Lemma ascii_compare_trans (a b c : ascii) :
  Ascii.compare a b = Lt -> Ascii.compare b c = Lt -> Ascii.compare a c = Lt.
Proof.
  unfold Ascii.compare. rewrite !N.compare_lt_iff. lia.
Qed.

Lemma ascii_compare_refl (a : ascii) : Ascii.compare a a = Eq.
Proof. unfold Ascii.compare. apply N.compare_refl. Qed.

Lemma string_compare_trans (a b c : string) :
  String.compare a b = Lt -> String.compare b c = Lt -> String.compare a c = Lt.
Proof.
  revert b c. induction a as [|x a IH]; intros [|y b] [|z c]; simpl;
    try congruence.
  destruct (Ascii.compare x y) eqn:Hxy; try discriminate.
  - apply Ascii.compare_eq_iff in Hxy. subst y.
    destruct (Ascii.compare x z); try congruence. apply IH.
  - intros _. destruct (Ascii.compare y z) eqn:Hyz; try discriminate.
    + apply Ascii.compare_eq_iff in Hyz. subst z. now rewrite Hxy.
    + now rewrite (ascii_compare_trans _ _ _ Hxy Hyz).
Qed.

Lemma insertSorted_Sorted (x : string) (l : list string) :
  Sorted (fun a b => String.compare a b <> Gt) l ->
  Sorted (fun a b => String.compare a b <> Gt)
    (JsArray.insertSorted JsSet.compareCodeUnits x l).
Proof.
  induction 1 as [|y l Hl IH Hy]; simpl; [repeat constructor|].
  unfold JsSet.compareCodeUnits at 1.
  destruct (String.compare x y) eqn:Hxy; simpl.
  - constructor; [now constructor|]. constructor. congruence.
  - constructor; [now constructor|]. constructor. congruence.
  - constructor; [exact IH|].
    assert (Hyx : String.compare y x <> Gt).
    { rewrite String.compare_antisym, Hxy. discriminate. }
    destruct l as [|z l]; simpl; [now constructor|].
    destruct (JsSet.compareCodeUnits x z <=? 0)%Z; constructor;
      [exact Hyx | now inversion Hy].
Qed.

Lemma toSortedArray_spec (xs : list string) :
  let sorted := JsSet.toSortedArray (JsSet.ofList xs) in
  (forall x, In x sorted <-> In x xs)
  /\ NoDup sorted
  /\ StronglySorted (fun a b => String.compare a b = Lt) sorted
  /\ List.length sorted <= List.length xs.
Proof.
  intros sorted.
  assert (Hperm : Permutation sorted (firstSeen xs))
    by apply sort_Permutation.
  assert (Hnd : NoDup sorted).
  { eapply Permutation_NoDup; [symmetry; exact Hperm|].
    apply (firstSeen_NoDup (fun _ => None)). }
  split; [|split; [exact Hnd|split]].
  - intros x. rewrite <- (firstSeen_In (fun _ => None) xs x).
    split; apply Permutation_in; [exact Hperm | now symmetry].
  - assert (Hle : Sorted (fun a b => String.compare a b <> Gt) sorted).
    { unfold sorted, JsSet.toSortedArray, JsArray.sort.
      generalize (JsSet.ofList xs). clear. intros l.
      induction l as [|x l IH]; simpl; [constructor|].
      now apply insertSorted_Sorted. }
    apply Sorted_StronglySorted.
    + intros a b c. apply string_compare_trans.
    + clear Hperm. induction Hle as [|y l Hl IH Hy]; [constructor|].
      inversion Hnd as [|? ? Hnot Hnd']. subst.
      constructor; [now apply IH|].
      destruct Hy as [|z l Hyz]; constructor.
      destruct (String.compare y z) eqn:E; try congruence.
      apply String.compare_eq_iff in E. subst z. exfalso. apply Hnot. now left.
  - rewrite (Permutation_length Hperm). apply firstSeen_length.
Qed.

(** X10.  [extractUniqueUrls] lists exactly the request URLs of the logs,
    each once, in ascending order of code units. *)
Theorem extractUniqueUrls_spec (logs : NetworkLogCollection) :
  let urls := BrowserUtilities.extractUniqueUrls logs in
  (forall url,
     In url urls <->
     exists log,
       In log logs /\ NetworkRequest.url (NetworkLogEntry.request log) = url)
  /\ NoDup urls
  /\ StronglySorted (fun a b => String.compare a b = Lt) urls
  /\ List.length urls <= List.length logs.
Proof.
  intros urls. unfold urls, BrowserUtilities.extractUniqueUrls.
  destruct (toSortedArray_spec
              (map (fun log => NetworkRequest.url (NetworkLogEntry.request log))
                 logs)) as [Hin [Hnd [Hsorted Hlen]]].
  split; [|split; [exact Hnd | split; [exact Hsorted|]]].
  - intros url. rewrite Hin, in_map_iff. split; intros [log H]; exists log; tauto.
  - now rewrite length_map in Hlen.
Qed.

(** X11.  [extractUniqueEndpoints] lists, each once and in ascending order,
    the strings [method path] of the endpoints whose URL parses and
    [method url] of the others; the host name is not part of the string,
    so endpoints of two hosts with one method and path give one entry. *)
Theorem extractUniqueEndpoints_spec (newURL : string -> option URL.t)
    (processedData : ProcessedApiCollection) :
  let endpoints := ProcessorUtilities.extractUniqueEndpoints newURL processedData in
  (forall endpoint,
     In endpoint endpoints <->
     exists api,
       In api processedData
       /\ endpoint
          = ProcessedApiData.method api ++ " "
            ++ match newURL (ProcessedApiData.url api) with
               | Some u => URL.pathname u
               | None => ProcessedApiData.url api
               end)
  /\ NoDup endpoints
  /\ StronglySorted (fun a b => String.compare a b = Lt) endpoints
  /\ List.length endpoints <= List.length processedData.
Proof.
  intros endpoints. unfold endpoints, ProcessorUtilities.extractUniqueEndpoints.
  destruct (toSortedArray_spec
              (map (ProcessorUtilities.endpointOf newURL) processedData))
    as [Hin [Hnd [Hsorted Hlen]]].
  split; [|split; [exact Hnd | split; [exact Hsorted|]]].
  - intros endpoint. rewrite Hin, in_map_iff.
    assert (Heq : forall api,
               ProcessorUtilities.endpointOf newURL api
               = ProcessedApiData.method api ++ " "
                 ++ match newURL (ProcessedApiData.url api) with
                    | Some u => URL.pathname u
                    | None => ProcessedApiData.url api
                    end).
    { intros api. unfold ProcessorUtilities.endpointOf, tryURL.
      now destruct (newURL (ProcessedApiData.url api)). }
    split; intros [api H]; exists api; rewrite Heq in *; intuition.
  - now rewrite length_map in Hlen.
Qed.

Example extractUniqueEndpoints_forgets_host :
  ProcessorUtilities.extractUniqueEndpoints Fixtures.newURL
    [ProcessedApiData.mk "GET" "https://b.example.com/v1/users" "[]" [] [];
     ProcessedApiData.mk "GET" "https://a.example.com/v1/users" "[]" [] [];
     ProcessedApiData.mk "GET" "https://a.example.com/v1/blocks" "[]" [] []]
  = ["GET /v1/blocks"; "GET /v1/users"].
Proof. reflexivity. Qed.

(** * Further properties of the capture session *)

Lemma shouldCaptureResponse_passes (newURL : string -> option URL.t)
    (allowedHosts : list string) (r : Response.t) :
  BrowserController.shouldCaptureResponse newURL allowedHosts r = true <->
  BrowserController.isHostAllowed newURL allowedHosts (Response.url r) = true
  /\ Js.includes "application/json"
       (Js.orEmpty (Js.lookup "content-type" (Response.headers r))) = true
  /\ (Request.resourceType (Response.request r) = "fetch"
      \/ Request.resourceType (Response.request r) = "xhr")
  /\ In (Js.toUpperCase (Request.method (Response.request r)))
       BrowserController.allowedMethods.
Proof.
  rewrite <- (existsb_eqb_In _ BrowserController.allowedMethods).
  rewrite <- !String.eqb_eq.
  unfold BrowserController.shouldCaptureResponse.
  destruct (BrowserController.isHostAllowed newURL allowedHosts (Response.url r));
    cbn [negb]; [|intuition discriminate].
  destruct (Js.includes "application/json"
              (Js.orEmpty (Js.lookup "content-type" (Response.headers r))));
    cbn [negb]; [|intuition discriminate].
  destruct (String.eqb (Request.resourceType (Response.request r)) "fetch");
    destruct (String.eqb (Request.resourceType (Response.request r)) "xhr");
    destruct (existsb (String.eqb (Js.toUpperCase
                (Request.method (Response.request r))))
                BrowserController.allowedMethods);
    cbn; intuition discriminate.
Qed.

Section CaptureWindow.

Variable newURL : string -> option URL.t.
Variable surface : Surface.t.
Variable allowedHosts : list string.

Local Abbreviation State := BrowserController.State.
Local Abbreviation mkState := BrowserController.mkState.
Local Abbreviation runEvents :=
  (BrowserController.runEvents newURL surface allowedHosts).
Local Abbreviation Invariant := (CaptureInvariant newURL allowedHosts).

Lemma onSurfaceEvent_invariant (ev : SurfaceEvent) (s : State) :
  BrowserController.isCapturing s = true -> Invariant s ->
  exists s',
    BrowserController.onSurfaceEvent newURL surface allowedHosts ev s
    = (inr tt, s')
    /\ BrowserController.isCapturing s' = true
    /\ Invariant s'.
Proof.
  intros Hcap [Hpend [Hcount [Hlogs Hids]]].
  destruct ev as [r | k]; simpl.
  - unfold BrowserController.mbind at 1, BrowserController.get at 1.
    rewrite Hcap. simpl.
    unfold BrowserController.processNetworkResponse_request.
    destruct (BrowserController.shouldCaptureResponse newURL allowedHosts r)
      eqn:Hshould; simpl.
    + unfold BrowserController.mbind, BrowserController.dateNow,
        BrowserController.get, BrowserController.setPending,
        BrowserController.modify, BrowserController.mret. simpl.
      eexists. split; [reflexivity|]. split; [exact Hcap|].
      unfold CaptureInvariant. simpl.
      split; [|split; [exact Hcount | split; [exact Hlogs | exact Hids]]].
      apply Forall_app. split; [exact Hpend|]. constructor; [|constructor].
      unfold Accepted. simpl. repeat split; try assumption.
      destruct (Request.postData (Response.request r)) as [[|c body]|];
        discriminate.
    + unfold BrowserController.mret. exists s.
      split; [reflexivity|]. split; [exact Hcap|].
      unfold CaptureInvariant. auto.
  - unfold BrowserController.mbind at 1, BrowserController.get at 1.
    destruct (nth_error (BrowserController.pending s) k) as [[r req]|] eqn:Hk;
      simpl.
    + unfold BrowserController.mbind, BrowserController.dateNow,
        BrowserController.get, BrowserController.setPending,
        BrowserController.setLogCounter, BrowserController.setCapturedLogs,
        BrowserController.modify, BrowserController.mret,
        BrowserController.processNetworkResponse_body. simpl.
      unfold BrowserController.mbind, BrowserController.dateNow,
        BrowserController.get, BrowserController.setPending,
        BrowserController.setLogCounter, BrowserController.setCapturedLogs,
        BrowserController.modify, BrowserController.mret. simpl.
      eexists. split; [reflexivity|]. split; [exact Hcap|].
      unfold CaptureInvariant. simpl.
      apply nth_error_In in Hk.
      pose proof (proj1 (Forall_forall _ _) Hpend _ Hk) as Hacc.
      destruct Hacc as [Hshould [Hurl [Hmethod Hbody]]]. simpl in *.
      apply shouldCaptureResponse_passes in Hshould
        as [Hhost [Hjson [Htype Hallowed]]].
      split; [|split; [|split]].
      * apply Forall_forall. intros x Hx. apply removeNth_In in Hx.
        now apply (proj1 (Forall_forall _ _) Hpend).
      * rewrite length_app. simpl. lia.
      * apply Forall_app. split; [exact Hlogs|]. constructor; [|constructor].
        unfold PassedFilter. simpl. rewrite Hurl, Hmethod.
        repeat split; assumption.
      * intros i entry Hi.
        destruct (Nat.lt_ge_cases i
                    (List.length (BrowserController.capturedLogs s)))
          as [Hlt|Hge].
        -- rewrite nth_error_app1 in Hi by exact Hlt. now apply Hids.
        -- rewrite nth_error_app2 in Hi by exact Hge.
           destruct (i - List.length (BrowserController.capturedLogs s))
             as [|n] eqn:Hn; simpl in Hi; [|now destruct n].
           injection Hi as <-. unfold Numbered. simpl. eexists.
           rewrite Hcount.
           replace (Z.of_nat (List.length (BrowserController.capturedLogs s)))
             with (Z.of_nat i) by lia.
           reflexivity.
    + unfold BrowserController.mret. exists s.
      split; [reflexivity|]. split; [exact Hcap|].
      unfold CaptureInvariant. auto.
Qed.

Lemma runEvents_invariant (evs : list SurfaceEvent) (s : State) :
  BrowserController.isCapturing s = true -> Invariant s ->
  exists s',
    runEvents evs s = (inr tt, s')
    /\ BrowserController.isCapturing s' = true
    /\ Invariant s'.
Proof.
  revert s. induction evs as [|ev evs IH]; intros s Hcap Hinv; simpl.
  - now exists s.
  - destruct (onSurfaceEvent_invariant ev Hcap Hinv) as [s1 [Hev [Hcap1 Hinv1]]].
    erewrite mbind_returns; [|exact Hev]. now apply IH.
Qed.


(** *** What the calls around the window leave untouched *)

Lemma initializeBrowser_frame (s : State) :
  exists r s',
    BrowserController.initializeBrowser surface s = (r, s')
    /\ BrowserController.capturedLogs s' = BrowserController.capturedLogs s
    /\ BrowserController.isCapturing s' = BrowserController.isCapturing s.
Proof.
  unfold BrowserController.initializeBrowser, BrowserController.tryCatch,
    BrowserController.mbind, BrowserController.await.
  destruct (Surface.launch surface) as [t|[]]; simpl;
    [eexists; eexists; split; [reflexivity | split; reflexivity]|].
  destruct (Surface.newContext surface) as [t|[]]; simpl;
    [eexists; eexists; split; [reflexivity | split; reflexivity]|].
  destruct (Surface.newPage surface) as [t|[]]; simpl;
    eexists; eexists; (split; [reflexivity | split; reflexivity]).
Qed.

Lemma navigateToUrl_frame (url : string) (s : State) :
  BrowserController.isCapturing s = false ->
  BrowserController.pending s = [] ->
  exists r s',
    BrowserController.navigateToUrl newURL surface allowedHosts url s = (r, s')
    /\ BrowserController.capturedLogs s' = BrowserController.capturedLogs s
    /\ BrowserController.isCapturing s' = false.
Proof.
  intros Hcap Hpend.
  unfold BrowserController.navigateToUrl.
  unfold BrowserController.mbind at 1, BrowserController.get at 1.
  destruct (BrowserController.page s); simpl.
  - unfold BrowserController.tryCatch, BrowserController.mbind,
      BrowserController.await, tryURL.
    destruct (newURL url) as [u|]; simpl.
    + rewrite (@runEvents_idle newURL surface allowedHosts _ s Hcap Hpend).
      destruct (Surface.goto surface) as [t|[]]; simpl;
        eexists; eexists; (split; [reflexivity | split; [reflexivity|]]);
        exact Hcap.
    + eexists; eexists; (split; [reflexivity | split; [reflexivity|]]);
        exact Hcap.
  - eexists; eexists; (split; [reflexivity | split; [reflexivity|]]);
      exact Hcap.
Qed.

(** [cleanup] returns, stops capturing and keeps the captured logs. *)
Lemma cleanup_frame (s : State) :
  exists s',
    BrowserController.cleanup surface s = (inr tt, s')
    /\ BrowserController.capturedLogs s' = BrowserController.capturedLogs s
    /\ BrowserController.isCapturing s' = false.
Proof.
  unfold BrowserController.cleanup, BrowserController.tryCatch,
    BrowserController.mbind, BrowserController.await,
    BrowserController.get, BrowserController.setIsCapturing,
    BrowserController.setPage, BrowserController.setContext,
    BrowserController.setBrowser, BrowserController.modify,
    BrowserController.mret.
  simpl.
  destruct (BrowserController.page s); simpl;
    [destruct (Surface.pageClose surface) as [t|[]]; simpl;
       [eexists; split; [reflexivity | split; reflexivity]|]|];
    (destruct (BrowserController.context s); simpl;
       [destruct (Surface.contextClose surface) as [t|[]]; simpl;
          [eexists; split; [reflexivity | split; reflexivity]|]|]);
    (destruct (BrowserController.browser s); simpl;
       [destruct (Surface.browserClose surface) as [t|[]]; simpl|]);
    eexists; (split; [reflexivity | split; reflexivity]).
Qed.

(** When every close call returns, [cleanup] leaves no handle. *)
Lemma cleanup_releases (s : State) :
  Surface.pageClose surface = inr tt ->
  Surface.contextClose surface = inr tt ->
  Surface.browserClose surface = inr tt ->
  BrowserController.cleanup surface s
  = (inr tt,
     mkState false false false (BrowserController.capturedLogs s) false
       (BrowserController.logCounter s) (BrowserController.ticks s)
       (BrowserController.pending s)).
Proof.
  intros Hp Hc Hb.
  unfold BrowserController.cleanup, BrowserController.tryCatch,
    BrowserController.mbind, BrowserController.await,
    BrowserController.get, BrowserController.setIsCapturing,
    BrowserController.setPage, BrowserController.setContext,
    BrowserController.setBrowser, BrowserController.modify,
    BrowserController.mret.
  simpl. rewrite Hp, Hc, Hb.
  destruct (BrowserController.page s), (BrowserController.context s),
    (BrowserController.browser s); reflexivity.
Qed.

(** When a close call throws, [cleanup] stops there: the browser is not
    closed. *)
Lemma cleanup_stops (s : State) :
  BrowserController.browser s = true ->
  BrowserController.context s = true ->
  BrowserController.page s = true ->
  (exists t, Surface.pageClose surface = inl t
             \/ Surface.contextClose surface = inl t
             \/ Surface.browserClose surface = inl t) ->
  exists s',
    BrowserController.cleanup surface s = (inr tt, s')
    /\ BrowserController.browser s' = true.
Proof.
  intros Hb Hc Hp [t Hfail].
  unfold BrowserController.cleanup, BrowserController.tryCatch,
    BrowserController.mbind, BrowserController.await,
    BrowserController.get, BrowserController.setIsCapturing,
    BrowserController.setPage, BrowserController.setContext,
    BrowserController.setBrowser, BrowserController.modify,
    BrowserController.mret.
  simpl. rewrite Hp.
  destruct (Surface.pageClose surface) as [t1|[]]; simpl;
    [eexists; split; [reflexivity | exact Hb]|].
  rewrite Hc.
  destruct (Surface.contextClose surface) as [t2|[]]; simpl;
    [eexists; split; [reflexivity | exact Hb]|].
  rewrite Hb.
  destruct (Surface.browserClose surface) as [t3|[]]; simpl;
    [eexists; split; [reflexivity | reflexivity]|].
  destruct Hfail as [H|[H|H]]; discriminate.
Qed.

(** *** The two ways a capture ends *)

(** The state in which the capture window opens. *)
Local Abbreviation windowOpens s0 :=
  (mkState true true true [] true 0 (BrowserController.ticks s0) []).

Lemma captureNetworkLogs_try_window (url : string) (s0 : State) :
  BrowserController.pending s0 = [] ->
  Starts newURL surface url ->
  exists s',
    runEvents (Surface.duringCapture surface) (windowOpens s0) = (inr tt, s')
    /\ Invariant s'
    /\ BrowserController.browser s' = true
    /\ BrowserController.context s' = true
    /\ BrowserController.page s' = true
    /\ Forall2 (IsEntryOf newURL)
         (acceptedResponses newURL allowedHosts []
            (Surface.duringCapture surface))
         (BrowserController.capturedLogs s')
    /\ BrowserController.captureNetworkLogs_try newURL surface allowedHosts
         url s0
       = (inr (NetworkCaptureResult.mk true
                 (BrowserController.capturedLogs s')
                 (List.length (BrowserController.capturedLogs s'))
                 (List.length
                    (filter NetworkLogEntry.isBffBlockApi
                       (BrowserController.capturedLogs s')))
                 None),
          mkState true true true (BrowserController.capturedLogs s') false
            (BrowserController.logCounter s') (BrowserController.ticks s')
            (BrowserController.pending s')).
Proof.
  intros Hpend [Hl [Hc [Hp [Hurl Hgoto]]]].
  destruct (@runEvents_invariant (Surface.duringCapture surface)
              (windowOpens s0)) as [s' [Hrun [_ Hinv]]].
  { reflexivity. }
  { unfold CaptureInvariant. simpl. repeat split; try constructor.
    intros [|i] entry H; discriminate. }
  destruct (@runEvents_capturing newURL surface allowedHosts
              (Surface.duringCapture surface) (windowOpens s0))
    as [s'' [newLogs [Hrun' [_ [Hb [Hx [Hpg [Hlogs HF]]]]]]]].
  { reflexivity. }
  { unfold PendingOK. simpl. constructor. }
  rewrite Hrun in Hrun'. injection Hrun' as <-.
  simpl in Hb, Hx, Hpg, Hlogs, HF. subst newLogs.
  exists s'. split; [exact Hrun|]. split; [exact Hinv|].
  repeat (split; [assumption|]).
  unfold BrowserController.captureNetworkLogs_try.
  do 3 (erewrite mbind_returns; [|reflexivity]).
  erewrite mbind_returns; [|now apply initializeBrowser_returns].
  erewrite mbind_returns; [|reflexivity].
  erewrite mbind_returns; [|now apply navigateToUrl_returns].
  erewrite mbind_returns; [|reflexivity].
  simpl. rewrite Hpend.
  erewrite mbind_returns; [|exact Hrun].
  erewrite mbind_returns; [|reflexivity].
  erewrite mbind_returns; [|reflexivity].
  simpl. rewrite Hb, Hx, Hpg. reflexivity.
Qed.

Lemma captureNetworkLogs_try_fails (url : string) (s0 : State) :
  BrowserController.pending s0 = [] ->
  ~ Starts newURL surface url ->
  exists e s1,
    BrowserController.captureNetworkLogs_try newURL surface allowedHosts url s0
    = (inl (ThrownApp e), s1)
    /\ BrowserController.capturedLogs s1 = []
    /\ BrowserController.isCapturing s1 = false.
Proof.
  intros Hpend Hnot.
  destruct (@captureNetworkLogs_try_throws newURL surface allowedHosts url s0
              Hpend Hnot) as [e [s1 Hthrows]].
  exists e, s1. split; [exact Hthrows|].
  revert Hthrows. unfold BrowserController.captureNetworkLogs_try.
  do 3 (erewrite mbind_returns; [|reflexivity]).
  destruct (@initializes_or_not surface) as [[Hl [Hc Hp]] | Hinit].
  - erewrite mbind_returns; [|now apply initializeBrowser_returns].
    erewrite mbind_returns; [|reflexivity].
    simpl.
    match goal with
    | |- context [BrowserController.navigateToUrl _ _ _ _] =>
        edestruct (@navigateToUrl_frame url) as [r [sb [Hnav [Hlogs Hcap]]]];
          [| | destruct r as [t|[]];
               [erewrite mbind_throws; [|exact Hnav] |]]
    end.
    + reflexivity.
    + exact Hpend.
    + intros H. injection H as _ <-. now split.
    + exfalso. apply Hnot. unfold Starts.
      repeat (split; [assumption|]).
      revert Hnav. unfold BrowserController.navigateToUrl.
      unfold BrowserController.mbind at 1, BrowserController.get at 1.
      simpl.
      unfold BrowserController.tryCatch, BrowserController.mbind,
        BrowserController.await, tryURL.
      destruct (newURL url) as [u|]; simpl; [|discriminate].
      rewrite (@runEvents_idle newURL surface allowedHosts); try reflexivity;
        try exact Hpend.
      destruct (Surface.goto surface) as [t|[]]; simpl; [discriminate|].
      intros _. split; [discriminate | reflexivity].
  - destruct (initializeBrowser_frame
                (mkState (BrowserController.browser s0)
                   (BrowserController.context s0) (BrowserController.page s0)
                   [] false 0 (BrowserController.ticks s0)
                   (BrowserController.pending s0)))
      as [r [sa [Hrun [Hlogs Hcap]]]].
    destruct (@initializeBrowser_throws surface
                (mkState (BrowserController.browser s0)
                   (BrowserController.context s0) (BrowserController.page s0)
                   [] false 0 (BrowserController.ticks s0)
                   (BrowserController.pending s0)) Hinit)
      as [e' [sa' Hthrow]].
    rewrite Hthrow in Hrun. injection Hrun as <- <-.
    erewrite mbind_throws; [|exact Hthrow].
    intros H. injection H as _ <-. now split.
Qed.

(** Every capture ends in one of two ways; in both, [cleanup] runs last on
    a controller that has stopped capturing and holds the logs of the
    result. *)
Lemma captureNetworkLogs_outcome (url : string) (s0 : State) :
  BrowserController.pending s0 = [] ->
  exists result sBefore sFinal,
    BrowserController.captureNetworkLogs newURL surface allowedHosts url s0
    = (inr result, sFinal)
    /\ BrowserController.cleanup surface sBefore = (inr tt, sFinal)
    /\ BrowserController.capturedLogs sBefore = NetworkCaptureResult.logs result
    /\ NetworkCaptureResult.totalRequests result
       = List.length (NetworkCaptureResult.logs result)
    /\ NetworkCaptureResult.filteredRequests result
       = List.length
           (filter NetworkLogEntry.isBffBlockApi
              (NetworkCaptureResult.logs result))
    /\ ((Starts newURL surface url
         /\ (NetworkCaptureResult.success result = true
             /\ NetworkCaptureResult.error result = None)
         /\ BrowserController.browser sBefore = true
         /\ BrowserController.context sBefore = true
         /\ BrowserController.page sBefore = true
         /\ Forall2 (IsEntryOf newURL)
              (acceptedResponses newURL allowedHosts []
                 (Surface.duringCapture surface))
              (NetworkCaptureResult.logs result)
         /\ exists s',
              runEvents (Surface.duringCapture surface) (windowOpens s0)
              = (inr tt, s')
              /\ Invariant s'
              /\ NetworkCaptureResult.logs result
                 = BrowserController.capturedLogs s')
        \/ (~ Starts newURL surface url
            /\ result
               = NetworkCaptureResult.mk false [] 0 0 (Some "[object Object]"))).
Proof.
  intros Hpend.
  unfold BrowserController.captureNetworkLogs, BrowserController.tryFinally,
    BrowserController.tryCatch.
  destruct (starts_or_not newURL surface url) as [Hstarts | Hnot].
  - destruct (@captureNetworkLogs_try_window url s0 Hpend Hstarts)
      as [s' [Hrun [Hinv [Hb [Hc [Hp [HF ->]]]]]]].
    match goal with
    | |- context [BrowserController.cleanup surface ?s] =>
        destruct (cleanup_frame s) as [sFinal [Hclean _]]; rewrite Hclean;
          exists (NetworkCaptureResult.mk true
                    (BrowserController.capturedLogs s')
                    (List.length (BrowserController.capturedLogs s'))
                    (List.length
                       (filter NetworkLogEntry.isBffBlockApi
                          (BrowserController.capturedLogs s')))
                    None), s, sFinal
    end.
    split; [reflexivity|]. split; [exact Hclean|].
    simpl. repeat (split; [reflexivity|]).
    left. split; [assumption|]. split; [split; reflexivity|].
    do 4 (split; [assumption || reflexivity|]).
    exists s'. split; [exact Hrun|]. split; [exact Hinv | reflexivity].
  - destruct (@captureNetworkLogs_try_fails url s0 Hpend Hnot)
      as [e [s1 [-> [Hlogs Hcap]]]].
    unfold BrowserController.captureNetworkLogs_catch, BrowserController.mret.
    destruct (cleanup_frame s1) as [sFinal [Hclean _]]. rewrite Hclean.
    eexists. exists s1, sFinal.
    split; [reflexivity|]. split; [exact Hclean|].
    simpl. split; [exact Hlogs|]. do 2 (split; [reflexivity|]).
    right. split; [exact Hnot | reflexivity].
Qed.

End CaptureWindow.

(** ** Numbers in text *)

Lemma uint_no_underscore (d : Decimal.uint) :
  Js.includes "_" (NilEmpty.string_of_uint d) = false.
Proof. induction d; simpl; auto. Qed.

Lemma ofNumber_no_underscore (n : Z) : Js.includes "_" (Js.ofNumber n) = false.
Proof.
  unfold Js.ofNumber, NilZero.string_of_int, NilZero.string_of_uint.
  destruct (Z.to_int n) as [d|d]; destruct d; simpl;
    auto using uint_no_underscore.
Qed.

Lemma ofNumber_inj (a b : Z) : Js.ofNumber a = Js.ofNumber b -> a = b.
Proof.
  unfold Js.ofNumber. intros H. apply DecimalZ.to_int_inj.
  assert (Hnil : forall n, Z.to_int n <> Decimal.Pos Decimal.Nil
                           /\ Z.to_int n <> Decimal.Neg Decimal.Nil).
  { intros [|p|p]; simpl; split; try discriminate;
      intros E; injection E as E;
      now apply DecimalPos.Unsigned.to_uint_nonnil in E. }
  apply (f_equal NilZero.int_of_string) in H.
  rewrite !NilZero.isi in H by apply Hnil. now injection H.
Qed.

Lemma Numbered_distinct (i j : nat) (a b : NetworkLogEntry.t) :
  Numbered i a -> Numbered j b ->
  NetworkLogEntry.id a = NetworkLogEntry.id b -> i = j.
Proof.
  intros [t Ha] [t' Hb] Heq. rewrite Ha, Hb in Heq.
  simpl in Heq. injection Heq as Heq.
  apply cut_unique in Heq as [Heq _]; try apply ofNumber_no_underscore.
  apply ofNumber_inj in Heq. lia.
Qed.

(** ** What a capture records *)

(** X12.  Every entry of a capture result passed the filter: its URL is on
    an allowed host, its response has a JSON content type, it was requested
    by [fetch] or [xhr] with one of the five methods, and an empty request
    body is recorded as absent. *)
Theorem captureNetworkLogs_entries_pass_filter
    (newURL : string -> option URL.t) (surface : Surface.t)
    (allowedHosts : list string) (url : string)
    (s0 : BrowserController.State) :
  BrowserController.pending s0 = [] ->
  exists result sFinal,
    BrowserController.captureNetworkLogs newURL surface allowedHosts url s0
    = (inr result, sFinal)
    /\ forall entry,
         In entry (NetworkCaptureResult.logs result) ->
         let request := NetworkLogEntry.request entry in
         BrowserController.isHostAllowed newURL allowedHosts
           (NetworkRequest.url request) = true
         /\ Js.includes "application/json"
              (NetworkResponse.contentType (NetworkLogEntry.response entry))
            = true
         /\ (NetworkLogEntry.resourceType entry = "fetch"
             \/ NetworkLogEntry.resourceType entry = "xhr")
         /\ In (Js.toUpperCase (NetworkRequest.method request))
              ["GET"; "POST"; "PUT"; "PATCH"; "DELETE"]
         /\ NetworkRequest.body request <> Some "".
Proof.
  intros Hpend.
  destruct (@captureNetworkLogs_outcome newURL surface allowedHosts url s0 Hpend)
    as [result [sBefore [sFinal [Hrun [_ [_ [_ [_ Hcases]]]]]]]].
  exists result, sFinal. split; [exact Hrun|]. intros entry Hin.
  destruct Hcases as [[_ [_ [_ [_ [_ [_ [s' [_ [Hinv Hlogs]]]]]]]]] | [_ ->]];
    [|destruct Hin].
  destruct Hinv as [_ [_ [Hpass _]]]. rewrite Hlogs in Hin.
  destruct (proj1 (Forall_forall _ _) Hpass entry Hin)
    as [H1 [H2 [H3 [H4 [_ H6]]]]].
  cbv zeta. auto.
Qed.

Lemma captureNetworkLogs_entries_pass_filter_witness :
  exists result sFinal,
    BrowserController.captureNetworkLogs Fixtures.newURL
      (Fixtures.session [ResponseArrives Fixtures.readable; BodyResolves 0])
      ["example.com"] "https://www.example.com/"
      BrowserController.initialState
    = (inr result, sFinal)
    /\ forall entry,
         In entry (NetworkCaptureResult.logs result) ->
         BrowserController.isHostAllowed Fixtures.newURL ["example.com"]
           (NetworkRequest.url (NetworkLogEntry.request entry)) = true.
Proof.
  destruct (@captureNetworkLogs_entries_pass_filter Fixtures.newURL
              (Fixtures.session
                 [ResponseArrives Fixtures.readable; BodyResolves 0])
              ["example.com"] "https://www.example.com/"
              BrowserController.initialState eq_refl)
    as [result [sFinal [Hrun Hall]]].
  exists result, sFinal. split; [exact Hrun|].
  intros entry Hin. exact (proj1 (Hall entry Hin)).
Defined.

(** X13.  The entries of a capture are numbered in the order they are
    recorded: the entry at position [i] (from 0) has the id
    [log_<i+1>_<t>] for a reading [t] of the clock.  Hence no two entries
    of one capture share an id. *)
Theorem captureNetworkLogs_ids
    (newURL : string -> option URL.t) (surface : Surface.t)
    (allowedHosts : list string) (url : string)
    (s0 : BrowserController.State) :
  BrowserController.pending s0 = [] ->
  exists result sFinal,
    BrowserController.captureNetworkLogs newURL surface allowedHosts url s0
    = (inr result, sFinal)
    /\ (forall i entry,
          nth_error (NetworkCaptureResult.logs result) i = Some entry ->
          exists t,
            NetworkLogEntry.id entry
            = "log_" ++ Js.ofNumber (Z.of_nat i + 1) ++ "_" ++ Js.ofNumber t)
    /\ NoDup (map NetworkLogEntry.id (NetworkCaptureResult.logs result)).
Proof.
  intros Hpend.
  destruct (@captureNetworkLogs_outcome newURL surface allowedHosts url s0 Hpend)
    as [result [sBefore [sFinal [Hrun [_ [_ [_ [_ Hcases]]]]]]]].
  exists result, sFinal. split; [exact Hrun|].
  assert (Hids : forall i entry,
             nth_error (NetworkCaptureResult.logs result) i = Some entry ->
             Numbered i entry).
  { destruct Hcases as [[_ [_ [_ [_ [_ [_ [s' [_ [Hinv Hlogs]]]]]]]]] | [_ ->]].
    - rewrite Hlogs. apply Hinv.
    - intros [|i] entry H; discriminate. }
  split; [exact Hids|].
  apply NoDup_nth_error. intros i j Hi Heq.
  rewrite nth_error_map in Heq.
  rewrite length_map in Hi. apply nth_error_Some in Hi.
  destruct (nth_error (NetworkCaptureResult.logs result) i) as [a|] eqn:Ha;
    [|congruence].
  rewrite nth_error_map in Heq.
  destruct (nth_error (NetworkCaptureResult.logs result) j) as [b|] eqn:Hb;
    [|discriminate].
  simpl in Heq. injection Heq as Heq.
  exact (Numbered_distinct (Hids _ _ Ha) (Hids _ _ Hb) Heq).
Qed.

Lemma captureNetworkLogs_ids_witness :
  exists result sFinal,
    BrowserController.captureNetworkLogs Fixtures.newURL
      (Fixtures.session [ResponseArrives Fixtures.readable; BodyResolves 0])
      [] "https://www.example.com/" BrowserController.initialState
    = (inr result, sFinal)
    /\ NoDup (map NetworkLogEntry.id (NetworkCaptureResult.logs result)).
Proof.
  destruct (@captureNetworkLogs_ids Fixtures.newURL
              (Fixtures.session
                 [ResponseArrives Fixtures.readable; BodyResolves 0])
              [] "https://www.example.com/"
              BrowserController.initialState eq_refl)
    as [result [sFinal [Hrun [_ Hnd]]]].
  exists result, sFinal. split; [exact Hrun | exact Hnd].
Defined.

(** ** How a capture ends *)

(** X14.  After [captureNetworkLogs], on success and on failure alike, the
    controller has stopped capturing; when the three close calls return, no
    page, context or browser is left open, and [getStatus] reports the
    browser as not initialized. *)
Theorem captureNetworkLogs_releases
    (newURL : string -> option URL.t) (surface : Surface.t)
    (allowedHosts : list string) (url : string)
    (s0 : BrowserController.State) :
  BrowserController.pending s0 = [] ->
  exists result sFinal,
    BrowserController.captureNetworkLogs newURL surface allowedHosts url s0
    = (inr result, sFinal)
    /\ ControllerStatus.isCapturing (BrowserUtilities.getStatus sFinal) = false
    /\ (Surface.pageClose surface = inr tt ->
        Surface.contextClose surface = inr tt ->
        Surface.browserClose surface = inr tt ->
        ControllerStatus.browserInitialized (BrowserUtilities.getStatus sFinal)
        = false
        /\ BrowserController.context sFinal = false
        /\ BrowserController.page sFinal = false).
Proof.
  intros Hpend.
  destruct (@captureNetworkLogs_outcome newURL surface allowedHosts url s0 Hpend)
    as [result [sBefore [sFinal [Hrun [Hclean _]]]]].
  exists result, sFinal. split; [exact Hrun|].
  destruct (cleanup_frame surface sBefore) as [s' [Hclean' [_ Hstop]]].
  rewrite Hclean in Hclean'. injection Hclean' as <-.
  unfold BrowserUtilities.getStatus. simpl.
  split; [exact Hstop|].
  intros Hp Hc Hb. rewrite (@cleanup_releases surface sBefore Hp Hc Hb) in Hclean.
  injection Hclean as <-. simpl. auto.
Qed.

Lemma captureNetworkLogs_releases_witness :
  exists result sFinal,
    BrowserController.captureNetworkLogs Fixtures.newURL Fixtures.unreachable
      [] "https://www.example.com/" BrowserController.initialState
    = (inr result, sFinal)
    /\ ControllerStatus.browserInitialized (BrowserUtilities.getStatus sFinal)
       = false.
Proof.
  destruct (@captureNetworkLogs_releases Fixtures.newURL Fixtures.unreachable
              [] "https://www.example.com/"
              BrowserController.initialState eq_refl)
    as [result [sFinal [Hrun [_ Hclosed]]]].
  exists result, sFinal. split; [exact Hrun|].
  exact (proj1 (Hclosed eq_refl eq_refl eq_refl)).
Defined.

(** X15.  When the browser has started and one of the close calls throws,
    [cleanup] swallows the exception and stops: the capture still returns
    its successful result, and the browser handle is kept, so [getStatus]
    reports the browser as initialized. *)
Theorem captureNetworkLogs_close_failure
    (newURL : string -> option URL.t) (surface : Surface.t)
    (allowedHosts : list string) (url : string)
    (s0 : BrowserController.State) :
  BrowserController.pending s0 = [] ->
  Starts newURL surface url ->
  (exists t, Surface.pageClose surface = inl t
             \/ Surface.contextClose surface = inl t
             \/ Surface.browserClose surface = inl t) ->
  exists result sFinal,
    BrowserController.captureNetworkLogs newURL surface allowedHosts url s0
    = (inr result, sFinal)
    /\ NetworkCaptureResult.success result = true
    /\ ControllerStatus.browserInitialized (BrowserUtilities.getStatus sFinal)
       = true.
Proof.
  intros Hpend Hstarts Hfail.
  destruct (@captureNetworkLogs_outcome newURL surface allowedHosts url s0 Hpend)
    as [result [sBefore [sFinal [Hrun [Hclean [_ [_ [_ Hcases]]]]]]]].
  exists result, sFinal. split; [exact Hrun|].
  destruct Hcases as [[_ [[Hok _] [Hb [Hc [Hp _]]]]] | [Hnot _]];
    [|contradiction].
  split; [exact Hok|].
  destruct (@cleanup_stops surface sBefore Hb Hc Hp Hfail) as [s' [Hclean' Hopen]].
  rewrite Hclean in Hclean'. injection Hclean' as <-. exact Hopen.
Qed.

Lemma captureNetworkLogs_close_failure_witness :
  exists result sFinal,
    BrowserController.captureNetworkLogs Fixtures.newURL
      (Surface.mk (inr tt) (inr tt) (inr tt) (inr tt) [] []
         (inl (ThrownError "Target closed")) (inr tt) (inr tt) (fun _ => 0%Z))
      [] "https://www.example.com/" BrowserController.initialState
    = (inr result, sFinal)
    /\ NetworkCaptureResult.success result = true
    /\ ControllerStatus.browserInitialized (BrowserUtilities.getStatus sFinal)
       = true.
Proof.
  apply captureNetworkLogs_close_failure.
  - reflexivity.
  - unfold Starts. simpl. repeat split; discriminate.
  - exists (ThrownError "Target closed"). now left.
Defined.

(** ** What a capture leaves out *)

Lemma runEvents_withNavigationEvents (newURL : string -> option URL.t)
    (surface : Surface.t) (allowedHosts : list string)
    (navigation events : list SurfaceEvent) (s : BrowserController.State) :
  BrowserController.runEvents newURL
    (withNavigationEvents navigation surface) allowedHosts events s
  = BrowserController.runEvents newURL surface allowedHosts events s.
Proof.
  revert s. induction events as [|ev events IH]; intros s; [reflexivity|].
  simpl. unfold BrowserController.mbind.
  replace (BrowserController.onSurfaceEvent newURL
             (withNavigationEvents navigation surface) allowedHosts ev s)
    with (BrowserController.onSurfaceEvent newURL surface allowedHosts ev s)
    by reflexivity.
  destruct (BrowserController.onSurfaceEvent newURL surface allowedHosts ev s)
    as [[t|[]] s1]; [reflexivity | apply IH].
Qed.

(** X16.  Responses that arrive while the page is loading are never
    recorded: whatever the page emits before [page.goto] returns, the
    result of the capture is the same. *)
Theorem captureNetworkLogs_ignores_navigation
    (newURL : string -> option URL.t) (surface : Surface.t)
    (allowedHosts : list string) (url : string)
    (s0 : BrowserController.State) (events : list SurfaceEvent) :
  BrowserController.pending s0 = [] ->
  fst (BrowserController.captureNetworkLogs newURL
         (withNavigationEvents events surface) allowedHosts url s0)
  = fst (BrowserController.captureNetworkLogs newURL surface allowedHosts
           url s0).
Proof.
  intros Hpend.
  destruct (@captureNetworkLogs_outcome newURL surface allowedHosts url s0 Hpend)
    as [result [sBefore [sFinal [Hrun [_ [_ [Htotal [Hblocks Hcases]]]]]]]].
  destruct (@captureNetworkLogs_outcome newURL
              (withNavigationEvents events surface) allowedHosts url s0 Hpend)
    as [result' [sBefore' [sFinal' [Hrun' [_ [_ [Htotal' [Hblocks' Hcases']]]]]]]].
  rewrite Hrun, Hrun'. simpl. f_equal.
  assert (Hsame : Starts newURL (withNavigationEvents events surface) url
                  <-> Starts newURL surface url) by reflexivity.
  destruct Hcases as [[Hstarts [[Hok Herr] [_ [_ [_ [_ [s' [Hwin [_ Hlogs]]]]]]]]]
                     | [Hnot ->]];
    destruct Hcases'
      as [[Hstarts' [[Hok' Herr'] [_ [_ [_ [_ [s'' [Hwin' [_ Hlogs']]]]]]]]]
         | [Hnot' ->]];
    try tauto.
  simpl in Hwin'. rewrite runEvents_withNavigationEvents in Hwin'.
  rewrite Hwin in Hwin'. injection Hwin' as <-.
  destruct result as [success logs total blocks error].
  destruct result' as [success' logs' total' blocks' error'].
  simpl in *. now subst.
Qed.

Lemma acceptedResponses_bounds (newURL : string -> option URL.t)
    (allowedHosts : list string) (events : list SurfaceEvent)
    (waiting : list Response.t) :
  List.length (acceptedResponses newURL allowedHosts waiting events)
  <= bodiesResolved events
  /\ List.length (acceptedResponses newURL allowedHosts waiting events)
     <= List.length waiting + responsesPassing newURL allowedHosts events.
Proof.
  unfold bodiesResolved, responsesPassing.
  revert waiting. induction events as [|[r|k] events IH]; intros waiting; simpl.
  - lia.
  - destruct (BrowserController.shouldCaptureResponse newURL allowedHosts r);
      simpl.
    + destruct (IH (waiting ++ [r])%list) as [H1 H2].
      rewrite length_app in H2. simpl in H2. lia.
    + apply IH.
  - destruct (nth_error waiting k) as [r|] eqn:Hk; simpl.
    + destruct (IH (BrowserController.removeNth k waiting)) as [H1 H2].
      assert (Hlen : S (List.length (BrowserController.removeNth k waiting))
                     = List.length waiting).
      { clear - Hk. revert k Hk.
        induction waiting as [|a waiting IHw]; intros [|k] Hk; simpl in *;
          try discriminate; [reflexivity|].
        now rewrite (IHw k Hk). }
      lia.
    + destruct (IH waiting) as [H1 H2]. lia.
Qed.

(** X17.  A capture records a response only if it passed the filter on
    arrival and its body settled before the user pressed Enter: the number
    of logs is at most the number of bodies that settled during the window,
    and at most the number of responses that passed the filter. *)
Theorem captureNetworkLogs_bounded_by_events
    (newURL : string -> option URL.t) (surface : Surface.t)
    (allowedHosts : list string) (url : string)
    (s0 : BrowserController.State) :
  BrowserController.pending s0 = [] ->
  exists result sFinal,
    BrowserController.captureNetworkLogs newURL surface allowedHosts url s0
    = (inr result, sFinal)
    /\ NetworkCaptureResult.totalRequests result
       = List.length (NetworkCaptureResult.logs result)
    /\ NetworkCaptureResult.totalRequests result
       <= bodiesResolved (Surface.duringCapture surface)
    /\ NetworkCaptureResult.totalRequests result
       <= responsesPassing newURL allowedHosts (Surface.duringCapture surface).
Proof.
  intros Hpend.
  destruct (@captureNetworkLogs_outcome newURL surface allowedHosts url s0 Hpend)
    as [result [sBefore [sFinal [Hrun [_ [_ [Htotal [_ Hcases]]]]]]]].
  exists result, sFinal. split; [exact Hrun|]. split; [exact Htotal|].
  destruct Hcases as [[_ [_ [_ [_ [_ [HF _]]]]]] | [_ ->]]; [|simpl; lia].
  rewrite Htotal. apply Forall2_length_eq in HF. rewrite <- HF.
  destruct (acceptedResponses_bounds newURL allowedHosts
              (Surface.duringCapture surface) []) as [H1 H2].
  simpl in H2. split; assumption.
Qed.

Lemma captureNetworkLogs_bounded_by_events_witness :
  exists result sFinal,
    BrowserController.captureNetworkLogs Fixtures.newURL
      (Fixtures.session [ResponseArrives Fixtures.readable])
      [] "https://www.example.com/" BrowserController.initialState
    = (inr result, sFinal)
    /\ NetworkCaptureResult.totalRequests result <= 0.
Proof.
  destruct (@captureNetworkLogs_bounded_by_events Fixtures.newURL
              (Fixtures.session [ResponseArrives Fixtures.readable])
              [] "https://www.example.com/"
              BrowserController.initialState eq_refl)
    as [result [sFinal [Hrun [_ [Hle _]]]]].
  exists result, sFinal. split; [exact Hrun | exact Hle].
Defined.

Lemma captureNetworkLogs_ignores_navigation_witness :
  fst (BrowserController.captureNetworkLogs Fixtures.newURL
         (withNavigationEvents
            [ResponseArrives Fixtures.readable; BodyResolves 0]
            (Fixtures.session []))
         [] "https://www.example.com/" BrowserController.initialState)
  = fst (BrowserController.captureNetworkLogs Fixtures.newURL
           (Fixtures.session [])
           [] "https://www.example.com/" BrowserController.initialState).
Proof.
  apply captureNetworkLogs_ignores_navigation. reflexivity.
Defined.

(** ** From the capture to the normalizer *)

Lemma filter_firstn_length {A} (f : A -> bool) (n : nat) (l : list A) :
  List.length (filter f (firstn n l)) <= List.length (filter f l).
Proof.
  rewrite <- (firstn_skipn n l) at 2. rewrite filter_app, length_app. lia.
Qed.

Lemma filter_blockFirst (newURL : string -> option URL.t)
    (logs : NetworkLogCollection) :
  filter (DataProcessor.isBffBlockApiPattern newURL) (blockFirst newURL logs)
  = filter (DataProcessor.isBffBlockApiPattern newURL) logs.
Proof.
  unfold blockFirst. rewrite filter_app.
  rewrite (@filter_none _ (DataProcessor.isBffBlockApiPattern newURL)
             (filter (fun log =>
                        negb (DataProcessor.isBffBlockApiPattern newURL log))
                logs)).
  - rewrite app_nil_r. apply forallb_filter_id. apply forallb_forall.
    intros x Hx. now apply filter_In in Hx.
  - intros x Hx. apply filter_In in Hx as [_ Hx]. now apply negb_true_iff.
Qed.

Lemma filterAndPrioritizeLogs_blocks (newURL : string -> option URL.t)
    (options : Options.t) (logs : NetworkLogCollection) :
  List.length
    (filter (DataProcessor.isBffBlockApiPattern newURL)
       (DataProcessor.filterAndPrioritizeLogs newURL options logs))
  <= List.length (filter (DataProcessor.isBffBlockApiPattern newURL) logs)
  /\ ((Options.maxApis options <= 0)%Z ->
      List.length
        (filter (DataProcessor.isBffBlockApiPattern newURL)
           (DataProcessor.filterAndPrioritizeLogs newURL options logs))
      = List.length (filter (DataProcessor.isBffBlockApiPattern newURL) logs)).
Proof.
  rewrite filterAndPrioritizeLogs_spec. cbv zeta.
  assert (H : forall ordered : NetworkLogCollection,
             filter (DataProcessor.isBffBlockApiPattern newURL) ordered
             = filter (DataProcessor.isBffBlockApiPattern newURL) logs ->
             List.length
               (filter (DataProcessor.isBffBlockApiPattern newURL)
                  (if (Options.maxApis options >? 0)%Z
                   then firstn (Z.to_nat (Options.maxApis options)) ordered
                   else ordered))
             <= List.length
                  (filter (DataProcessor.isBffBlockApiPattern newURL) logs)
             /\ ((Options.maxApis options <= 0)%Z ->
                 List.length
                   (filter (DataProcessor.isBffBlockApiPattern newURL)
                      (if (Options.maxApis options >? 0)%Z
                       then firstn (Z.to_nat (Options.maxApis options)) ordered
                       else ordered))
                 = List.length
                     (filter (DataProcessor.isBffBlockApiPattern newURL) logs))).
  { intros ordered Heq. rewrite <- Heq.
    destruct (Options.maxApis options >? 0)%Z eqn:Hcap.
    - split; [apply filter_firstn_length|].
      intros Hle. rewrite Z.gtb_ltb in Hcap. apply Z.ltb_lt in Hcap. lia.
    - split; [lia | reflexivity]. }
  destruct (Options.prioritizeBffApis options); apply H;
    [apply filter_blockFirst | reflexivity].
Qed.

(** The groups that carry the block flag are at most as many as the block
    exchanges. *)
Lemma flagged_groups_le (newURL : string -> option URL.t)
    (logs : NetworkLogCollection) :
  List.length
    (filter EndpointMergeInfo.isBffBlockApi
       (map (groupOf newURL logs) (identities newURL logs)))
  <= List.length (filter (DataProcessor.isBffBlockApiPattern newURL) logs).
Proof.
  rewrite filter_map_length.
  rewrite <- (length_map (DataProcessor.createEndpointKey newURL)
                (filter (DataProcessor.isBffBlockApiPattern newURL) logs)).
  apply NoDup_incl_length.
  - apply NoDup_filter. apply (firstSeen_NoDup newURL).
  - intros k Hk. apply filter_In in Hk as [_ Hflag].
    simpl in Hflag. apply existsb_exists in Hflag as [x [Hx Hblock]].
    apply filter_In in Hx as [Hin Hkey]. apply String.eqb_eq in Hkey.
    subst k. apply in_map. apply filter_In. now split.
Qed.

Lemma processNetworkLogs_block_count (newURL : string -> option URL.t)
    (now : Z) (options : Options.t) (logs : NetworkLogCollection) :
  let result := DataProcessor.processNetworkLogs newURL now options logs in
  DataProcessingResult.bffApiCount result
  <= List.length (filter (DataProcessor.isBffBlockApiPattern newURL) logs)
  /\ (Options.mergeDuplicates options = false ->
      (Options.maxApis options <= 0)%Z ->
      DataProcessingResult.bffApiCount result
      = List.length (filter (DataProcessor.isBffBlockApiPattern newURL) logs)).
Proof.
  intros result. unfold result.
  destruct (filterAndPrioritizeLogs_blocks newURL options logs) as [Hle Heq].
  destruct (nil_or_not logs) as [->|Hne].
  - rewrite processNetworkLogs_empty. simpl. split; [lia | reflexivity].
  - destruct (Options.mergeDuplicates options) eqn:Hmerge.
    + destruct (@processNetworkLogs_representatives newURL now options logs
                  Hne Hmerge) as [rs [-> _]].
      simpl. split; [|discriminate].
      etransitivity; [apply flagged_groups_le | exact Hle].
    + rewrite (@processNetworkLogs_unmerged newURL now options logs Hne Hmerge).
      simpl. split; [exact Hle | intros _; exact Heq].
Qed.

(** X18.  The classification stored in a captured entry is the one the
    normalizer computes again from the entry's URL.  So on the logs of a
    capture the two [filterBffBlockApis] functions select the same
    entries, and their number is the [filteredRequests] of the result. *)
Theorem captureNetworkLogs_flags_agree
    (newURL : string -> option URL.t) (surface : Surface.t)
    (allowedHosts : list string) (url : string)
    (s0 : BrowserController.State) :
  BrowserController.pending s0 = [] ->
  exists result sFinal,
    BrowserController.captureNetworkLogs newURL surface allowedHosts url s0
    = (inr result, sFinal)
    /\ (forall entry,
          In entry (NetworkCaptureResult.logs result) ->
          NetworkLogEntry.isBffBlockApi entry
          = DataProcessor.isBffBlockApiPattern newURL entry)
    /\ BrowserUtilities.filterBffBlockApis (NetworkCaptureResult.logs result)
       = ProcessorUtilities.filterBffBlockApis newURL
           (NetworkCaptureResult.logs result)
    /\ List.length
         (BrowserUtilities.filterBffBlockApis (NetworkCaptureResult.logs result))
       = NetworkCaptureResult.filteredRequests result.
Proof.
  intros Hpend.
  destruct (@captureNetworkLogs_outcome newURL surface allowedHosts url s0 Hpend)
    as [result [sBefore [sFinal [Hrun [_ [_ [_ [Hblocks Hcases]]]]]]]].
  exists result, sFinal. split; [exact Hrun|].
  assert (Hflags : forall entry,
             In entry (NetworkCaptureResult.logs result) ->
             NetworkLogEntry.isBffBlockApi entry
             = DataProcessor.isBffBlockApiPattern newURL entry).
  { intros entry Hin.
    destruct Hcases as [[_ [_ [_ [_ [_ [_ [s' [_ [Hinv Hlogs]]]]]]]]] | [_ ->]];
      [|destruct Hin].
    destruct Hinv as [_ [_ [Hpass _]]]. rewrite Hlogs in Hin.
    destruct (proj1 (Forall_forall _ _) Hpass entry Hin)
      as [_ [_ [_ [_ [Hflag _]]]]].
    rewrite Hflag. symmetry. apply classifier_copies_agree. }
  split; [exact Hflags|]. split.
  - unfold BrowserUtilities.filterBffBlockApis,
      ProcessorUtilities.filterBffBlockApis.
    apply filter_ext_in. exact Hflags.
  - now rewrite Hblocks.
Qed.

Lemma captureNetworkLogs_flags_agree_witness :
  exists result sFinal,
    BrowserController.captureNetworkLogs Fixtures.newURL
      (Fixtures.session [ResponseArrives Fixtures.readable; BodyResolves 0])
      [] "https://www.example.com/" BrowserController.initialState
    = (inr result, sFinal)
    /\ List.length
         (BrowserUtilities.filterBffBlockApis (NetworkCaptureResult.logs result))
       = NetworkCaptureResult.filteredRequests result.
Proof.
  destruct (@captureNetworkLogs_flags_agree Fixtures.newURL
              (Fixtures.session
                 [ResponseArrives Fixtures.readable; BodyResolves 0])
              [] "https://www.example.com/"
              BrowserController.initialState eq_refl)
    as [result [sFinal [Hrun [_ [_ Hlen]]]]].
  exists result, sFinal. split; [exact Hrun | exact Hlen].
Defined.

(** X19.  Normalizing the logs of a capture never reports more block APIs
    than the capture counted: [bffApiCount] is at most [filteredRequests],
    [totalLogs] is [totalRequests], and without merging and without a
    positive [maxApis] the two block counts are equal. *)
Theorem capture_then_process_counts
    (newURL : string -> option URL.t) (surface : Surface.t)
    (allowedHosts : list string) (url : string)
    (s0 : BrowserController.State) (now : Z) (options : Options.t) :
  BrowserController.pending s0 = [] ->
  exists result sFinal,
    BrowserController.captureNetworkLogs newURL surface allowedHosts url s0
    = (inr result, sFinal)
    /\ let processed :=
         DataProcessor.processNetworkLogs newURL now options
           (NetworkCaptureResult.logs result) in
       DataProcessingResult.bffApiCount processed
       <= NetworkCaptureResult.filteredRequests result
       /\ DataProcessingResult.totalLogs processed
          = NetworkCaptureResult.totalRequests result
       /\ (Options.mergeDuplicates options = false ->
           (Options.maxApis options <= 0)%Z ->
           DataProcessingResult.bffApiCount processed
           = NetworkCaptureResult.filteredRequests result).
Proof.
  intros Hpend.
  destruct (@captureNetworkLogs_outcome newURL surface allowedHosts url s0 Hpend)
    as [result [sBefore [sFinal [Hrun [_ [_ [Htotal [Hblocks Hcases]]]]]]]].
  exists result, sFinal. split; [exact Hrun|].
  assert (Hsame : filter NetworkLogEntry.isBffBlockApi
                    (NetworkCaptureResult.logs result)
                  = filter (DataProcessor.isBffBlockApiPattern newURL)
                      (NetworkCaptureResult.logs result)).
  { apply filter_ext_in. intros entry Hin.
    destruct Hcases as [[_ [_ [_ [_ [_ [_ [s' [_ [Hinv Hlogs]]]]]]]]] | [_ ->]];
      [|destruct Hin].
    destruct Hinv as [_ [_ [Hpass _]]]. rewrite Hlogs in Hin.
    destruct (proj1 (Forall_forall _ _) Hpass entry Hin)
      as [_ [_ [_ [_ [Hflag _]]]]].
    rewrite Hflag. symmetry. apply classifier_copies_agree. }
  intros processed. rewrite Hblocks, Htotal, Hsame.
  destruct (processNetworkLogs_block_count newURL now options
              (NetworkCaptureResult.logs result)) as [Hle Heq].
  split; [exact Hle|]. split; [|exact Heq].
  unfold processed.
  destruct (processNetworkLogs_shape newURL now options
              (NetworkCaptureResult.logs result)) as [pd [count [Htry _]]].
  unfold DataProcessor.processNetworkLogs. now rewrite Htry.
Qed.

Lemma capture_then_process_counts_witness :
  exists result sFinal,
    BrowserController.captureNetworkLogs Fixtures.newURL
      (Fixtures.session [ResponseArrives Fixtures.readable; BodyResolves 0])
      [] "https://www.example.com/" BrowserController.initialState
    = (inr result, sFinal)
    /\ DataProcessingResult.bffApiCount
         (DataProcessor.processNetworkLogs Fixtures.newURL 0
            (Options.mk false true 0 false) (NetworkCaptureResult.logs result))
       = NetworkCaptureResult.filteredRequests result.
Proof.
  destruct (@capture_then_process_counts Fixtures.newURL
              (Fixtures.session
                 [ResponseArrives Fixtures.readable; BodyResolves 0])
              [] "https://www.example.com/"
              BrowserController.initialState 0 (Options.mk false true 0 false)
              eq_refl)
    as [result [sFinal [Hrun [_ [_ Heq]]]]].
  exists result, sFinal. split; [exact Hrun|].
  apply Heq; [reflexivity | simpl; lia].
Defined.

(** * Properties of the text helpers, the configuration and the retry loop *)

(** ** Trimming and splitting *)

Lemma trimEnd_blank (s : string) :
  JsText.trimEnd s = "" <-> ReferenceURL.forallb_string JsText.isWhiteSpace s = true.
Proof.
  induction s as [|c s IH]; simpl; [tauto|].
  destruct (JsText.trimEnd s) as [|d rest].
  - destruct (JsText.isWhiteSpace c); simpl.
    + rewrite <- IH. tauto.
    + split; discriminate.
  - split; [discriminate|]. intros H. apply andb_true_iff in H as [_ H].
    apply IH in H. discriminate.
Qed.

Lemma trimStart_blank (s : string) :
  JsText.trimStart s = "" <-> ReferenceURL.forallb_string JsText.isWhiteSpace s = true.
Proof.
  induction s as [|c s IH]; simpl; [tauto|].
  destruct (JsText.isWhiteSpace c); simpl; [exact IH | split; discriminate].
Qed.

Lemma trimEnd_cons (c : ascii) (s : string) :
  JsText.isWhiteSpace c = false ->
  JsText.trimEnd (String c s) = String c (JsText.trimEnd s).
Proof.
  intros Hc. simpl. rewrite Hc. now destruct (JsText.trimEnd s).
Qed.

Lemma trimEnd_idempotent (s : string) :
  JsText.trimEnd (JsText.trimEnd s) = JsText.trimEnd s.
Proof.
  induction s as [|c s IH]; simpl; [reflexivity|].
  destruct (JsText.trimEnd s) as [|d rest] eqn:E.
  - destruct (JsText.isWhiteSpace c) eqn:Hc; simpl; [reflexivity|].
    now rewrite Hc.
  - cbn [JsText.trimEnd]. fold JsText.trimEnd.
    change (JsText.trimEnd (String c (String d rest))
            = String c (String d rest)).
    simpl. simpl in IH. now rewrite IH.
Qed.

Lemma trimStart_startsBlack (s : string) : startsBlack (JsText.trimStart s) = true.
Proof.
  induction s as [|c s IH]; simpl; [reflexivity|].
  destruct (JsText.isWhiteSpace c) eqn:Hc; [exact IH|]. simpl. now rewrite Hc.
Qed.

Lemma trimStart_id (s : string) :
  startsBlack s = true -> JsText.trimStart s = s.
Proof.
  destruct s as [|c s]; simpl; [reflexivity|].
  now destruct (JsText.isWhiteSpace c).
Qed.

Lemma trimEnd_startsBlack (s : string) :
  startsBlack s = true -> startsBlack (JsText.trimEnd s) = true.
Proof.
  destruct s as [|c s]; [reflexivity|]. cbn [startsBlack].
  intros Hc. apply negb_true_iff in Hc. rewrite (@trimEnd_cons c s Hc).
  simpl. now rewrite Hc.
Qed.

Lemma trim_idempotent (s : string) : JsText.trim (JsText.trim s) = JsText.trim s.
Proof.
  unfold JsText.trim.
  rewrite (trimStart_id (JsText.trimEnd (JsText.trimStart s))).
  - apply trimEnd_idempotent.
  - apply trimEnd_startsBlack, trimStart_startsBlack.
Qed.

Lemma trim_blank (s : string) :
  JsText.trim s = "" <-> ReferenceURL.forallb_string JsText.isWhiteSpace s = true.
Proof.
  unfold JsText.trim. split.
  - intros H. apply trimStart_blank.
    pose proof (trimStart_startsBlack s) as Hs.
    destruct (JsText.trimStart s) as [|c t]; [reflexivity|].
    simpl in Hs. apply negb_true_iff in Hs.
    rewrite (@trimEnd_cons c t Hs) in H. discriminate.
  - intros H. apply trimStart_blank in H. now rewrite H.
Qed.

Lemma trimStart_suffix (s : string) : exists w, s = w ++ JsText.trimStart s.
Proof.
  induction s as [|c s [w IH]]; simpl; [now exists ""|].
  destruct (JsText.isWhiteSpace c).
  - exists (String c w). simpl. now rewrite <- IH.
  - now exists "".
Qed.

Lemma string_app_nil_r (s : string) : s ++ "" = s.
Proof. induction s as [|c s IH]; simpl; [reflexivity | now rewrite IH]. Qed.

Lemma string_app_assoc (a b c : string) : (a ++ b) ++ c = a ++ b ++ c.
Proof. induction a as [|x a IH]; simpl; [reflexivity | now rewrite IH]. Qed.

Lemma trimEnd_prefix (s : string) : exists w, s = JsText.trimEnd s ++ w.
Proof.
  induction s as [|c s [w IH]]; simpl; [now exists ""|].
  destruct (JsText.trimEnd s) as [|d rest].
  - destruct (JsText.isWhiteSpace c).
    + exists (String c s). reflexivity.
    + exists w. simpl. simpl in IH. now rewrite <- IH.
  - exists w. simpl. simpl in IH. now rewrite <- IH.
Qed.

Lemma trim_includes (sub s : string) :
  Js.includes sub s = false -> Js.includes sub (JsText.trim s) = false.
Proof.
  intros H. destruct (Js.includes sub (JsText.trim s)) eqn:E; [|reflexivity].
  apply includes_spec in E as [a [b E]].
  destruct (trimStart_suffix s) as [w Hw].
  destruct (trimEnd_prefix (JsText.trimStart s)) as [w' Hw'].
  unfold JsText.trim in E. rewrite E in Hw'. rewrite Hw' in Hw.
  assert (Hin : Js.includes sub s = true).
  { apply includes_spec. exists (w ++ a), (b ++ w'). rewrite Hw.
    now rewrite !string_app_assoc. }
  congruence.
Qed.

Lemma split_pieces (c : ascii) (s : string) :
  JsText.split c s <> []
  /\ Forall (fun piece => Js.includes (String c "") piece = false)
       (JsText.split c s).
Proof.
  induction s as [|a s [Hne IH]]; simpl.
  - split; [discriminate | repeat constructor].
  - destruct (Ascii.eqb a c) eqn:Hac.
    + split; [discriminate|]. constructor; [reflexivity | exact IH].
    + destruct (JsText.split c s) as [|piece rest]; [contradiction|].
      split; [discriminate|]. inversion IH as [|? ? Hp Hrest]. subst.
      constructor; [|exact Hrest]. simpl.
      rewrite Ascii.eqb_sym, Hac. simpl. exact Hp.
Qed.

Lemma split_whole (c : ascii) (s : string) :
  Js.includes (String c "") s = false -> JsText.split c s = [s].
Proof.
  induction s as [|a s IH]; [reflexivity|].
  intros H. apply includes_char_cons in H as [Hac H]. simpl.
  apply Ascii.eqb_neq in Hac. rewrite Hac. now rewrite (IH H).
Qed.

Lemma split_app (c : ascii) (piece rest : string) :
  Js.includes (String c "") piece = false ->
  JsText.split c (piece ++ String c rest) = piece :: JsText.split c rest.
Proof.
  induction piece as [|a piece IH]; simpl.
  - intros _. now rewrite Ascii.eqb_refl.
  - intros H. apply includes_char_cons in H as [Hac H].
    apply Ascii.eqb_neq in Hac. rewrite Hac. now rewrite (IH H).
Qed.

(** Splitting undoes joining, for pieces without the separator. *)
Lemma split_concat (pieces : list string) :
  pieces <> [] ->
  Forall (fun piece => Js.includes "," piece = false) pieces ->
  JsText.split "," (String.concat "," pieces) = pieces.
Proof.
  intros Hne Hall. induction Hall as [|p pieces Hp Hall IH]; [contradiction|].
  destruct pieces as [|q pieces].
  - simpl. now apply split_whole.
  - change (String.concat "," (p :: q :: pieces))
      with (p ++ String "," (String.concat "," (q :: pieces))).
    rewrite split_app by exact Hp. f_equal. apply IH. discriminate.
Qed.

Lemma forallb_string_app (f : ascii -> bool) (a b : string) :
  ReferenceURL.forallb_string f (a ++ b)
  = ReferenceURL.forallb_string f a && ReferenceURL.forallb_string f b.
Proof.
  induction a as [|c a IH]; simpl; [reflexivity|].
  now rewrite IH, andb_assoc.
Qed.

Lemma concat_blank (pieces : list string) :
  JsText.trim (String.concat "," pieces) = "" ->
  Forall (fun piece => JsText.trim piece = "") pieces.
Proof.
  rewrite trim_blank. destruct pieces as [|p [|q pieces]]; simpl.
  - constructor.
  - intros H. constructor; [now apply trim_blank | constructor].
  - rewrite forallb_string_app. simpl. rewrite andb_false_r. discriminate.
Qed.

Lemma nonempty_length (s : string) :
  (0 <? String.length s)%nat = negb (String.eqb s "").
Proof. now destruct s. Qed.

(** ** Environment overrides *)

(** X20.  [processEnvironmentVariables] takes the allowed hosts from
    [MOCKGEN_ALLOWED_HOSTS] only when the variable yields at least one
    host: the hosts are then the comma-separated pieces, trimmed, without
    the empty ones, in order.  An unset or blank variable, or one made of
    commas and blanks only, leaves the configured hosts; the output
    section, the model name and the template path are never touched. *)
Theorem processEnvironmentVariables_hosts
    (AI_API_KEY MOCKGEN_ALLOWED_HOSTS : option string) (config : AppConfig.t) :
  let result :=
    Config.processEnvironmentVariables AI_API_KEY MOCKGEN_ALLOWED_HOSTS config in
  let before := FilterConfig.allowed_hosts (AppConfig.filter config) in
  let after := FilterConfig.allowed_hosts (AppConfig.filter result) in
  (after = before
   \/ (after <> []
       /\ Forall (fun host => host <> "" /\ JsText.trim host = host
                              /\ Js.includes "," host = false) after))
  /\ (MOCKGEN_ALLOWED_HOSTS = None -> after = before)
  /\ (forall pieces,
        MOCKGEN_ALLOWED_HOSTS = Some (String.concat "," pieces) ->
        Forall (fun piece => Js.includes "," piece = false) pieces ->
        let hosts :=
          filter (fun host => negb (String.eqb host ""))
            (map JsText.trim pieces) in
        after = if (List.length hosts =? 0)%nat then before else hosts)
  /\ AppConfig.output result = AppConfig.output config
  /\ AiConfig.model_name (AppConfig.ai result)
     = AiConfig.model_name (AppConfig.ai config)
  /\ AiConfig.prompt_template_path (AppConfig.ai result)
     = AiConfig.prompt_template_path (AppConfig.ai config).
Proof.
  intros result before after.
  set (parsed := fun text =>
         filter (fun host => (0 <? String.length host)%nat)
           (map JsText.trim (JsText.split "," text))).
  assert (Hafter : after
                   = match MOCKGEN_ALLOWED_HOSTS with
                     | Some text =>
                         if negb (String.eqb text "")
                            && negb (String.eqb (JsText.trim text) "")
                         then if (0 <? List.length (parsed text))%nat
                              then parsed text else before
                         else before
                     | None => before
                     end).
  { unfold after, result, before, Config.processEnvironmentVariables, parsed.
    destruct MOCKGEN_ALLOWED_HOSTS as [text|];
      [destruct (negb (String.eqb text "")
                 && negb (String.eqb (JsText.trim text) ""));
       [match goal with
        | |- context [(0 <? List.length ?l)%nat] =>
            destruct (0 <? List.length l)%nat
        end|]|];
      destruct AI_API_KEY as [key|];
      try destruct (negb (String.eqb key "")
                    && negb (String.eqb (JsText.trim key) ""));
      reflexivity. }
  split; [|split; [|split]].
  - rewrite Hafter. destruct MOCKGEN_ALLOWED_HOSTS as [text|]; [|now left].
    destruct (negb (String.eqb text "")
              && negb (String.eqb (JsText.trim text) "")); [|now left].
    destruct (0 <? List.length (parsed text))%nat eqn:Hlen; [|now left].
    right. split.
    + intros E. rewrite E in Hlen. discriminate.
    + apply Forall_forall. intros host Hhost. unfold parsed in Hhost.
      apply filter_In in Hhost as [Hin Hne].
      apply in_map_iff in Hin as [piece [<- Hpiece]].
      split; [|split].
      * intros E. rewrite E in Hne. discriminate.
      * apply trim_idempotent.
      * apply trim_includes.
        destruct (split_pieces "," text) as [_ Hall].
        exact (proj1 (Forall_forall _ _) Hall piece Hpiece).
  - intros ->. exact Hafter.
  - intros pieces -> Hpieces hosts. rewrite Hafter.
    assert (Hparsed : pieces <> [] ->
                      parsed (String.concat "," pieces) = hosts).
    { intros Hne. unfold parsed. rewrite (split_concat Hne Hpieces).
      unfold hosts. apply filter_ext. intros host. apply nonempty_length. }
    destruct (List.length hosts =? 0)%nat eqn:Hlen.
    + apply Nat.eqb_eq in Hlen.
      destruct (negb (String.eqb (String.concat "," pieces) "")
                && negb (String.eqb (JsText.trim (String.concat "," pieces)) ""));
        [|reflexivity].
      destruct pieces as [|p pieces]; [reflexivity|].
      rewrite Hparsed by discriminate. now rewrite Hlen.
    + apply Nat.eqb_neq in Hlen.
      assert (Hne : pieces <> []).
      { intros ->. now apply Hlen. }
      rewrite (Hparsed Hne).
      assert (Hblack : JsText.trim (String.concat "," pieces) <> "").
      { intros Hblank. apply concat_blank in Hblank. apply Hlen.
        unfold hosts. rewrite (@filter_none _ _ (map JsText.trim pieces));
          [reflexivity|].
        intros host Hhost. apply in_map_iff in Hhost as [piece [<- Hpiece]].
        now rewrite (proj1 (Forall_forall _ _) Hblank piece Hpiece). }
      assert (Hfull : String.concat "," pieces <> "").
      { intros E. apply Hblack. now rewrite E. }
      apply String.eqb_neq in Hblack. apply String.eqb_neq in Hfull.
      rewrite Hblack, Hfull. simpl.
      destruct (0 <? List.length hosts)%nat eqn:Hpos; [reflexivity|].
      apply Nat.ltb_ge in Hpos. lia.
  - unfold result, Config.processEnvironmentVariables.
    destruct MOCKGEN_ALLOWED_HOSTS as [text|];
      [destruct (negb (String.eqb text "")
                 && negb (String.eqb (JsText.trim text) ""));
       [match goal with
        | |- context [(0 <? List.length ?l)%nat] =>
            destruct (0 <? List.length l)%nat
        end|]|];
      destruct AI_API_KEY as [key|];
      try destruct (negb (String.eqb key "")
                    && negb (String.eqb (JsText.trim key) ""));
      repeat split.
Qed.

Lemma processEnvironmentVariables_hosts_witness :
  FilterConfig.allowed_hosts
    (AppConfig.filter
       (Config.processEnvironmentVariables None
          (Some "api.example.com, stg.example.com ,,")
          (AppConfig.mk (AiConfig.mk "key" "model" "template")
             (OutputConfig.mk "out.json") (FilterConfig.mk ["localhost"]))))
  = ["api.example.com"; "stg.example.com"].
Proof.
  exact (proj1 (proj2 (proj2
           (processEnvironmentVariables_hosts None
              (Some "api.example.com, stg.example.com ,,")
              (AppConfig.mk (AiConfig.mk "key" "model" "template")
                 (OutputConfig.mk "out.json") (FilterConfig.mk ["localhost"])))))
           ["api.example.com"; " stg.example.com "; ""; ""] eq_refl
           ltac:(repeat constructor)).
Defined.

(** ** Loading the configuration file *)

(** X21.  [loadYamlFile] returns the parsed document exactly when the file
    exists, can be read, is not blank, and parses to an object.  Every
    other case leaves as an [AppError] with the code [YAML_PARSE_ERROR]:
    the errors the function builds for a missing file, an empty file and a
    document that is not an object ([FILE_NOT_FOUND], [EMPTY_FILE],
    [INVALID_YAML]) are not instances of [Error], so the handler wraps them
    too, and their codes never reach the caller; the details then read
    [[object Object]].  An [Error] of the file system is wrapped with its
    message. *)
Theorem loadYamlFile_spec (Document : Type) (existsSync : string -> bool)
    (readFileSync : string -> Try string)
    (yamlParse : string -> Try (option Document)) (clock : nat -> Z)
    (filePath : string) :
  let result :=
    Config.loadYamlFile existsSync readFileSync yamlParse clock filePath in
  (forall parsedConfig,
     result = inr parsedConfig <->
     existsSync filePath = true
     /\ exists fileContent,
          readFileSync filePath = inr fileContent
          /\ JsText.trim fileContent <> ""
          /\ yamlParse fileContent = inr (Some parsedConfig))
  /\ (forall error,
        result = inl error ->
        exists e,
          error = ThrownApp e
          /\ AppError.category e = CONFIG
          /\ AppError.code e = "YAML_PARSE_ERROR"
          /\ AppError.message e
             = "Failed to parse YAML configuration file: " ++ filePath)
  /\ (existsSync filePath = false
      \/ (exists fileContent,
            readFileSync filePath = inr fileContent
            /\ (JsText.trim fileContent = ""
                \/ yamlParse fileContent = inr None)) ->
      exists e,
        result = inl (ThrownApp e)
        /\ AppError.code e = "YAML_PARSE_ERROR"
        /\ AppError.details e = Some "[object Object]"
        /\ AppError.originalError e = None)
  /\ (forall message,
        existsSync filePath = true ->
        readFileSync filePath = inl (ThrownError message) ->
        exists e,
          result = inl (ThrownApp e)
          /\ AppError.details e = Some message
          /\ AppError.originalError e = Some message).
Proof.
  intros result. unfold result, Config.loadYamlFile, Config.loadYamlFile_try.
  destruct (existsSync filePath) eqn:Hex; simpl;
    [destruct (readFileSync filePath) as [[m|e]|content] eqn:Hread; simpl;
       [ | | destruct (String.eqb (JsText.trim content) "") eqn:Hblank; simpl;
             [ | destruct (yamlParse content) as [[m|e]|[doc|]] eqn:Hparse;
                 simpl ] ] | ];
    unfold ret, throw; (split; [|split; [|split]]).
  all: try solve
             [ intros parsedConfig; split;
               [ intros H;
                 first [ discriminate H
                       | injection H as <-; split; [reflexivity|];
                         exists content; split; [reflexivity|];
                         split; [now apply String.eqb_neq | assumption] ]
               | intros [Hf [c [Hr [Hne Hp]]]];
                 first [ discriminate Hf | discriminate Hr
                       | injection Hr as <-;
                         first [ congruence
                               | apply String.eqb_eq in Hblank;
                                 contradiction ] ] ] ].
  all: try solve
             [ intros error H;
               first [ discriminate H
                     | injection H as <-; eexists; repeat split ] ].
  all: try solve
             [ intros message Htrue H;
               first [ discriminate Htrue | discriminate H
                     | injection H as <-; eexists; repeat split ] ].
  all: intros [Hf | [c [Hr [Hb | Hp]]]];
    first [ discriminate Hf
          | discriminate Hr
          | solve [eexists; repeat split]
          | injection Hr as <-;
            first [ solve [eexists; repeat split]
                  | congruence
                  | apply String.eqb_neq in Hblank; contradiction ] ].
Qed.

Lemma loadYamlFile_spec_witness :
  exists e,
    Config.loadYamlFile (fun _ => false) (fun _ => inr "ai: {}")
      (fun _ => inr (Some tt)) (fun n => Z.of_nat n) "./config.yaml"
    = inl (ThrownApp e)
    /\ AppError.code e = "YAML_PARSE_ERROR"
    /\ AppError.details e = Some "[object Object]"
    /\ AppError.originalError e = None.
Proof.
  exact (proj1 (proj2 (proj2
           (@loadYamlFile_spec unit (fun _ => false) (fun _ => inr "ai: {}")
              (fun _ => inr (Some tt)) (fun n => Z.of_nat n) "./config.yaml")))
           (or_introl eq_refl)).
Defined.

(** ** Escaping HTML *)

(** What [escapeHtml] writes for one character. *)
Lemma replaceAll_app (c : ascii) (r a b : string) :
  JsText.replaceAll c r (a ++ b)
  = JsText.replaceAll c r a ++ JsText.replaceAll c r b.
Proof.
  induction a as [|x a IH]; simpl; [reflexivity|].
  destruct (Ascii.eqb x c); simpl; rewrite IH;
    [now rewrite string_app_assoc | reflexivity].
Qed.

Lemma escapeHtml_cons (c : ascii) (text : string) :
  DocumentGenerator.escapeHtml (String c text)
  = escapedChar c ++ DocumentGenerator.escapeHtml text.
Proof.
  unfold DocumentGenerator.escapeHtml, escapedChar.
  cbn [JsText.replaceAll].
  destruct (Ascii.eqb c "&") eqn:E1.
  { rewrite !replaceAll_app. reflexivity. }
  cbn [JsText.replaceAll].
  destruct (Ascii.eqb c "<") eqn:E2.
  { rewrite !replaceAll_app. reflexivity. }
  cbn [JsText.replaceAll].
  destruct (Ascii.eqb c ">") eqn:E3.
  { rewrite !replaceAll_app. reflexivity. }
  cbn [JsText.replaceAll].
  destruct (Ascii.eqb c DocumentGenerator.quote) eqn:E4.
  { rewrite !replaceAll_app. reflexivity. }
  cbn [JsText.replaceAll].
  destruct (Ascii.eqb c DocumentGenerator.apostrophe) eqn:E5; reflexivity.
Qed.

Lemma includes_char_app (c : ascii) (a b : string) :
  Js.includes (String c "") (a ++ b)
  = Js.includes (String c "") a || Js.includes (String c "") b.
Proof.
  induction a as [|x a IH]; simpl.
  - now destruct b.
  - rewrite IH. now rewrite !andb_true_r, orb_assoc.
Qed.

Lemma escapedChar_prefix (x y : ascii) (s t : string) :
  escapedChar x ++ s = escapedChar y ++ t -> x = y /\ s = t.
Proof.
  unfold escapedChar.
  destruct (Ascii.eqb x "&") eqn:X1;
    [|destruct (Ascii.eqb x "<") eqn:X2;
      [|destruct (Ascii.eqb x ">") eqn:X3;
        [|destruct (Ascii.eqb x DocumentGenerator.quote) eqn:X4;
          [|destruct (Ascii.eqb x DocumentGenerator.apostrophe) eqn:X5]]]];
    (destruct (Ascii.eqb y "&") eqn:Y1;
     [|destruct (Ascii.eqb y "<") eqn:Y2;
       [|destruct (Ascii.eqb y ">") eqn:Y3;
         [|destruct (Ascii.eqb y DocumentGenerator.quote) eqn:Y4;
           [|destruct (Ascii.eqb y DocumentGenerator.apostrophe) eqn:Y5]]]]);
    repeat match goal with
           | H : Ascii.eqb _ _ = true |- _ => apply Ascii.eqb_eq in H; subst
           end;
    cbn [String.append]; intros H;
    first [ discriminate H
          | injection H; intros; subst;
            first [ split; reflexivity
                  | exfalso;
                    repeat match goal with
                           | E : Ascii.eqb _ _ = false |- _ =>
                               vm_compute in E; try discriminate E; clear E
                           end ] ].
Qed.

(** [escapeHtml] loses nothing: two texts with one escaped form are the
    same text. *)
Lemma escapeHtml_injective (a b : string) :
  DocumentGenerator.escapeHtml a = DocumentGenerator.escapeHtml b -> a = b.
Proof.
  revert b. induction a as [|x a IH]; intros [|y b] H.
  - reflexivity.
  - rewrite escapeHtml_cons in H. exfalso. revert H. unfold escapedChar.
    destruct (Ascii.eqb y "&"); [discriminate|].
    destruct (Ascii.eqb y "<"); [discriminate|].
    destruct (Ascii.eqb y ">"); [discriminate|].
    destruct (Ascii.eqb y DocumentGenerator.quote); [discriminate|].
    destruct (Ascii.eqb y DocumentGenerator.apostrophe); discriminate.
  - rewrite escapeHtml_cons in H. exfalso. revert H. unfold escapedChar.
    destruct (Ascii.eqb x "&"); [discriminate|].
    destruct (Ascii.eqb x "<"); [discriminate|].
    destruct (Ascii.eqb x ">"); [discriminate|].
    destruct (Ascii.eqb x DocumentGenerator.quote); [discriminate|].
    destruct (Ascii.eqb x DocumentGenerator.apostrophe); discriminate.
  - rewrite !escapeHtml_cons in H. apply escapedChar_prefix in H as [-> H].
    f_equal. now apply IH.
Qed.

Lemma escapeHtml_chars (text : string) :
  DocumentGenerator.escapeHtml text = flatMap escapedChar text
  /\ Js.includes "<" (DocumentGenerator.escapeHtml text) = false
  /\ Js.includes ">" (DocumentGenerator.escapeHtml text) = false
  /\ Js.includes (String DocumentGenerator.quote "")
       (DocumentGenerator.escapeHtml text) = false
  /\ Js.includes (String DocumentGenerator.apostrophe "")
       (DocumentGenerator.escapeHtml text) = false.
Proof.
  assert (Hchar : forall c,
             Js.includes "<" (escapedChar c) = false
             /\ Js.includes ">" (escapedChar c) = false
             /\ Js.includes (String DocumentGenerator.quote "") (escapedChar c)
                = false
             /\ Js.includes (String DocumentGenerator.apostrophe "")
                  (escapedChar c) = false).
  { intros c. unfold escapedChar.
    destruct (Ascii.eqb c "&"); [now vm_compute|].
    destruct (Ascii.eqb c "<") eqn:E2; [now vm_compute|].
    destruct (Ascii.eqb c ">") eqn:E3; [now vm_compute|].
    destruct (Ascii.eqb c DocumentGenerator.quote) eqn:E4; [now vm_compute|].
    destruct (Ascii.eqb c DocumentGenerator.apostrophe) eqn:E5;
      [now vm_compute|].
    assert (Hone : forall d, Js.includes (String d "") (String c "")
                             = Ascii.eqb c d).
    { intros d. cbn [Js.includes Js.startsWith].
      now rewrite andb_true_r, !orb_false_r, Ascii.eqb_sym. }
    rewrite !Hone. auto. }
  induction text as [|c text [IH1 [IH2 [IH3 [IH4 IH5]]]]].
  - now vm_compute.
  - rewrite escapeHtml_cons, !includes_char_app, IH2, IH3, IH4, IH5.
    destruct (Hchar c) as [H2 [H3 [H4 H5]]].
    rewrite H2, H3, H4, H5. simpl. rewrite IH1. auto.
Qed.


(** X22.  [escapeHtml] replaces each of the five characters [& < > " ']
    by its entity and keeps every other character: an ampersand written by
    a later replacement is not escaped again.  The result holds none of
    [< > " '], and no two texts have the same result. *)
Theorem escapeHtml_spec (text : string) :
  DocumentGenerator.escapeHtml text = flatMap escapedChar text
  /\ Js.includes "<" (DocumentGenerator.escapeHtml text) = false
  /\ Js.includes ">" (DocumentGenerator.escapeHtml text) = false
  /\ Js.includes (String DocumentGenerator.quote "")
       (DocumentGenerator.escapeHtml text) = false
  /\ Js.includes (String DocumentGenerator.apostrophe "")
       (DocumentGenerator.escapeHtml text) = false
  /\ (forall other,
        DocumentGenerator.escapeHtml other = DocumentGenerator.escapeHtml text ->
        other = text).
Proof.
  destruct (escapeHtml_chars text) as [H1 [H2 [H3 [H4 H5]]]].
  repeat (split; [assumption|]).
  intros other. apply escapeHtml_injective.
Qed.

Example escapeHtml_examples :
  DocumentGenerator.escapeHtml "<a href='x'>A&B</a>"
  = "&lt;a href=&#39;x&#39;&gt;A&amp;B&lt;/a&gt;"
  /\ DocumentGenerator.escapeHtml "&lt;" = "&amp;lt;".
Proof. split; reflexivity. Qed.

Lemma escapeHtml_spec_witness :
  DocumentGenerator.escapeHtml "A&B" = flatMap escapedChar "A&B"
  /\ "A&B" = "A&B".
Proof.
  split.
  - exact (proj1 (escapeHtml_spec "A&B")).
  - exact (proj2 (proj2 (proj2 (proj2 (proj2 (escapeHtml_spec "A&B")))))
             "A&B" eq_refl).
Defined.


(** ** The retry loop *)

Lemma intLt_ofInt (n k : Z) :
  JsNumber.intLt n (JsNumber.ofInt k) = (n <? k)%Z.
Proof.
  unfold JsNumber.intLt, JsNumber.ofInt. simpl. now rewrite Z.mul_1_r.
Qed.

(** The last attempt for a [maxRetries] that is an integer, and for one
    that is not a number. *)
Lemma IsLastAttempt_ofInt (n : Z) :
  (n <= 2 ^ 53)%Z -> IsLastAttempt (JsNumber.ofInt n) (Z.max 0 n).
Proof.
  intros Hn. split; [lia|]. split.
  - rewrite intLt_ofInt. apply Z.ltb_ge. lia.
  - intros j Hj. rewrite intLt_ofInt. apply Z.ltb_lt. lia.
Qed.

Lemma IsLastAttempt_NaN : IsLastAttempt JsNumber.NaN 0.
Proof.
  split; [lia|]. split; [reflexivity|]. intros j Hj. lia.
Qed.

Section Retry.

Variable options : AiGenerationOptions.t.
Variable generate : Z -> Try string.
Variable clock : nat -> Z.
Variable plusOneText : JsNumber.t -> string.

Local Abbreviation maxRetries := (AiGenerationOptions.maxRetries options).
Local Abbreviation call :=
  (AiGenerator.callGeminiApi options true generate clock plusOneText).

Lemma callGeminiApi_try_outcome (retryCount : Z) (ticks : nat) :
  match failureOf generate retryCount with
  | None =>
      exists text,
        generate retryCount = inr text
        /\ AiGenerator.callGeminiApi_try generate clock retryCount ticks
           = (inr text, ticks)
  | Some message =>
      exists error ticks',
        AiGenerator.callGeminiApi_try generate clock retryCount ticks
        = (inl error, ticks')
        /\ errorMessage error = message
        /\ (originalOf error = None \/ originalOf error = Some message)
  end.
Proof.
  unfold failureOf, AiGenerator.callGeminiApi_try, usable.
  destruct (generate retryCount) as [error|text].
  - exists error, ticks. split; [reflexivity|]. split; [reflexivity|].
    destruct error; simpl; auto.
  - destruct (String.eqb text ""); simpl.
    + eexists. eexists. split; [reflexivity|]. split; [reflexivity|]. now left.
    + destruct (String.length (JsText.trim text) =? 0)%nat; simpl.
      * eexists. eexists. split; [reflexivity|]. split; [reflexivity|].
        now left.
      * now exists text.
Qed.

Lemma succ_below (n k : Z) :
  (n < k <= 2 ^ 53)%Z -> JsNumber.succ n = (n + 1)%Z.
Proof.
  intros H. unfold JsNumber.succ.
  destruct (Z.ltb_spec n (2 ^ 53)); [reflexivity | lia].
Qed.

Lemma callGeminiApi_returns_first (fuel : nat) (retryCount k : Z)
    (ticks : nat) (text : string) :
  (Z.to_nat (k - retryCount) < fuel)%nat ->
  (0 <= retryCount <= k)%Z ->
  (k <= 2 ^ 53)%Z ->
  (forall j, (retryCount <= j < k)%Z ->
             JsNumber.intLt j maxRetries = true
             /\ failureOf generate j <> None) ->
  generate k = inr text ->
  usable text = true ->
  exists ticks', call fuel retryCount ticks = Some (inr text, ticks').
Proof.
  revert retryCount ticks.
  induction fuel as [|fuel IH];
    intros retryCount ticks Hfuel Hk Hbound Hfail Hgen Huse; [lia|].
  cbn [AiGenerator.callGeminiApi negb].
  pose proof (callGeminiApi_try_outcome retryCount ticks) as Htry.
  destruct (Z.eq_dec retryCount k) as [->|Hne].
  - unfold failureOf in Htry. rewrite Hgen, Huse in Htry.
    destruct Htry as [text' [Hgen' Htry]]. rewrite Htry. exists ticks.
    injection Hgen' as <-. reflexivity.
  - destruct (Hfail retryCount) as [Hlt Hf]; [lia|].
    destruct (failureOf generate retryCount) as [message|];
      [|congruence].
    destruct Htry as [error [ticks1 [Htry _]]]. rewrite Htry, Hlt.
    rewrite (@succ_below retryCount k) by lia.
    apply IH; try assumption; try lia.
    intros j Hj. apply Hfail. lia.
Qed.

Lemma callGeminiApi_gives_up (fuel : nat) (retryCount last : Z) (ticks : nat) :
  (Z.to_nat (last - retryCount) < fuel)%nat ->
  (0 <= retryCount <= last)%Z ->
  (last <= 2 ^ 53)%Z ->
  JsNumber.intLt last maxRetries = false ->
  (forall j, (retryCount <= j < last)%Z ->
             JsNumber.intLt j maxRetries = true) ->
  (forall j, (retryCount <= j <= last)%Z -> failureOf generate j <> None) ->
  exists e ticks',
    call fuel retryCount ticks = Some (inl (ThrownApp e), ticks')
    /\ AppError.category e = AI_API
    /\ AppError.code e = "GEMINI_API_ERROR"
    /\ AppError.message e
       = "Gemini API call failed after " ++ plusOneText maxRetries
         ++ " attempts"
    /\ AppError.details e = failureOf generate last.
Proof.
  revert retryCount ticks.
  induction fuel as [|fuel IH];
    intros retryCount ticks Hfuel Hr Hbound Hlast Hbelow Hfail; [lia|].
  cbn [AiGenerator.callGeminiApi negb].
  pose proof (callGeminiApi_try_outcome retryCount ticks) as Htry.
  destruct (failureOf generate retryCount) as [message|] eqn:Hf;
    [|exfalso; apply (Hfail retryCount); [lia | exact Hf]].
  destruct Htry as [error [ticks1 [Htry [Hmsg _]]]]. rewrite Htry.
  destruct (Z.eq_dec retryCount last) as [->|Hne].
  - rewrite Hlast. eexists. eexists. split; [reflexivity|].
    simpl. repeat split. now rewrite Hf, Hmsg.
  - rewrite (Hbelow retryCount) by lia.
    rewrite (@succ_below retryCount last) by lia.
    apply IH; try assumption; try lia.
    + intros j Hj. apply Hbelow. lia.
    + intros j Hj. apply Hfail. lia.
Qed.

Lemma succ_range (n : Z) :
  (0 <= n <= 2 ^ 53)%Z -> (0 <= JsNumber.succ n <= 2 ^ 53)%Z.
Proof.
  intros H. unfold JsNumber.succ.
  destruct (Z.ltb_spec n (2 ^ 53)); lia.
Qed.

Lemma callGeminiApi_never_gives_up (fuel : nat) (retryCount : Z) (ticks : nat) :
  (0 <= retryCount <= 2 ^ 53)%Z ->
  (forall j, (0 <= j <= 2 ^ 53)%Z -> JsNumber.intLt j maxRetries = true) ->
  (forall j, (0 <= j <= 2 ^ 53)%Z -> failureOf generate j <> None) ->
  call fuel retryCount ticks = None.
Proof.
  intros Hr Hbelow Hfail. revert retryCount ticks Hr.
  induction fuel as [|fuel IH]; intros retryCount ticks Hr; [reflexivity|].
  cbn [AiGenerator.callGeminiApi negb].
  pose proof (callGeminiApi_try_outcome retryCount ticks) as Htry.
  destruct (failureOf generate retryCount) as [message|] eqn:Hf;
    [|exfalso; now apply (Hfail retryCount)].
  destruct Htry as [error [ticks1 [Htry _]]]. rewrite Htry.
  rewrite (Hbelow retryCount Hr). apply IH. now apply succ_range.
Qed.

(** Among the attempts up to [last], either all fail or there is a first
    one that does not. *)
Lemma first_usable (last : nat) :
  (forall j, (0 <= j <= Z.of_nat last)%Z -> failureOf generate j <> None)
  \/ exists k, (0 <= k <= Z.of_nat last)%Z
       /\ failureOf generate k = None
       /\ forall j, (0 <= j < k)%Z -> failureOf generate j <> None.
Proof.
  induction last as [|last [IH | [k [Hk [Hnone Hbefore]]]]].
  - destruct (failureOf generate 0) as [message|] eqn:H0.
    + left. intros j Hj. replace j with 0%Z by lia. congruence.
    + right. exists 0%Z. split; [lia|]. split; [exact H0|]. intros j Hj. lia.
  - destruct (failureOf generate (Z.of_nat (S last))) as [message|] eqn:Hn.
    + left. intros j Hj.
      destruct (Z.eq_dec j (Z.of_nat (S last))) as [->|Hne];
        [congruence | apply IH; lia].
    + right. exists (Z.of_nat (S last)). split; [lia|]. split; [exact Hn|].
      intros j Hj. apply IH. lia.
  - right. exists k. split; [lia|]. now split.
Qed.

End Retry.

(** X23.  [callGeminiApi] makes the attempts 0, 1, ... in turn and returns
    the text of the first one that is usable (not empty, not blank); an
    attempt that throws, or answers with an empty or blank text, is
    followed by the next one as long as its number is below [maxRetries],
    in the platform's comparison of numbers.  When there is a first
    attempt number [last] that is not below [maxRetries], the call ends
    after at most [last + 1] attempts, and when none of them is usable it
    throws [GEMINI_API_ERROR], whose details are the message of the last
    failure ([[object Object]] when that was an empty response).  Nothing
    validates [maxRetries]: when every attempt number is below it, as for
    [Infinity], and every attempt fails, the call never returns.  Without
    an initialized client it throws [GEMINI_NOT_INITIALIZED] and asks
    nothing of the model. *)
Theorem callGeminiApi_spec (options : AiGenerationOptions.t)
    (generate : Z -> Try string) (clock : nat -> Z)
    (plusOneText : JsNumber.t -> string) (ticks : nat) :
  let maxRetries := AiGenerationOptions.maxRetries options in
  let call :=
    AiGenerator.callGeminiApi options true generate clock plusOneText in
  (forall k text fuel,
     (0 <= k <= 2 ^ 53)%Z ->
     (forall j, (0 <= j < k)%Z ->
                JsNumber.intLt j maxRetries = true
                /\ failureOf generate j <> None) ->
     generate k = inr text ->
     usable text = true ->
     (Z.to_nat k < fuel)%nat ->
     exists ticks', call fuel 0%Z ticks = Some (inr text, ticks'))
  /\ (forall last fuel,
        IsLastAttempt maxRetries last ->
        (Z.to_nat last < fuel)%nat ->
        (exists outcome ticks', call fuel 0%Z ticks = Some (outcome, ticks'))
        /\ ((forall j, (0 <= j <= last)%Z -> failureOf generate j <> None) ->
            exists e ticks',
              call fuel 0%Z ticks = Some (inl (ThrownApp e), ticks')
              /\ AppError.category e = AI_API
              /\ AppError.code e = "GEMINI_API_ERROR"
              /\ AppError.message e
                 = "Gemini API call failed after " ++ plusOneText maxRetries
                   ++ " attempts"
              /\ AppError.details e = failureOf generate last))
  /\ ((forall j, (0 <= j <= 2 ^ 53)%Z -> JsNumber.intLt j maxRetries = true) ->
      (forall j, (0 <= j <= 2 ^ 53)%Z -> failureOf generate j <> None) ->
      forall fuel, call fuel 0%Z ticks = None)
  /\ (maxRetries = JsNumber.PosInfinity ->
      (forall j, (0 <= j <= 2 ^ 53)%Z -> failureOf generate j <> None) ->
      forall fuel, call fuel 0%Z ticks = None)
  /\ (forall fuel,
        exists e,
          AiGenerator.callGeminiApi options false generate clock plusOneText
            (S fuel) 0%Z ticks
          = Some (inl (ThrownApp e), S ticks)
          /\ AppError.code e = "GEMINI_NOT_INITIALIZED").
Proof.
  intros maxRetries call.
  split; [|split; [|split; [|split]]].
  - intros k text fuel Hk Hfail Hgen Huse Hfuel.
    apply (@callGeminiApi_returns_first options generate clock plusOneText
             fuel 0 k); auto; try lia.
  - intros last fuel [Hlast [Hnot Hbelow]] Hfuel.
    assert (Hfuel' : (Z.to_nat (last - 0) < fuel)%nat)
      by now rewrite Z.sub_0_r.
    assert (Hgive : (forall j, (0 <= j <= last)%Z ->
                               failureOf generate j <> None) ->
              exists e ticks',
                call fuel 0%Z ticks = Some (inl (ThrownApp e), ticks')
                /\ AppError.category e = AI_API
                /\ AppError.code e = "GEMINI_API_ERROR"
                /\ AppError.message e
                   = "Gemini API call failed after " ++ plusOneText maxRetries
                     ++ " attempts"
                /\ AppError.details e = failureOf generate last).
    { intros Hfail.
      apply (@callGeminiApi_gives_up options generate clock plusOneText
               fuel 0 last); auto; lia. }
    split; [|exact Hgive].
    destruct (first_usable generate (Z.to_nat last))
      as [Hall | [k [Hk [Hnone Hbefore]]]].
    + assert (Hfail : forall j, (0 <= j <= last)%Z ->
                                failureOf generate j <> None)
        by (intros j Hj; apply Hall; lia).
      destruct (Hgive Hfail) as [e [ticks' [Hcall _]]].
      now exists (inl (ThrownApp e)), ticks'.
    + unfold failureOf in Hnone.
      destruct (generate k) as [error|text] eqn:Hgen; [discriminate|].
      destruct (usable text) eqn:Huse; [|discriminate].
      destruct (@callGeminiApi_returns_first options generate clock
                  plusOneText fuel 0 k ticks text) as [ticks' Hcall];
        auto; try lia.
      * intros j Hj. split; [apply Hbelow; lia | apply Hbefore; lia].
      * now exists (inr text), ticks'.
  - intros Hbelow Hfail fuel.
    apply callGeminiApi_never_gives_up; auto. lia.
  - intros Hinf Hfail fuel.
    apply callGeminiApi_never_gives_up; auto; [lia|].
    intros j _. unfold maxRetries in Hinf. now rewrite Hinf.
  - intros fuel. simpl. eexists. split; reflexivity.
Qed.

Lemma callGeminiApi_spec_witness :
  exists ticks',
    AiGenerator.callGeminiApi
      (AiGenerationOptions.mk (JsNumber.ofInt 3) (JsNumber.ofInt 1000)
         (JsNumber.ofInt 30000) true)
      true
      (fun k => if (k <? 2)%Z then inr "  " else inr "{}")
      (fun n => Z.of_nat n) (fun _ => "4") 4 0 0
    = Some (inr "{}", ticks').
Proof.
  apply (proj1 (@callGeminiApi_spec
                  (AiGenerationOptions.mk (JsNumber.ofInt 3)
                     (JsNumber.ofInt 1000) (JsNumber.ofInt 30000) true)
                  (fun k => if (k <? 2)%Z then inr "  " else inr "{}")
                  (fun n => Z.of_nat n) (fun _ => "4") 0) 2%Z "{}" 4).
  - lia.
  - intros j Hj. assert (Hc : j = 0%Z \/ j = 1%Z) by lia.
    destruct Hc as [-> | ->]; split; (reflexivity || discriminate).
  - reflexivity.
  - reflexivity.
  - simpl. lia.
Defined.

(** With [maxRetries] 3 and a model that never answers, the fourth attempt
    is the last; with [maxRetries] 2.5 the comparison lets attempts 0, 1
    and 2 be followed by another, and the call gives up after attempt 3
    all the same; with a [maxRetries] that is not a number the first
    failure is final. *)
Example callGeminiApi_gives_up_examples :
  let never := fun _ : Z => inl (ThrownError "fetch failed") : Try string in
  let clockOf := fun n => Z.of_nat n in
  let optionsOf := fun maxRetries =>
    AiGenerationOptions.mk maxRetries (JsNumber.ofInt 1000)
      (JsNumber.ofInt 30000) true in
  AiGenerator.callGeminiApi (optionsOf (JsNumber.ofInt 3)) true never clockOf
    (fun _ => "4") 4 0 0
  = Some (inl (ThrownApp
                 (AppError.mk AI_API "GEMINI_API_ERROR"
                    "Gemini API call failed after 4 attempts"
                    (Some "fetch failed") (Some "fetch failed") 0)), 1)
  /\ AiGenerator.callGeminiApi (optionsOf (JsNumber.ofInt 3)) true never
       clockOf (fun _ => "4") 3 0 0 = None
  /\ (exists e,
        AiGenerator.callGeminiApi (optionsOf (JsNumber.Finite 5 (-1))) true
          never clockOf (fun _ => "3.5") 4 0 0
        = Some (inl (ThrownApp e), 1))
  /\ AiGenerator.callGeminiApi (optionsOf (JsNumber.Finite 5 (-1))) true
       never clockOf (fun _ => "3.5") 3 0 0 = None
  /\ AiGenerator.callGeminiApi (optionsOf JsNumber.NaN) true never clockOf
       (fun _ => "NaN") 1 0 0
     = Some (inl (ThrownApp
                    (AppError.mk AI_API "GEMINI_API_ERROR"
                       "Gemini API call failed after NaN attempts"
                       (Some "fetch failed") (Some "fetch failed") 0)), 1).
Proof. vm_compute. repeat split. eexists. reflexivity. Qed.

(** ** The statistics of a document *)

Lemma isBffBlockApi_processLogEntry (newURL : string -> option URL.t)
    (log : NetworkLogEntry.t) :
  DocumentGenerator.isBffBlockApi newURL
    (DataProcessor.processLogEntry newURL log)
  = DataProcessor.isBffBlockApiPattern newURL log.
Proof. reflexivity. Qed.

Lemma count_le_pointwise {A B} (f : A -> bool) (g : B -> bool)
    (l : list A) (l' : list B) :
  Forall2 (fun a b => g b = true -> f a = true) l l' ->
  List.length (filter g l') <= List.length (filter f l).
Proof.
  induction 1 as [|a b l l' H _ IH]; simpl; [lia|].
  destruct (g b); [rewrite (H eq_refl)|destruct (f a)]; simpl; lia.
Qed.

(** X24.  In the statistics of a document the block and the regular
    endpoints add up to the total, and the hosts and methods are listed
    once each in order of first appearance.  Computed on the output of the
    normalizer, the block count of the document is the number of output
    endpoints whose own URL matches the pattern: it equals the normalizer's
    [bffApiCount] when merging is off, and with merging on it never exceeds
    it. *)
Theorem generateStats_spec (newURL : string -> option URL.t)
    (now : Z) (options : Options.t) (logs : NetworkLogCollection)
    (processedData : ProcessedApiCollection) (content : string) :
  let stats := DocumentStatistics.generateStats newURL processedData content in
  DocumentStats.bffApiCount stats + DocumentStats.regularApiCount stats
  = DocumentStats.totalEndpoints stats
  /\ NoDup (DocumentStats.uniqueHosts stats)
  /\ NoDup (DocumentStats.httpMethods stats)
  /\ (forall api u,
        In api processedData -> newURL (ProcessedApiData.url api) = Some u ->
        In (URL.hostname u) (DocumentStats.uniqueHosts stats))
  /\ (let result := DataProcessor.processNetworkLogs newURL now options logs in
      processedData = DataProcessingResult.processedData result ->
      DocumentStats.totalEndpoints stats
      = DataProcessingResult.uniqueEndpoints result
      /\ DocumentStats.bffApiCount stats
         <= DataProcessingResult.bffApiCount result
      /\ (Options.mergeDuplicates options = false ->
          DocumentStats.bffApiCount stats
          = DataProcessingResult.bffApiCount result)).
Proof.
  intros stats. unfold stats, DocumentStatistics.generateStats. simpl.
  split; [|split; [|split; [|split]]].
  - pose proof (filter_length_le (DocumentGenerator.isBffBlockApi newURL)
                  processedData). lia.
  - apply (firstSeen_NoDup newURL).
  - apply (firstSeen_NoDup newURL).
  - intros api u Hin Hu.
    apply (firstSeen_In newURL). apply in_map_iff. exists api.
    split; [|exact Hin].
    unfold DocumentStatistics.extractHostFromUrl, tryURL. now rewrite Hu.
  - intros Hpd. subst processedData.
    destruct (nil_or_not logs) as [->|Hne].
    + rewrite processNetworkLogs_empty. simpl. repeat split; lia.
    + destruct (Options.mergeDuplicates options) eqn:Hmerge.
      * destruct (@processNetworkLogs_representatives newURL now options logs
                    Hne Hmerge) as [rs [-> Hrs]].
        simpl. rewrite length_map. split; [reflexivity|].
        split; [|discriminate].
        rewrite filter_map_length.
        rewrite (filter_map_length EndpointMergeInfo.isBffBlockApi).
        apply count_le_pointwise.
        eapply Forall2_impl; [|exact Hrs].
        intros k r [Hin Hkey] Hblock. simpl.
        apply existsb_exists. exists r. split; [|exact Hblock].
        apply filter_In. split; [exact Hin|]. now apply String.eqb_eq.
      * rewrite (@processNetworkLogs_unmerged newURL now options logs
                   Hne Hmerge).
        simpl. rewrite !length_map, filter_map_length.
        split; [reflexivity|]. split; [apply Nat.le_refl | reflexivity].
Qed.

Lemma generateStats_spec_witness :
  DocumentStats.bffApiCount
    (DocumentStatistics.generateStats Fixtures.newURL
       (DataProcessingResult.processedData
          (DataProcessor.processNetworkLogs Fixtures.newURL 0 Fixtures.defaults
             [Fixtures.banner; Fixtures.listing]))
       "")
  <= DataProcessingResult.bffApiCount
       (DataProcessor.processNetworkLogs Fixtures.newURL 0 Fixtures.defaults
          [Fixtures.banner; Fixtures.listing]).
Proof.
  exact (proj1 (proj2
           (proj2 (proj2 (proj2 (proj2
              (generateStats_spec Fixtures.newURL 0 Fixtures.defaults
                 [Fixtures.banner; Fixtures.listing]
                 (DataProcessingResult.processedData
                    (DataProcessor.processNetworkLogs Fixtures.newURL 0
                       Fixtures.defaults [Fixtures.banner; Fixtures.listing]))
                 ""))))
              eq_refl))).
Defined.

(** The merged endpoint of a block request and a longer plain request to
    the same path: the normalizer counts one block API, the document
    none. *)
Example document_counts_fewer_blocks :
  DataProcessingResult.bffApiCount
    (DataProcessor.processNetworkLogs Fixtures.newURL 0 Fixtures.defaults
       [Fixtures.banner; Fixtures.listing]) = 1
  /\ DocumentStats.bffApiCount
       (DocumentStatistics.generateStats Fixtures.newURL
          (DataProcessingResult.processedData
             (DataProcessor.processNetworkLogs Fixtures.newURL 0
                Fixtures.defaults [Fixtures.banner; Fixtures.listing]))
          "") = 0.
Proof. split; reflexivity. Qed.

(** ** Displaying the configuration *)

Lemma nth_error_store_same {A} (address : nat) (value : A) (heap : list A) :
  nth_error heap address <> None ->
  nth_error (ConfigDisplay.store address value heap) address = Some value.
Proof.
  revert address. induction heap as [|a heap IH]; intros [|address] H; simpl in *;
    try congruence. now apply IH.
Qed.

Lemma nth_error_store_other {A} (address other : nat) (value : A)
    (heap : list A) :
  other <> address ->
  nth_error (ConfigDisplay.store address value heap) other
  = nth_error heap other.
Proof.
  revert address other.
  induction heap as [|a heap IH]; intros [|address] [|other] H; simpl;
    try congruence; try reflexivity.
  apply IH. congruence.
Qed.

(** X25.  [formatConfigForDisplay] with [hideSecrets] masks the API key in
    place: its copy of the configuration shares the [ai] object with the
    caller's, so afterwards the caller's own [config.ai.api_key] is the
    first eight characters of the key followed by three dots, and the key
    is lost.  The other [ai] objects are untouched; without [hideSecrets],
    or with an empty key, nothing is written. *)
Theorem formatConfigForDisplay_masks_in_place
    (stringify : ConfigHeap -> ConfigObject.t -> string)
    (heap : ConfigHeap) (config : ConfigObject.t) (aiObject : AiConfig.t) :
  nth_error heap (ConfigObject.ai config) = Some aiObject ->
  let masked := String.substring 0 8 (AiConfig.api_key aiObject) ++ "..." in
  (AiConfig.api_key aiObject <> "" ->
   exists heap',
     ConfigDisplay.formatConfigForDisplay stringify heap config true
     = Some (stringify heap' config, heap')
     /\ ConfigDisplay.apiKeyOf heap' config = Some masked
     /\ (forall other,
           ConfigObject.ai other <> ConfigObject.ai config ->
           ConfigDisplay.apiKeyOf heap' other
           = ConfigDisplay.apiKeyOf heap other)
     /\ (forall other,
           ConfigObject.ai other = ConfigObject.ai config ->
           ConfigDisplay.apiKeyOf heap' other = Some masked))
  /\ (AiConfig.api_key aiObject = "" ->
      ConfigDisplay.formatConfigForDisplay stringify heap config true
      = Some (stringify heap config, heap))
  /\ ConfigDisplay.formatConfigForDisplay stringify heap config false
     = Some (stringify heap config, heap).
Proof.
  intros Hai masked.
  assert (Hcopy : ConfigObject.mk (ConfigObject.ai config)
                    (ConfigObject.output config) (ConfigObject.filter config)
                  = config) by now destruct config.
  unfold ConfigDisplay.formatConfigForDisplay. rewrite Hcopy.
  cbn [ConfigObject.ai]. rewrite Hai.
  split; [|split; [|reflexivity]].
  - intros Hkey. apply String.eqb_neq in Hkey. rewrite Hkey. simpl.
    eexists. split; [reflexivity|].
    unfold ConfigDisplay.apiKeyOf. split; [|split].
    + rewrite nth_error_store_same by congruence. reflexivity.
    + intros other Hother. now rewrite nth_error_store_other.
    + intros other Hother. rewrite Hother.
      rewrite nth_error_store_same by congruence. reflexivity.
  - intros ->. reflexivity.
Qed.

Lemma formatConfigForDisplay_masks_in_place_witness :
  exists heap',
    ConfigDisplay.formatConfigForDisplay (fun _ _ => "{}")
      [AiConfig.mk "secret-api-key-12345" "gemini-1.5-pro-latest" "./prompt.txt"]
      (ConfigObject.mk 0 (OutputConfig.mk "out.json") (FilterConfig.mk []))
      true
    = Some ("{}", heap')
    /\ ConfigDisplay.apiKeyOf heap'
         (ConfigObject.mk 0 (OutputConfig.mk "out.json") (FilterConfig.mk []))
       = Some "secret-a...".
Proof.
  destruct (@formatConfigForDisplay_masks_in_place (fun _ _ => "{}")
              [AiConfig.mk "secret-api-key-12345" "gemini-1.5-pro-latest"
                 "./prompt.txt"]
              (ConfigObject.mk 0 (OutputConfig.mk "out.json")
                 (FilterConfig.mk []))
              (AiConfig.mk "secret-api-key-12345" "gemini-1.5-pro-latest"
                 "./prompt.txt") eq_refl) as [H _].
  destruct (H ltac:(discriminate)) as [heap' [Hrun [Hkey _]]].
  exists heap'. split; [exact Hrun | exact Hkey].
Defined.
